(** * DOOM RETRO, m_config.c: the configuration file reader and writer

    A shallow embedding of [src/src/m_config.c]: the alias table, the
    scancode table, the value formatter of [SaveDefaultCollection], the
    value parsers [ParseIntParameter] and [ParseFloatParameter], the
    per-line body of [LoadDefaultCollection], [M_SaveDefaults] and the
    volume rescaling of [M_CheckDefaults].

    C data is modelled as follows.
    - [int] is a [Z] in the range of [is_int]; conversions from
      [unsigned] wrap with [wrap32].
    - [char *] is a [string]; characters are compared through their
      codes ([code]).
    - [float] is a finite binary floating-point number [Fnum * 2 ^ Fexp]
      (signed zeros, infinities and NaN are outside the model).
    - Operations the C standard leaves undefined (a read or write outside
      an array or string, a conversion whose result does not fit) produce
      a [Fault] instead of a value. *)

From Stdlib Require Import ZArith String Ascii List Lia Bool.
From stdpp Require Import base option list gmap strings.

Local Open Scope Z_scope.

(** ** Faults and the error monad *)

(** What stops an evaluation: a read or write outside an array, another
    operation whose behaviour C leaves undefined, or a step into code that
    is not in m_config.c. *)
Inductive fault :=
  | OutOfBounds (array : string) (index : Z)
  | Undefined (what : string)
  | NotModelled (what : string).

Inductive result (A : Type) :=
  | Ok (a : A)
  | Fault (f : fault).
Arguments Ok {A} a.
Arguments Fault {A} f.

Definition bind {A B : Type} (m : result A) (f : A -> result B) : result B :=
  match m with
  | Ok a => f a
  | Fault e => Fault e
  end.

Notation "x <- m ;; k" := (bind m (fun x => k))
  (at level 100, m at next level, right associativity).

(** ** <ctype.h> and <string.h>, "C" locale *)

Definition code (c : ascii) : Z := Z.of_nat (nat_of_ascii c).

Definition chr (n : Z) : ascii := ascii_of_nat (Z.to_nat (n mod 256)).

Definition isprint (c : Z) : bool := (32 <=? c) && (c <=? 126).

Definition isspace (c : Z) : bool := (c =? 32) || ((9 <=? c) && (c <=? 13)).

Definition isdigit (c : Z) : bool := (48 <=? c) && (c <=? 57).

Definition tolower (c : Z) : Z :=
  if (65 <=? c) && (c <=? 90) then c + 32 else c.

(** [s[i]] for [0 <= i <= strlen(s)]: the terminating NUL is part of the
    string, anything behind it is not. *)
Fixpoint char_at (s : string) (i : nat) : result Z :=
  match s, i with
  | EmptyString, O => Ok 0
  | EmptyString, S _ => Fault (OutOfBounds "string" (Z.of_nat i))
  | String c _, O => Ok (code c)
  | String _ s', S i' =>
      match char_at s' i' with
      | Ok z => Ok z
      | Fault _ => Fault (OutOfBounds "string" (Z.of_nat i))
      end
  end.

Definition strlen (s : string) : Z := Z.of_nat (String.length s).

(** [strcasecmp]: zero when equal up to the case of letters, otherwise the
    difference of the first two lower-cased characters that differ. The
    comparison ends at a NUL. *)
Fixpoint strcasecmp (s1 s2 : string) : Z :=
  match s1, s2 with
  | EmptyString, EmptyString => 0
  | EmptyString, String c2 _ => 0 - tolower (code c2)
  | String c1 _, EmptyString => tolower (code c1)
  | String c1 r1, String c2 r2 =>
      if tolower (code c1) =? tolower (code c2)
      then if code c1 =? 0 then 0 else strcasecmp r1 r2
      else tolower (code c1) - tolower (code c2)
  end.

(** [strcmp]: zero when equal, otherwise the difference of the first two
    characters that differ. The comparison ends at a NUL, as that of
    [strcasecmp] does. *)
Fixpoint strcmp (s1 s2 : string) : Z :=
  match s1, s2 with
  | EmptyString, EmptyString => 0
  | EmptyString, String c2 _ => 0 - code c2
  | String c1 _, EmptyString => code c1
  | String c1 r1, String c2 r2 =>
      if code c1 =? code c2
      then if code c1 =? 0 then 0 else strcmp r1 r2
      else code c1 - code c2
  end.

(** [s] without its last character: what [s[strlen(s) - 1] = '\0'] leaves
    of a non-empty [s]. *)
Fixpoint drop_last (s : string) : string :=
  match s with
  | EmptyString => EmptyString
  | String c EmptyString => EmptyString
  | String c r => String c (drop_last r)
  end.

Fixpoint last_char (s : string) : option ascii :=
  match s with
  | EmptyString => None
  | String c EmptyString => Some c
  | String _ r => last_char r
  end.

(** ** [int] *)

Definition INT_MIN : Z := - 2 ^ 31.
Definition INT_MAX : Z := 2 ^ 31 - 1.
Definition UINT_MAX : Z := 2 ^ 32 - 1.

Definition is_int (z : Z) : Prop := INT_MIN <= z <= INT_MAX.

(** Conversion of an [unsigned] bit pattern to [int]. *)
Definition wrap32 (z : Z) : Z := (z + 2 ^ 31) mod 2 ^ 32 - 2 ^ 31.

(** Conversion of an [int] to [unsigned]. *)
Definition to_unsigned (z : Z) : Z := z mod 2 ^ 32.

(** ** <stdio.h>: the integer conversions of [fprintf] *)

(** The digits of [n >= 0] in [base], most significant first. *)
Fixpoint digits (fuel : nat) (base n : Z) : list Z :=
  match fuel with
  | O => []
  | S f => if n <? base then [n] else digits f base (n / base) ++ [n mod base]
  end.

Definition digit_char (d : Z) : ascii :=
  if d <? 10 then chr (48 + d) else chr (87 + d).

Fixpoint string_of_chars (l : list ascii) : string :=
  match l with
  | [] => EmptyString
  | c :: r => String c (string_of_chars r)
  end.

Definition utoa (base n : Z) : string :=
  string_of_chars (map digit_char (digits (S (Z.to_nat (Z.log2 n))) base n)).

(** ["%i"] *)
Definition printf_i (v : Z) : string :=
  if v <? 0 then String "-" (utoa 10 (- v)) else utoa 10 v.

(** ["%x"], the argument converted to [unsigned] *)
Definition printf_x (v : Z) : string := utoa 16 (to_unsigned v).

(** ["%c"], the argument converted to [unsigned char] *)
Definition printf_c (v : Z) : string := String (chr v) EmptyString.

(** ** <stdio.h>: the integer conversions of [sscanf] *)

Fixpoint skip_space (s : string) : string :=
  match s with
  | String c r => if isspace (code c) then skip_space r else s
  | EmptyString => EmptyString
  end.

(** The value of a digit character, or 99 for any other character. *)
Definition digit_val (c : Z) : Z :=
  if isdigit c then c - 48
  else if (97 <=? c) && (c <=? 102) then c - 87
  else if (65 <=? c) && (c <=? 70) then c - 55
  else 99.

(** At most [width] digits of [base] from the front of [s], accumulated on
    [acc]; [None] as long as no digit was read. *)
Fixpoint scan_digits (base : Z) (width : nat) (s : string) (acc : option Z)
  : option Z :=
  match width, s with
  | S w, String c r =>
      let d := digit_val (code c) in
      if d <? base
      then scan_digits base w r (Some (default 0 acc * base + d))
      else acc
  | _, _ => acc
  end.

(** What a conversion found: nothing (the argument is not assigned), or a
    number. *)
Inductive scanned :=
  | NoMatch
  | Matched (z : Z).

Definition is_x (c : ascii) : bool := (code c =? 120) || (code c =? 88).

(** An optional sign, which counts for the field width. *)
Definition scan_sign (s : string) (width : nat) : bool * string * nat :=
  match s, width with
  | String c r, S w =>
      if code c =? 45 then (true, r, w)
      else if code c =? 43 then (false, r, w)
      else (false, s, width)
  | _, _ => (false, s, width)
  end.

(** Whether [0x] or [0X] starts [s] and fits the field. *)
Definition has_0x (s : string) (width : nat) : bool :=
  match s, width with
  | String c (String x _), S (S _) => (code c =? 48) && is_x x
  | _, _ => false
  end.

Definition starts_with_0 (s : string) : bool :=
  match s with
  | String c _ => code c =? 48
  | EmptyString => false
  end.

(** The digits of the subject sequence of [strtol]/[strtoul], in what is
    left of the field after the sign: a [0x] prefix when [base] is 16 or
    0, then digits. [base = 0] is ["%i"]: a leading [0] selects octal,
    [0x] hexadecimal. *)
Definition scan_magnitude (base : Z) (width : nat) (s : string)
  : result scanned :=
  if has_0x s width && ((base =? 0) || (base =? 16)) then
    match scan_digits 16 (width - 2)
            (String.substring 2 (String.length s - 2) s) None with
    | Some v => Ok (Matched v)
    | None => Fault (Undefined "sscanf: 0x without a hexadecimal digit")
    end
  else
    let base := if base =? 0 then (if starts_with_0 s then 8 else 10) else base in
    match scan_digits base width s None with
    | Some v => Ok (Matched v)
    | None => Ok NoMatch
    end.

(** The subject sequence inside a field of [width] characters: white
    space (not counted), a sign, the digits. The result is the sign and
    the magnitude. *)
Definition scan_integer (base : Z) (width : nat) (s : string)
  : result (bool * scanned) :=
  let '(neg, s, width) := scan_sign (skip_space s) width in
  r <- scan_magnitude base width s ;;
  Ok (neg, r).

(** [sscanf(s, "%10i", &parm)] for [int parm]: the number must fit an [int]. *)
Definition sscanf_10i (s : string) : result scanned :=
  p <- scan_integer 0 10 s ;;
  let '(neg, r) := p in
  match r with
  | NoMatch => Ok NoMatch
  | Matched v =>
      let z := if neg : bool then - v else v in
      if (INT_MIN <=? z) && (z <=? INT_MAX) then Ok (Matched z)
      else Fault (Undefined "sscanf %i: the number does not fit an int")
  end.

(** [sscanf(s, "%10x", &parm)] for [int parm]: the number must fit an
    [unsigned]; a minus sign negates it as an [unsigned]; the bits are then
    read as the [int] that [parm] is. *)
Definition sscanf_10x (s : string) : result scanned :=
  p <- scan_integer 16 10 s ;;
  let '(neg, r) := p in
  match r with
  | NoMatch => Ok NoMatch
  | Matched v =>
      if v <=? UINT_MAX
      then Ok (Matched (wrap32 (if neg : bool then - v else v)))
      else Fault (Undefined "sscanf %x: the number does not fit an unsigned")
  end.

(** ** The tables of m_config.c *)

(** The key codes of doomkeys.h that [scantokey] names. The header is not
    among the sources, so the codes are parameters of the development. *)
Record doomkeys := {
  KEY_BACKSPACE : Z;  KEY_RCTRL : Z;      KEY_TILDE : Z;     KEY_RSHIFT : Z;
  KEYP_MULTIPLY : Z;  KEY_RALT : Z;       KEY_CAPSLOCK : Z;  KEY_PAUSE : Z;
  KEY_SCRLCK : Z;     KEY_HOME : Z;       KEY_UPARROW : Z;   KEY_PGUP : Z;
  KEY_MINUS : Z;      KEY_LEFTARROW : Z;  KEYP_5 : Z;        KEY_RIGHTARROW : Z;
  KEYP_PLUS : Z;      KEY_END : Z;        KEY_DOWNARROW : Z; KEY_PGDN : Z;
  KEY_INS : Z;        KEY_DEL : Z
}.

Definition INVALIDKEY : Z := -1.

(** A character constant ['c']. *)
Definition ch (s : string) : Z :=
  match s with
  | String c _ => code c
  | EmptyString => 0
  end.

Definition scantokey (K : doomkeys) : list Z :=
  [ 0;             27;             ch "1";        ch "2";
    ch "3";        ch "4";         ch "5";        ch "6";
    ch "7";        ch "8";         ch "9";        ch "0";
    ch "-";        ch "=";         KEY_BACKSPACE K; 9;
    ch "q";        ch "w";         ch "e";        ch "r";
    ch "t";        ch "y";         ch "u";        ch "i";
    ch "o";        ch "p";         ch "[";        ch "]";
    13;            KEY_RCTRL K;    ch "a";        ch "s";
    ch "d";        ch "f";         ch "g";        ch "h";
    ch "j";        ch "k";         ch "l";        ch ";";
    ch "'";        KEY_TILDE K;    KEY_RSHIFT K;  ch "\";
    ch "z";        ch "x";         ch "c";        ch "v";
    ch "b";        ch "n";         ch "m";        ch ",";
    ch ".";        ch "/";         KEY_RSHIFT K;  KEYP_MULTIPLY K;
    KEY_RALT K;    ch " ";         KEY_CAPSLOCK K; INVALIDKEY;
    INVALIDKEY;    INVALIDKEY;     INVALIDKEY;    INVALIDKEY;
    INVALIDKEY;    INVALIDKEY;     INVALIDKEY;    INVALIDKEY;
    INVALIDKEY;    KEY_PAUSE K;    KEY_SCRLCK K;  KEY_HOME K;
    KEY_UPARROW K; KEY_PGUP K;     KEY_MINUS K;   KEY_LEFTARROW K;
    KEYP_5 K;      KEY_RIGHTARROW K; KEYP_PLUS K; KEY_END K;
    KEY_DOWNARROW K; KEY_PGDN K;   KEY_INS K;     KEY_DEL K;
    0;             0;              0;             INVALIDKEY;
    INVALIDKEY;    0;              0;             0;
    0;             0;              0;             0;
    0;             0;              0;             0;
    0;             0;              0;             0;
    0;             0;              0;             0;
    0;             0;              0;             0;
    0;             0;              0;             0;
    0;             0;              0;             0;
    0;             0;              0;             0;
    0;             0;              0;             0 ].

(** [scantokey[v]]: the array has 128 entries. *)
Definition scantokey_at (K : doomkeys) (v : Z) : result Z :=
  if (0 <=? v) && (v <? 128)
  then match scantokey K !! Z.to_nat v with
       | Some k => Ok k
       | None => Fault (OutOfBounds "scantokey" v)
       end
  else Fault (OutOfBounds "scantokey" v).

Record alias_t := { text : string; value : Z; aset : Z }.

Definition A (t : string) (v s : Z) : alias_t :=
  {| text := t; value := v; aset := s |}.

(** The double quote, for the alias texts that contain one. *)
Definition dq : string := String (ascii_of_nat 34) EmptyString.

Definition aliases : list alias_t :=
  [ A "off"                            0  1;  A "on"                             1  1;
    A "0"                              0  1;  A "1"                              1  1;
    A "no"                             0  1;  A "yes"                            1  1;
    A "false"                          0  1;  A "true"                           1  1;
    A "-"                              0  2;  A "none"                           0  2;
    A "dpadup"                         1  2;  A "dpaddown"                       2  2;
    A "dpadleft"                       4  2;  A "dpadright"                      8  2;
    A "start"                         16  2;  A "back"                          32  2;
    A "leftthumb"                     64  2;  A "rightthumb"                   128  2;
    A "leftshoulder"                 256  2;  A "LS"                           256  2;
    A "leftbutton"                   256  2;  A "LB"                           256  2;
    A "rightshoulder"                512  2;  A "RS"                           512  2;
    A "rightbutton"                  512  2;  A "RB"                           512  2;
    A "lefttrigger"                 1024  2;  A "LT"                          1024  2;
    A "righttrigger"                2048  2;  A "RT"                          2048  2;
    A "gamepad1"                    4096  2;  A "gamepad2"                    8192  2;
    A "gamepad3"                   16384  2;  A "gamepad4"                   32768  2;
    A "-"                              0  3;  A "none"                           0  3;
    A "'+'"                           13  3;  A "backspace"                     14  3;
    A "tab"                           15  3;  A "enter"                         28  3;
    A "ctrl"                          29  3;  A "shift"                         42  3;
    A "alt"                           56  3;  A "space"                         57  3;
    A "capslock"                      58  3;  A "home"                          71  3;
    A "up"                            72  3;  A "pageup"                        73  3;
    A "left"                          75  3;  A "right"                         77  3;
    A "end"                           79  3;  A "down"                          80  3;
    A "pagedown"                      81  3;  A "insert"                        82  3;
    A "del"                           83  3;  A "-"                             (-1) 4;
    A "none"                          (-1) 4; A "left"                           0  4;
    A "mouse1"                         0  4;  A "middle"                         1  4;
    A "mouse2"                         1  4;  A "right"                          2  4;
    A "mouse3"                         2  4;  A "mouse4"                         3  4;
    A "mouse5"                         4  4;  A "mouse6"                         5  4;
    A "mouse7"                         6  4;  A "mouse8"                         7  4;
    A "wheelup"                        8  4;  A "wheeldown"                      9  4;
    A "desktop"                        0  5;  A "low"                            0  6;
    A "high"                           1  6;  A "-"                              0  7;
    A "unlimited"                  32768  7;
    A (dq +:+ "Knee-Deep in the Dead" +:+ dq)      0  8;
    A (dq +:+ "The Shores of Hell" +:+ dq)         1  8;
    A (dq +:+ "Inferno" +:+ dq)                    2  8;
    A (dq +:+ "Thy Flesh Consumed" +:+ dq)         3  8;
    A (dq +:+ "Hell on Earth" +:+ dq)              0  9;
    A (dq +:+ "No Rest for the Living" +:+ dq)     1  9;
    A (dq +:+ "I'm too young to die." +:+ dq)      0 10;
    A (dq +:+ "Hey, not too rough." +:+ dq)        1 10;
    A (dq +:+ "Hurt me plenty." +:+ dq)            2 10;
    A (dq +:+ "Ultra-Violence." +:+ dq)            3 10;
    A (dq +:+ "Nightmare!" +:+ dq)                 4 10;
    A "off"                            1 11;  A ""                               0  0 ].

(** The loop [while (aliases[j].text[0]) { if (<test on aliases[j]>) ...;
    j++; }] that every alias lookup of the file is: the first entry before
    the end marker (the entry with an empty text) that passes [test]. A
    table without end marker is read past its end. *)
Fixpoint alias_loop (test : alias_t -> bool) (table : list alias_t) (j : Z)
  : result (option alias_t) :=
  match table with
  | [] => Fault (OutOfBounds "aliases" j)
  | a :: rest =>
      match text a with
      | EmptyString => Ok None
      | _ => if test a then Ok (Some a) else alias_loop test rest (j + 1)
      end
  end.

(** ** [float] and [double] *)

(** A finite binary floating-point number, [Fnum * 2 ^ Fexp]. A [float]
    has [|Fnum| < 2 ^ 24] and [-149 <= Fexp], a [double] has
    [|Fnum| < 2 ^ 53] and [-1074 <= Fexp]. *)
Record float := Float { Fnum : Z; Fexp : Z }.

(** [2 ^ e] for an integer [e] of either sign, as a fraction. *)
Definition pow2_num (e : Z) : Z := 2 ^ Z.max e 0.
Definition pow2_den (e : Z) : Z := 2 ^ Z.max (- e) 0.

(** The number as a fraction [n / d] with [d > 0]. *)
Definition Ffrac (x : float) : Z * Z :=
  (Fnum x * pow2_num (Fexp x), pow2_den (Fexp x)).

(** [x == y] *)
Definition Feqb (x y : float) : bool :=
  let '(n1, d1) := Ffrac x in
  let '(n2, d2) := Ffrac y in
  n1 * d2 =? n2 * d1.

(** [x == floor(x)] *)
Definition Fintegral (x : float) : bool :=
  let '(n, d) := Ffrac x in n mod d =? 0.

(** [n / d] rounded to the nearest integer, ties to even ([n >= 0], [d > 0]). *)
Definition round_half_even (n d : Z) : Z :=
  let q := n / d in
  let r := n mod d in
  if 2 * r <? d then q
  else if d <? 2 * r then q + 1
  else if Z.even q then q else q + 1.

(** [floor (log2 (n / d))] for [n > 0], [d > 0]. *)
Definition log2_frac (n d : Z) : Z :=
  let e := Z.log2 n - Z.log2 d in
  if d * pow2_num e <=? n * pow2_den e then e else e - 1.

(** The fraction [n / d] ([d > 0]) rounded to the nearest number with [prec]
    bits of precision and exponent at least [emin], ties to even; a number
    of magnitude [2 ^ emax] or more would be an infinity. *)
Definition round_frac (prec emin emax : Z) (n d : Z) : result float :=
  if n =? 0 then Ok (Float 0 0) else
  let a := Z.abs n in
  let e := Z.max emin (log2_frac a d - prec + 1) in
  let m := round_half_even (a * pow2_den e) (d * pow2_num e) in
  if 2 ^ (emax - e) <=? m then Fault (Undefined "floating-point overflow")
  else Ok (Float (Z.sgn n * m) e).

Definition round_double : Z -> Z -> result float := round_frac 53 (-1074) 1024.
Definition round_float : Z -> Z -> result float := round_frac 24 (-149) 128.

(** [(float)z] for an [int] [z] *)
Definition float_of_int (z : Z) : result float := round_float z 1.

(** [(float)x] for a [double] [x] *)
Definition float_of_double (x : float) : result float :=
  let '(n, d) := Ffrac x in round_float n d.

(** *** ["%.*f"] *)

(** [n] in decimal, padded with zeros on the left to [width] digits. *)
Fixpoint pad_digits (width : nat) (n : Z) : string :=
  match width with
  | O => EmptyString
  | S w => pad_digits w (n / 10) +:+ String (digit_char (n mod 10)) EmptyString
  end.

(** [fprintf("%.*f", precision, x)]: the exact value of [x] rounded to
    [precision] decimals, ties to even. *)
Definition printf_f (precision : nat) (x : float) : string :=
  let '(n, d) := Ffrac x in
  let scale := 10 ^ Z.of_nat precision in
  let r := round_half_even (Z.abs n * scale) d in
  (if n <? 0 then "-" else "") +:+ utoa 10 (r / scale) +:+
  match precision with
  | O => ""
  | _ => "." +:+ pad_digits precision (r mod scale)
  end.

(** *** [atof] *)

(** The decimal digits at the front of [s]: their number, their value on
    top of [acc], and the rest of [s]. *)
Fixpoint scan_decimal (s : string) (acc : Z) (count : Z) : Z * Z * string :=
  match s with
  | String c r =>
      if isdigit (code c) then scan_decimal r (acc * 10 + (code c - 48)) (count + 1)
      else (acc, count, s)
  | EmptyString => (acc, count, s)
  end.

(** The exponent part [e[+-]ddd] at the front of [s], 0 if there is none. *)
Definition scan_exponent (s : string) : Z :=
  match s with
  | String c r =>
      if (code c =? 101) || (code c =? 69) then
        let '(neg, r, _) := scan_sign r 1 in
        let '(e, count, _) := scan_decimal r 0 0 in
        if count =? 0 then 0 else if neg : bool then - e else e
      else 0
  | EmptyString => 0
  end.

(** The hexadecimal digits at the front of [s]: their number, their value
    on top of [acc], and the rest of [s]. *)
Fixpoint scan_hexadecimal (s : string) (acc : Z) (count : Z) : Z * Z * string :=
  match s with
  | String c r =>
      if digit_val (code c) <? 16
      then scan_hexadecimal r (acc * 16 + digit_val (code c)) (count + 1)
      else (acc, count, s)
  | EmptyString => (acc, count, s)
  end.

(** The binary exponent part [p[+-]ddd] at the front of [s], 0 if there is
    none. *)
Definition scan_binary_exponent (s : string) : Z :=
  match s with
  | String c r =>
      if (code c =? 112) || (code c =? 80) then
        let '(neg, r, _) := scan_sign r 1 in
        let '(e, count, _) := scan_decimal r 0 0 in
        if count =? 0 then 0 else if neg : bool then - e else e
      else 0
  | EmptyString => 0
  end.

(** A hexadecimal constant, [s] being what is behind its [0x]: digits with
    an optional point, an optional binary exponent. Without a digit the
    number is the [0] of [0x]. *)
Definition atof_hexadecimal (neg : bool) (s : string) : result float :=
  let '(ip, icount, s) := scan_hexadecimal s 0 0 in
  let '(m, fcount, s) :=
    match s with
    | String c r => if code c =? 46 then scan_hexadecimal r ip 0 else (ip, 0, s)
    | EmptyString => (ip, 0, s)
    end in
  if icount + fcount =? 0 then Ok (Float 0 0) else
  let e := scan_binary_exponent s - 4 * fcount in
  let m := if neg : bool then - m else m in
  if 0 <=? e then round_double (m * 2 ^ e) 1 else round_double m (2 ^ (- e)).

(** [atof(s)], a [double]: white space, a sign, then a hexadecimal
    constant or digits with an optional point and an optional exponent; 0
    when no number starts [s]. An infinity or a NaN, which [float] here
    does not have, stops the evaluation. *)
Definition atof (s : string) : result float :=
  let '(neg, s, _) := scan_sign (skip_space s) 1 in
  if has_0x s 2
  then atof_hexadecimal neg (String.substring 2 (String.length s - 2) s)
  else
  _ <- (if (strcasecmp (String.substring 0 3 s) "inf" =? 0)
           || (strcasecmp (String.substring 0 3 s) "nan" =? 0)
        then Fault (NotModelled "atof: infinity or NaN")
        else Ok tt) ;;
  let '(ip, icount, s) := scan_decimal s 0 0 in
  let '(m, fcount, s) :=
    match s with
    | String c r => if code c =? 46 then scan_decimal r ip 0 else (ip, 0, s)
    | EmptyString => (ip, 0, s)
    end in
  if icount + fcount =? 0 then Ok (Float 0 0) else
  let e := scan_exponent s - fcount in
  let m := if neg : bool then - m else m in
  if 0 <=? e then round_double (m * 10 ^ e) 1 else round_double m (10 ^ (- e)).

(** *** [striptrailingzero] *)

(** Modelled from the spec: [M_snprintf] (m_misc.c) is missing; the
    numeric renderer "renders with two decimal digits ... or with zero
    decimals ..." is [snprintf] into the buffer of [size] bytes, which keeps
    at most [size - 1] characters. *)
Fixpoint M_snprintf (size : nat) (s : string) : string :=
  match size, s with
  | S (S n), String c r => String c (M_snprintf (S n) r)
  | _, _ => EmptyString
  end.

(** The contents of [result] after the call of M_snprintf. *)
Definition rendered (value : float) (precision : Z) : string :=
  M_snprintf 100
    (printf_f (if precision =? 2 then 2%nat
               else if Fintegral value then 0%nat else 1%nat) value).

(** The test on the text [r] that is in [result], and the assignment that
    shortens it. *)
Definition strip_zero (r : string) : result string :=
  let len := String.length r in
  if (4 <=? len)%nat then
    c3 <- char_at r (len - 3) ;;
    c1 <- char_at r (len - 1) ;;
    if (c3 =? ch ".") && (c1 =? ch "0")
    then Ok (drop_last r) else Ok r
  else Ok r.

Definition striptrailingzero (value : float) (precision : Z) : result string :=
  strip_zero (rendered value precision).

(** ** The settings registry *)

Inductive default_type_t :=
  | DEFAULT_KEY
  | DEFAULT_INT
  | DEFAULT_INT_HEX
  | DEFAULT_INT_PERCENT
  | DEFAULT_FLOAT
  | DEFAULT_FLOAT_PERCENT
  | DEFAULT_STRING.

(** [default_t], with the fields in the order CONFIG_VARIABLE_GENERIC
    initialises them. [location] points to a variable of the program; here
    it is the variable's name. *)
Record default_t := {
  name : string;
  location : string;
  type : default_type_t;
  untranslated : Z;
  original_translated : Z;
  set : Z
}.

Definition CONFIG_VARIABLE_GENERIC (n v : string) (t : default_type_t) (s : Z)
  : default_t :=
  {| name := n; location := v; type := t;
     untranslated := 0; original_translated := 0; set := s |}.

Definition CONFIG_VARIABLE_KEY n v s := CONFIG_VARIABLE_GENERIC n v DEFAULT_KEY s.
Definition CONFIG_VARIABLE_INT n v s := CONFIG_VARIABLE_GENERIC n v DEFAULT_INT s.
Definition CONFIG_VARIABLE_INT_HEX n v s :=
  CONFIG_VARIABLE_GENERIC n v DEFAULT_INT_HEX s.
Definition CONFIG_VARIABLE_INT_PERCENT n v s :=
  CONFIG_VARIABLE_GENERIC n v DEFAULT_INT_PERCENT s.
Definition CONFIG_VARIABLE_FLOAT n v s :=
  CONFIG_VARIABLE_GENERIC n v DEFAULT_FLOAT s.
Definition CONFIG_VARIABLE_FLOAT_PERCENT n v s :=
  CONFIG_VARIABLE_GENERIC n v DEFAULT_FLOAT_PERCENT s.
Definition CONFIG_VARIABLE_STRING n v s :=
  CONFIG_VARIABLE_GENERIC n v DEFAULT_STRING s.

(** The initial contents of [cvars] (without the entry that exists only
    when WIN32 is not defined). *)
Definition cvars_init : list default_t :=
  [ CONFIG_VARIABLE_INT           "am_grid"              "am_grid"                      1;
    CONFIG_VARIABLE_INT           "am_rotatemode"        "am_rotatemode"                1;
    CONFIG_VARIABLE_INT           "episode"              "selectedepisode"              8;
    CONFIG_VARIABLE_INT           "expansion"            "selectedexpansion"            9;
    CONFIG_VARIABLE_FLOAT_PERCENT "gp_deadzone_left"     "gamepadleftdeadzone_percent"  0;
    CONFIG_VARIABLE_FLOAT_PERCENT "gp_deadzone_right"    "gamepadrightdeadzone_percent" 0;
    CONFIG_VARIABLE_INT           "gp_sensitivity"       "gamepadsensitivity"           0;
    CONFIG_VARIABLE_INT           "gp_swapthumbsticks"   "gamepadlefthanded"            1;
    CONFIG_VARIABLE_INT           "gp_vibrate"           "gamepadvibrate"               1;
    CONFIG_VARIABLE_STRING        "iwadfolder"           "iwadfolder"                   0;
    CONFIG_VARIABLE_FLOAT         "m_acceleration"       "mouse_acceleration"           0;
    CONFIG_VARIABLE_INT           "m_doubleclick_use"    "dclick_use"                   1;
    CONFIG_VARIABLE_INT           "m_novertical"         "novert"                       1;
    CONFIG_VARIABLE_INT           "m_sensitivity"        "mousesensitivity"             0;
    CONFIG_VARIABLE_INT           "m_threshold"          "mouse_threshold"              0;
    CONFIG_VARIABLE_INT           "mapfixes"             "mapfixes"                     1;
    CONFIG_VARIABLE_INT           "messages"             "messages"                     1;
    CONFIG_VARIABLE_STRING        "playername"           "playername"                   0;
    CONFIG_VARIABLE_INT           "pm_alwaysrun"         "alwaysrun"                    1;
    CONFIG_VARIABLE_INT           "pm_centerweapon"      "centerweapon"                 1;
    CONFIG_VARIABLE_INT_PERCENT   "pm_walkbob"           "playerbob"                    0;
    CONFIG_VARIABLE_INT           "runcount"             "runcount"                     0;
    CONFIG_VARIABLE_INT           "r_brightmaps"         "brightmaps"                   1;
    CONFIG_VARIABLE_INT           "r_corpses_mirrored"   "corpses_mirror"               1;
    CONFIG_VARIABLE_INT           "r_corpses_moreblood"  "corpses_moreblood"            1;
    CONFIG_VARIABLE_INT           "r_corpses_nudge"      "corpses_nudge"                1;
    CONFIG_VARIABLE_INT           "r_corpses_slide"      "corpses_slide"                1;
    CONFIG_VARIABLE_INT           "r_corpses_smearblood" "corpses_smearblood"           1;
    CONFIG_VARIABLE_INT           "r_detail"             "graphicdetail"                6;
    CONFIG_VARIABLE_INT           "r_floatbob"           "floatbob"                     1;
    CONFIG_VARIABLE_FLOAT         "r_gamma"              "gammalevel"                  11;
    CONFIG_VARIABLE_INT           "r_homindicator"       "homindicator"                 1;
    CONFIG_VARIABLE_INT           "r_hud"                "hud"                          1;
    CONFIG_VARIABLE_INT           "r_liquid_bob"         "animatedliquid"               1;
    CONFIG_VARIABLE_INT           "r_liquid_clipsprites" "footclip"                     1;
    CONFIG_VARIABLE_INT           "r_liquid_ripple"      "swirlingliquid"               1;
    CONFIG_VARIABLE_INT           "r_lowpixelheight"     "pixelheight"                  0;
    CONFIG_VARIABLE_INT           "r_lowpixelwidth"      "pixelwidth"                   0;
    CONFIG_VARIABLE_INT           "r_maxbloodsplats"     "maxbloodsplats"               7;
    CONFIG_VARIABLE_INT           "r_mirrorweapons"      "mirrorweapons"                1;
    CONFIG_VARIABLE_INT           "r_playersprites"      "playersprites"                1;
    CONFIG_VARIABLE_INT           "r_rockettrails"       "smoketrails"                  1;
    CONFIG_VARIABLE_INT           "r_shadows"            "shadows"                      1;
    CONFIG_VARIABLE_INT           "r_translucency"       "translucency"                 1;
    CONFIG_VARIABLE_INT           "r_viewsize"           "screensize"                   0;
    CONFIG_VARIABLE_INT_PERCENT   "s_musicvolume"        "musicvolume_percent"          0;
    CONFIG_VARIABLE_INT           "s_randompitch"        "randompitch"                  1;
    CONFIG_VARIABLE_INT_PERCENT   "s_sfxvolume"          "sfxvolume_percent"            0;
    CONFIG_VARIABLE_STRING        "s_timiditycfgpath"    "timidity_cfg_path"            0;
    CONFIG_VARIABLE_INT           "savegame"             "selectedsavegame"             0;
    CONFIG_VARIABLE_INT           "skilllevel"           "selectedskilllevel"          10;
    CONFIG_VARIABLE_INT           "spritefixes"          "spritefixes"                  1;
    CONFIG_VARIABLE_INT           "vid_capfps"           "capfps"                       1;
    CONFIG_VARIABLE_INT           "vid_display"          "display"                      0;
    CONFIG_VARIABLE_INT           "vid_fullscreen"       "fullscreen"                   1;
    CONFIG_VARIABLE_STRING        "vid_scaledriver"      "scaledriver"                  0;
    CONFIG_VARIABLE_STRING        "vid_scalefilter"      "scalefilter"                  0;
    CONFIG_VARIABLE_INT           "vid_screenheight"     "screenheight"                 5;
    CONFIG_VARIABLE_INT           "vid_screenwidth"      "screenwidth"                  5;
    CONFIG_VARIABLE_INT           "vid_vsync"            "vsync"                        1;
    CONFIG_VARIABLE_INT           "vid_widescreen"       "widescreen"                   1;
    CONFIG_VARIABLE_STRING        "vid_windowposition"   "windowposition"               0;
    CONFIG_VARIABLE_INT           "vid_windowheight"     "windowheight"                 0;
    CONFIG_VARIABLE_INT           "vid_windowwidth"      "windowwidth"                  0 ].

(** The variables of the program, by name, and what each one holds. *)
Inductive val :=
  | VInt (z : Z)
  | VFloat (x : float)
  | VString (s : string).

(** The state the file works on: the registry and the variables. *)
Record config := {
  cvars : list default_t;
  vars : gmap string val
}.

(** Reads through [location] as a pointer to [int], to [float] and to
    [char] pointer: a variable read at another type than its own is outside
    the model. *)
Definition read_int (m : gmap string val) (loc : string) : result Z :=
  match m !! loc with
  | Some (VInt z) => Ok z
  | _ => Fault (Undefined "read of a variable that is not an int")
  end.

Definition read_float (m : gmap string val) (loc : string) : result float :=
  match m !! loc with
  | Some (VFloat x) => Ok x
  | _ => Fault (Undefined "read of a variable that is not a float")
  end.

Definition read_string (m : gmap string val) (loc : string) : result string :=
  match m !! loc with
  | Some (VString s) => Ok s
  | _ => Fault (Undefined "read of a variable that is not a string")
  end.

Definition write_var (loc : string) (v : val) (c : config) : config :=
  {| cvars := cvars c; vars := <[loc := v]> (vars c) |}.

(** ** The bindings of c_cmds.h *)

(** c_cmds.h is not among the sources: [controls] and [actions] are
    parameters, with the fields SaveBind and SaveDefaultCollection read.
    A control of type [None] is the entry that ends [controls], an action
    with an empty name the one that ends [actions]. *)
Inductive controltype_t := keyboard | mouse | gamepad.

Record control_t := {
  c_control : string;
  c_type : option controltype_t;
  c_value : Z
}.

Record action_t := {
  a_action : string;
  a_keyboard : option string;
  a_mouse : option string;
  a_gamepad : option string
}.

Definition controltype_eqb (a b : controltype_t) : bool :=
  match a, b with
  | keyboard, keyboard | mouse, mouse | gamepad, gamepad => true
  | _, _ => false
  end.

Fixpoint SaveBind (controls : list control_t) (i : Z) (action : string)
    (value : Z) (type : controltype_t) : result string :=
  match controls with
  | [] => Fault (OutOfBounds "controls" i)
  | c :: rest =>
      match c_type c with
      | None => Ok ""
      | Some t =>
          if controltype_eqb t type && (c_value c =? value) then
            let control := c_control c in
            if strlen control =? 1
            then Ok ("bind '" +:+ (if ch control =? ch "=" then "+" else control)
                     +:+ "' " +:+ action +:+ String (chr 10) "")
            else Ok ("bind " +:+ control +:+ " " +:+ action +:+ String (chr 10) "")
          else SaveBind rest (i + 1) action value type
      end
  end.

(** ** Writing values: the [switch] of SaveDefaultCollection *)

Section Config.

Context (K : doomkeys) (controls : list control_t) (actions : list action_t).

(** The alias of [v] in [set], as the loops of SaveDefaultCollection find
    it: the text of the first entry with this value and set. *)
Definition alias_of_int (v set : Z) : result (option string) :=
  a <- alias_loop (λ a, (v =? value a) && (set =? aset a)) aliases 0 ;;
  Ok (text <$> a).

(** The same for a [float] [v]: [v == aliases[j].value] converts the value
    of the entry to [float]. *)
Definition alias_of_float (v : float) (set : Z) : result (option string) :=
  a <- alias_loop (λ a, match float_of_int (value a) with
                       | Ok x => Feqb v x
                       | Fault _ => false
                       end && (set =? aset a)) aliases 0 ;;
  Ok (text <$> a).

(** The first scancode that [scantokey] translates to [k]. *)
Fixpoint find_scancode (table : list Z) (s : Z) (k : Z) : option Z :=
  match table with
  | [] => None
  | x :: rest => if x =? k then Some s else find_scancode rest (s + 1) k
  end.

(** What both branches of the DEFAULT_KEY case print for the scancode [v]:
    its alias, else its character between single quotes if [scantokey]
    translates it to a printable one, else the number. *)
Definition print_scancode (v set : Z) : result string :=
  a <- alias_of_int v set ;;
  match a with
  | Some t => Ok t
  | None =>
      k <- scantokey_at K v ;;
      if isprint k then Ok ("'" +:+ printf_c k +:+ "'") else Ok (printf_i v)
  end.

(** Which branch of the DEFAULT_KEY case ran. *)
Inductive key_branch :=
  | UseUntranslated
  | ReverseSearch.

Definition SaveKey (d : default_t) (v : Z) : result (key_branch * string) :=
  if negb (untranslated d =? 0) && (v =? original_translated d) then
    t <- print_scancode (untranslated d) (set d) ;;
    Ok (UseUntranslated, t)
  else
    match find_scancode (scantokey K) 0 v with
    | Some s => t <- print_scancode s (set d) ;; Ok (ReverseSearch, t)
    | None => Ok (ReverseSearch, "")
    end.

(** The text SaveDefaultCollection prints for the value of [d]. *)
Definition SaveValue (m : gmap string val) (d : default_t) : result string :=
  match type d with
  | DEFAULT_KEY =>
      v <- read_int m (location d) ;;
      r <- SaveKey d v ;;
      Ok (snd r)
  | DEFAULT_INT =>
      v <- read_int m (location d) ;;
      a <- alias_of_int v (set d) ;;
      Ok (default (printf_i v) a)
  | DEFAULT_INT_HEX =>
      v <- read_int m (location d) ;;
      Ok ("0x" +:+ printf_x v)
  | DEFAULT_INT_PERCENT =>
      v <- read_int m (location d) ;;
      a <- alias_of_int v (set d) ;;
      Ok (default (printf_i v +:+ "%") a)
  | DEFAULT_FLOAT =>
      v <- read_float m (location d) ;;
      a <- alias_of_float v (set d) ;;
      match a with
      | Some t => Ok t
      | None => striptrailingzero v 2
      end
  | DEFAULT_FLOAT_PERCENT =>
      v <- read_float m (location d) ;;
      a <- alias_of_float v (set d) ;;
      match a with
      | Some t => Ok t
      | None => t <- striptrailingzero v 1 ;; Ok (t +:+ "%")
      end
  | DEFAULT_STRING =>
      s <- read_string m (location d) ;;
      Ok (dq +:+ s +:+ dq)
  end.

Definition newline : string := String (chr 10) "".

(** The lines of the settings: name, space, value, newline. *)
Fixpoint SaveCvars (m : gmap string val) (l : list default_t) : result string :=
  match l with
  | [] => Ok ""
  | d :: rest =>
      t <- SaveValue m d ;;
      r <- SaveCvars m rest ;;
      Ok (name d +:+ " " +:+ t +:+ newline +:+ r)
  end.

(** The bind lines: the loop over [actions]. *)
Definition SaveAction (m : gmap string val) (a : action_t) : result string :=
  let bind (p : option string) (type : controltype_t) : result string :=
    match p with
    | None => Ok ""
    | Some loc => v <- read_int m loc ;; SaveBind controls 0 (a_action a) v type
    end in
  k <- bind (a_keyboard a) keyboard ;;
  b <- bind (a_mouse a) mouse ;;
  g <- bind (a_gamepad a) gamepad ;;
  Ok (k +:+ b +:+ g).

Fixpoint SaveActions (m : gmap string val) (l : list action_t) (i : Z)
  : result string :=
  match l with
  | [] => Fault (OutOfBounds "actions" i)
  | a :: rest =>
      match a_action a with
      | EmptyString => Ok ""
      | _ => t <- SaveAction m a ;; r <- SaveActions m rest (i + 1) ;; Ok (t +:+ r)
      end
  end.

(** The file system as SaveDefaultCollection and LoadDefaultCollection see
    it: the contents of PACKAGE_CONFIG, if the file exists, and whether
    [fopen(PACKAGE_CONFIG, "w")] succeeds. *)
Record filesystem := {
  config_file : option string;
  can_write : bool
}.

Definition SaveDefaultCollection (c : config) (fs : filesystem)
  : result (config * filesystem) :=
  if can_write fs then
    t <- SaveCvars (vars c) (cvars c) ;;
    b <- SaveActions (vars c) actions 0 ;;
    Ok (c, {| config_file := Some (t +:+ newline +:+ b); can_write := true |})
  else Ok (c, fs).

(** [dboolean] *)
Definition false_ : Z := 0.
Definition true_ : Z := 1.

Definition M_SaveDefaults (c : config) (fs : filesystem)
  : result (config * filesystem) :=
  returntowidescreen <- read_int (vars c) "returntowidescreen" ;;
  let c := if returntowidescreen =? 0 then c
           else write_var "widescreen" (VInt true_) c in
  p <- SaveDefaultCollection c fs ;;
  let '(c, fs) := p in
  let c := if returntowidescreen =? 0 then c
           else write_var "widescreen" (VInt false_) c in
  Ok (c, fs).

(** ** Reading values *)

(** The alias loop of the two parsers: the value of the first entry whose
    text is [strparm] up to case, in [set]. *)
Definition alias_of_text (strparm : string) (set : Z) : result (option Z) :=
  a <- alias_loop (λ a, (strcasecmp strparm (text a) =? 0) && (set =? aset a))
         aliases 0 ;;
  Ok (value <$> a).

(** [parm0] is what the uninitialised [parm] happens to hold: a [sscanf]
    that converts nothing leaves it there. *)
Definition ParseIntParameter (parm0 : Z) (strparm : string) (set : Z)
  : result Z :=
  a <- alias_of_text strparm set ;;
  match a with
  | Some v => Ok v
  | None =>
      let numeric : result Z :=
        c0 <- char_at strparm 0 ;;
        is_hex <- (if c0 =? ch "0"
                   then c1 <- char_at strparm 1 ;; Ok (c1 =? ch "x")
                   else Ok false) ;;
        r <- (if is_hex : bool
              then sscanf_10x (String.substring 2 (String.length strparm - 2) strparm)
              else sscanf_10i strparm) ;;
        match r with
        | Matched parm => Ok parm
        | NoMatch => Ok parm0
        end in
      c0 <- char_at strparm 0 ;;
      quoted <- (if c0 =? ch "'"
                 then c2 <- char_at strparm 2 ;; Ok (c2 =? ch "'")
                 else Ok false) ;;
      if quoted : bool then
        c1 <- char_at strparm 1 ;;
        match find_scancode (scantokey K) 0 (tolower c1) with
        | Some i => Ok i
        | None => numeric
        end
      else numeric
  end.

Definition ParseFloatParameter (strparm : string) (set : Z) : result float :=
  a <- alias_of_text strparm set ;;
  match a with
  | Some v => float_of_int v
  | None => x <- atof strparm ;; float_of_double x
  end.

(** The loop that strips trailing non-printable characters. *)
Fixpoint strip_nonprintable (strparm : string) : string :=
  match strparm with
  | EmptyString => EmptyString
  | String c r =>
      match strip_nonprintable r with
      | EmptyString => if isprint (code c) then String c EmptyString else EmptyString
      | r' => String c r'
      end
  end.

(** [s = strdup(strparm)], then the last character of [s] is cut off if it
    is a percent sign. *)
Definition strip_percent (strparm : string) : result string :=
  match last_char strparm with
  | None => Fault (OutOfBounds "s" (strlen strparm - 1))
  | Some c => if code c =? ch "%" then Ok (drop_last strparm) else Ok strparm
  end.

(** [s = strdup(strparm + 1)], then the last character of [s] is cut off. *)
Definition strip_quotes (strparm : string) : result string :=
  match strparm with
  | EmptyString => Fault (OutOfBounds "strparm" 1)
  | String _ s =>
      match s with
      | EmptyString => Fault (OutOfBounds "s" (strlen s - 1))
      | _ => Ok (drop_last s)
      end
  end.

Definition write_cvar (i : nat) (d : default_t) (c : config) : config :=
  {| cvars := <[i := d]> (cvars c); vars := vars c |}.

(** The [switch] of LoadDefaultCollection, for the setting [d = cvars[i]]. *)
Definition LoadValue (parm0 : Z) (strparm : string) (i : nat) (d : default_t)
    (c : config) : result config :=
  match type d with
  | DEFAULT_STRING =>
      s <- strip_quotes strparm ;;
      Ok (write_var (location d) (VString s) c)
  | DEFAULT_INT | DEFAULT_INT_HEX =>
      v <- ParseIntParameter parm0 strparm (set d) ;;
      Ok (write_var (location d) (VInt v) c)
  | DEFAULT_INT_PERCENT =>
      s <- strip_percent strparm ;;
      v <- ParseIntParameter parm0 s (set d) ;;
      Ok (write_var (location d) (VInt v) c)
  | DEFAULT_KEY =>
      intparm <- ParseIntParameter parm0 strparm (set d) ;;
      let raw := intparm in
      intparm <- (if (0 <=? intparm) && (intparm <? 128)
                  then scantokey_at K intparm else Ok INVALIDKEY) ;;
      let d' := {| name := name d; location := location d; type := type d;
                   untranslated := raw; original_translated := intparm;
                   set := set d |} in
      Ok (write_var (location d) (VInt intparm) (write_cvar i d' c))
  | DEFAULT_FLOAT =>
      x <- ParseFloatParameter strparm (set d) ;;
      Ok (write_var (location d) (VFloat x) c)
  | DEFAULT_FLOAT_PERCENT =>
      _ <- strip_percent strparm ;;
      x <- ParseFloatParameter strparm (set d) ;;
      Ok (write_var (location d) (VFloat x) c)
  end.

(** The search for the setting called [defname]. *)
Fixpoint find_cvar (defname : string) (l : list default_t) (i : nat)
  : option (nat * default_t) :=
  match l with
  | [] => None
  | d :: rest =>
      if strcmp defname (name d) =? 0 then Some (i, d)
      else find_cvar defname rest (S i)
  end.

(** The body of the loop of LoadDefaultCollection for a line that
    [fscanf] has split into [defname] and [strparm]. *)
Definition LoadLine (parm0 : Z) (defname strparm : string) (c : config)
  : result config :=
  let strparm := strip_nonprintable strparm in
  match find_cvar defname (cvars c) 0 with
  | Some (i, d) => LoadValue parm0 strparm i d c
  | None => Ok c
  end.

(** [fscanf(f, "%31s %255[^\n]\n", defname, strparm)] on the rest of the
    file: white space, at most 31 characters that are not white space,
    white space, at most 255 characters other than the newline, white
    space. The result is the value of [fscanf] (-1 is EOF), the two
    texts and what is left of the file. *)
Fixpoint scan_while (p : Z -> bool) (width : nat) (s : string) : string * string :=
  match width, s with
  | S w, String c r =>
      if p (code c)
      then let '(a, b) := scan_while p w r in (String c a, b)
      else (EmptyString, s)
  | _, _ => (EmptyString, s)
  end.

Definition fscanf_cvar (input : string) : Z * string * string * string :=
  let '(defname, s) := scan_while (λ c, negb (isspace c)) 31 (skip_space input) in
  match defname with
  | EmptyString => (-1, defname, EmptyString, s)
  | _ =>
      let '(strparm, s) := scan_while (λ c, negb (c =? 10)) 255 (skip_space s) in
      match strparm with
      | EmptyString => (1, defname, strparm, s)
      | _ => (2, defname, strparm, skip_space s)
      end
  end.

(** The literal [bind] that starts the format of the [fscanf] for a bind
    line: the characters of the input that match it are consumed; the
    result tells whether all of it was there. *)
Fixpoint match_literal (lit input : string) : bool * string :=
  match lit, input with
  | EmptyString, _ => (true, input)
  | String a lit', String b input' =>
      if code a =? code b then match_literal lit' input' else (false, input)
  | String _ _, EmptyString => (false, input)
  end.

(** [fscanf(f, "bind %31s %31[^\n]\n", control, action)] on the rest of
    the file: the literal, white space, at most 31 characters that are not
    white space, white space, at most 31 characters other than the
    newline, white space. The result is the value of [fscanf] (-1 is EOF),
    the two texts and what is left of the file; what the call has read
    before it fails stays read. *)
Definition fscanf_bind (input : string) : Z * string * string * string :=
  match match_literal "bind" input with
  | (false, EmptyString) => (-1, EmptyString, EmptyString, EmptyString)
  | (false, s) => (0, EmptyString, EmptyString, s)
  | (true, s) =>
      let '(control, s) := scan_while (λ c, negb (isspace c)) 31 (skip_space s) in
      match control with
      | EmptyString => (-1, control, EmptyString, s)
      | _ =>
          let '(action, s) := scan_while (λ c, negb (c =? 10)) 31 (skip_space s) in
          match action with
          | EmptyString => (1, control, action, s)
          | _ => (2, control, action, skip_space s)
          end
      end
  end.

(** One turn of the loop of LoadDefaultCollection. The [fscanf] for a bind
    line comes first; if it finds two texts the turn calls C_StripQuotes
    on both and C_Bind, which are not in this file and are arguments
    here. Otherwise the [fscanf] for a setting reads what the first one
    has left and, if it finds two texts, the body of the loop runs. *)
Definition LoadTurn (C_StripQuotes : string -> string)
    (C_Bind : string -> string -> string -> config -> result config)
    (parm0 : Z) (input : string) (c : config) : result (config * string) :=
  match fscanf_bind input with
  | (2, control, action, rest) =>
      c' <- C_Bind "" (C_StripQuotes control) (C_StripQuotes action) c ;;
      Ok (c', rest)
  | (_, _, _, input) =>
      match fscanf_cvar input with
      | (2, defname, strparm, rest) =>
          c' <- LoadLine parm0 defname strparm c ;; Ok (c', rest)
      | (_, _, _, rest) => Ok (c, rest)
      end
  end.

(** The turn of the loop without the code of the bindings: at a bind
    line, where the turn steps into C_Bind, the evaluation stops. *)
Definition LoadRecord (parm0 : Z) (input : string) (c : config)
  : result (config * string) :=
  LoadTurn (λ s, s) (λ _ _ _ _, Fault (NotModelled "a bind line")) parm0 input c.

End Config.

(** ** The volumes in M_CheckDefaults *)

(** [int] arithmetic: a result outside the range of [int] is undefined. *)
Definition int_op (op : Z -> Z -> Z) (a b : Z) : result Z :=
  let r := op a b in
  if (INT_MIN <=? r) && (r <=? INT_MAX) then Ok r
  else Fault (Undefined "signed integer overflow").

Section Sanitizer.

(** The bounds of m_config.h, which is not among the sources. *)
Context (MUSICVOLUME_MIN MUSICVOLUME_MAX SFXVOLUME_MIN SFXVOLUME_MAX : Z).

(** Modelled from the spec: the macro BETWEEN is missing; "for every
    ranged numeric setting, clamp into its documented [min, max]". *)
Definition BETWEEN (a b c : Z) : Z :=
  if b <? a then a else if c <? b then c else b.

(** [(BETWEEN(min, percent, max) * 15 + 50) / 100] *)
Definition rescale (min percent max : Z) : result Z :=
  t <- int_op Z.mul (BETWEEN min percent max) 15 ;;
  t <- int_op Z.add t 50 ;;
  int_op Z.quot t 100.

(** The two statements of M_CheckDefaults that derive [musicVolume] and
    [sfxVolume] from the percentages. No other statement of the function
    reads or writes these four variables. *)
Definition M_CheckDefaults_volumes (m : gmap string val)
  : result (gmap string val) :=
  p <- read_int m "musicvolume_percent" ;;
  v <- rescale MUSICVOLUME_MIN p MUSICVOLUME_MAX ;;
  let m := <["musicVolume" := VInt v]> m in
  p <- read_int m "sfxvolume_percent" ;;
  v <- rescale SFXVOLUME_MIN p SFXVOLUME_MAX ;;
  Ok (<["sfxVolume" := VInt v]> m).

End Sanitizer.

(** ** Examples *)

(** The key codes of doomkeys.h as Chocolate Doom has them, of which
    DOOM RETRO is a fork, to run the definitions on examples. *)
Definition sample_keys : doomkeys :=
  {| KEY_BACKSPACE := 127; KEY_RCTRL := 157;     KEY_TILDE := 96;
     KEY_RSHIFT := 182;    KEYP_MULTIPLY := 42;  KEY_RALT := 184;
     KEY_CAPSLOCK := 186;  KEY_PAUSE := 255;     KEY_SCRLCK := 198;
     KEY_HOME := 199;      KEY_UPARROW := 173;   KEY_PGUP := 201;
     KEY_MINUS := 45;      KEY_LEFTARROW := 172; KEYP_5 := 53;
     KEY_RIGHTARROW := 174; KEYP_PLUS := 43;     KEY_END := 207;
     KEY_DOWNARROW := 175; KEY_PGDN := 209;      KEY_INS := 210;
     KEY_DEL := 211 |}.

(** * Vocabulary of the properties *)

(** All characters of a string pass a test. *)
Fixpoint string_forall (p : Z -> bool) (s : string) : bool :=
  match s with
  | EmptyString => true
  | String c r => p (code c) && string_forall p r
  end.

(** The characters that ["%x"] writes. *)
Definition is_digit_or_af (c : Z) : bool :=
  isdigit c || ((97 <=? c) && (c <=? 102)).

(** A key setting with [untranslated] and [original_translated] as given,
    in the alias set of the keys. *)
Definition sample_key (u o : Z) : default_t :=
  {| name := "key_fire"; location := "key_fire"; type := DEFAULT_KEY;
     untranslated := u; original_translated := o; set := 3 |}.

(** The key code LoadDefaultCollection derives from a raw value. *)
Definition translate (K : doomkeys) (raw : Z) : Z :=
  if (0 <=? raw) && (raw <? 128)
  then default INVALIDKEY (scantokey K !! Z.to_nat raw)
  else INVALIDKEY.

(** A file system on which [fopen(PACKAGE_CONFIG, "w")] fails. *)
Definition read_only : filesystem := {| config_file := None; can_write := false |}.

(** The lower-cased characters of a C string, up to its end. *)
Fixpoint folded (s : string) : list Z :=
  match s with
  | EmptyString => []
  | String c r => if code c =? 0 then [] else tolower (code c) :: folded r
  end.

(** Two facts about the table of the file, by inspection: only the last
    entry has an empty text, and within a set two texts that are equal up
    to case have the same value. *)
Definition aliases_end_marker_last : bool :=
  forallb (λ a, negb (String.eqb (text a) "")) (take 87 aliases)
  && (length aliases =? 88)%nat.

Definition aliases_texts_agree : bool :=
  forallb (λ b, forallb (λ c,
    implb ((aset b =? aset c) && (strcasecmp (text b) (text c) =? 0))
          (value b =? value c)) aliases) aliases.

(** The characters that lower-casing leaves alone, the NUL apart. *)
Definition not_upper_nor_nul (c : Z) : bool :=
  negb ((c =? 0) || ((65 <=? c) && (c <=? 90))).

(** The characters of a number in decimal. *)
Definition numeric (c : Z) : bool := isdigit c || (c =? 45).

(** Three more facts about the table, by inspection: a text that up to
    case consists of digits and minus signs has no capital letter or NUL
    and, if ["%10i"] reads it as a number, stands for that number; no text
    starts with [0x]; and every text ends with a printable character other
    than the percent sign. *)
Definition aliases_numerals_agree : bool :=
  forallb (λ b,
    implb (forallb numeric (folded (text b)))
      (string_forall not_upper_nor_nul (text b) &&
       match sscanf_10i (text b) with
       | Ok (Matched z) => z =? value b
       | Ok NoMatch => true
       | Fault _ => true
       end)) aliases.

Definition aliases_no_0x : bool :=
  forallb (λ b,
    match folded (text b) with
    | 48 :: 120 :: _ => false
    | _ => true
    end) aliases.

Definition aliases_last_char_ok : bool :=
  forallb (λ b,
    match last_char (text b) with
    | Some c => negb (code c =? 37) && isprint (code c)
    | None => true
    end) aliases.

(** The [float]s: 24 bits of precision, exponents from -149 to 104. *)
Definition is_binary32 (x : float) : Prop :=
  Z.abs (Fnum x) < 2 ^ 24 /\ -149 <= Fexp x <= 104.

(** [x] has at most [p] decimals: [x * 10 ^ p] is an integer. *)
Definition decimals_exact (p : Z) (x : float) : Prop :=
  (fst (Ffrac x) * 10 ^ p) mod snd (Ffrac x) = 0.

(** [|x| * 10 ^ p] rounded to the nearest integer, ties to even: the
    number whose digits ["%.*f"] writes at precision [p]. *)
Definition rounded_decimal (p : nat) (x : float) : Z :=
  round_half_even (Z.abs (fst (Ffrac x)) * 10 ^ Z.of_nat p) (snd (Ffrac x)).

(** The [float]s that LoadDefaultCollection reads from a decimal text with
    [p] decimals and at most 22 bits: [k / 10 ^ p] rounded to [double] by
    [atof] and then to [float]. *)
Definition nearest_decimal (p : nat) (x : float) : Prop :=
  exists k, Z.abs k < 2 ^ 22 /\
    (r <- round_double k (10 ^ Z.of_nat p) ;; float_of_double r) = Ok x.

(** A sign, the digits [li] before the point, the digits [lf] behind it
    (no point if there are none), and what follows the number. *)
Definition decimal_text (neg : bool) (li lf : list Z) (tail : string) : string :=
  (if neg then "-" else "") +:+
  (string_of_chars (map digit_char li) +:+
   ((match lf with
     | [] => ""
     | _ => "." +:+ string_of_chars (map digit_char lf)
     end) +:+ tail)).

(** A digit of a decimal text, as a number. *)
Definition decimal_digit (d : Z) : Prop := 0 <= d < 10.

(** The characters of a decimal text. *)
Definition float_char (c : Z) : bool :=
  isdigit c || (c =? 45) || (c =? 46) || (c =? 37).

(** The codes of the characters of a string. *)
Fixpoint string_codes (s : string) : list Z :=
  match s with
  | EmptyString => []
  | String c r => code c :: string_codes r
  end.

Definition point_or_percent (c : Z) : bool := (c =? 46) || (c =? 37).

(** One more fact about the table, by inspection: no text consists, up to
    case, of the characters of decimal texts only and has a point or a
    percent sign. *)
Definition aliases_no_decimal_text : bool :=
  forallb (λ b,
    negb (forallb float_char (folded (text b)) &&
          existsb point_or_percent (folded (text b)))) aliases.

(** A name that ["%31s"] reads whole. *)
Definition one_word (n : string) : bool :=
  negb (String.eqb n "") && string_forall (λ c, negb (isspace c)) n
  && (String.length n <=? 31)%nat.

(** A name of which, in addition, the [fscanf] for a bind line takes
    nothing: it does not start with [b]. *)
Definition name_ok (n : string) : bool :=
  one_word n && negb (ch n =? ch "b").

(** A value text that ["%255[^\n]"] reads whole and from which the loop
    that strips non-printable characters takes nothing. *)
Definition line_text (t : string) : bool :=
  match t with
  | String c _ => negb (isspace (code c))
  | EmptyString => false
  end
  && string_forall (λ c, negb (c =? 10)) t
  && (String.length t <=? 255)%nat
  && match last_char t with
     | Some c => isprint (code c)
     | None => false
     end.

(** Texts of visible characters are such value texts. *)
Definition graphic (c : Z) : bool := (33 <=? c) && (c <=? 126).

(** One last fact about the table, by inspection: every text is a value
    text that [fscanf] reads whole. *)
Definition aliases_line_text : bool :=
  forallb (λ b, String.eqb (text b) "" || line_text (text b)) aliases.

(** The values that the file format keeps: an [int] whose text has at most
    ten characters, any [int] in hexadecimal, a [float] that has at most
    two decimals (one for a percentage) or is what is read from a text
    with that many decimals and at most 22 bits, a string without newline
    of at most 253 characters. *)
Definition kept_value (ty : default_type_t) (v : val) : Prop :=
  match ty, v with
  | DEFAULT_INT, VInt z | DEFAULT_INT_PERCENT, VInt z => - 10 ^ 9 < z <= INT_MAX
  | DEFAULT_INT_HEX, VInt z => is_int z
  | DEFAULT_FLOAT, VFloat x =>
      (is_binary32 x /\ decimals_exact 2 x) \/ nearest_decimal 2 x
  | DEFAULT_FLOAT_PERCENT, VFloat x =>
      (is_binary32 x /\ decimals_exact 1 x) \/ nearest_decimal 1 x
  | DEFAULT_STRING, VString s =>
      string_forall (λ c, negb (c =? 10)) s = true /\
      (String.length s <= 253)%nat
  | _, _ => False
  end.

(** Equal values: [==] for [float]s. *)
Definition same_val (v w : val) : Prop :=
  match v, w with
  | VFloat x, VFloat y => Feqb x y = true
  | _, _ => v = w
  end.

(** A registry with one value. *)
Definition one_setting (loc : string) (v : val) : config :=
  {| cvars := cvars_init; vars := {[ loc := v ]} |}.



(** The text of a printable character between single quotes. *)
Definition quoted (k : Z) : string := "'" +:+ printf_c k +:+ "'".

(** One more fact about the table, by inspection: the only text that is a
    character between single quotes is that of the plus sign, in set 3. *)
Definition aliases_quoted_plus : bool :=
  forallb (λ b,
    match folded (text b) with
    | [a; x; c] => implb ((a =? 39) && (c =? 39)) ((x =? 43) && (aset b =? 3))
    | _ => true
    end) aliases.

(** A key setting as LoadDefaultCollection leaves it after reading the
    scancode [raw] from the file. *)
Definition loaded_key (K : doomkeys) (n l : string) (st raw : Z) : default_t :=
  {| name := n; location := l; type := DEFAULT_KEY; untranslated := raw;
     original_translated := translate K raw; set := st |}.


(** A registry with one key setting, as loaded with the scancode [raw]. *)
Definition key_config (K : doomkeys) (st raw : Z) : config :=
  {| cvars := [loaded_key K "key_fire" "key_fire" st raw];
     vars := {[ "key_fire" := VInt (translate K raw) ]} |}.


(** Two characters that are equal or are the capital and the small form
    of one letter, and two texts that are equal up to the case of their
    letters, said without the functions of <ctype.h>. *)
Definition same_letter (a b : Z) : bool :=
  (a =? b)
  || ((65 <=? a) && (a <=? 90) && (b =? a + 32))
  || ((65 <=? b) && (b <=? 90) && (a =? b + 32)).

Fixpoint case_variant (s t : string) : bool :=
  match s, t with
  | EmptyString, EmptyString => true
  | String a s, String b t => same_letter (code a) (code b) && case_variant s t
  | _, _ => false
  end.

(** * More of m_config.c *)

(** ** The loop of LoadDefaultCollection *)



(** ** More of M_CheckDefaults *)

(** [a % b] on [int]s: undefined for [b == 0] and where the quotient does
    not fit. *)
Definition int_rem (a b : Z) : result Z :=
  if b =? 0 then Fault (Undefined "remainder by zero")
  else if (a =? INT_MIN) && (b =? -1)
  then Fault (Undefined "signed integer overflow")
  else Ok (Z.rem a b).

(** [while (size % pixel) --pixel;], for the pixel width and the pixel
    height. [fuel] bounds the turns: [None] when it is used up. *)
Fixpoint shrink_to_divisor (fuel : nat) (size pixel : Z) : result (option Z) :=
  match fuel with
  | O => Ok None
  | S fuel =>
      r <- int_rem size pixel ;;
      if r =? 0 then Ok (Some pixel)
      else
        pixel <- int_op Z.sub pixel 1 ;;
        shrink_to_divisor fuel size pixel
  end.

(** [pixelwidth = BETWEEN(PIXELWIDTH_MIN, pixelwidth, PIXELWIDTH_MAX);
    while (SCREENWIDTH % pixelwidth) --pixelwidth;] and the same for the
    height. SCREENWIDTH and the bounds are not among the sources. *)
Definition M_CheckDefaults_pixel (SCREEN PIXEL_MIN PIXEL_MAX : Z) (fuel : nat)
    (pixel : Z) : result (option Z) :=
  shrink_to_divisor fuel SCREEN (BETWEEN PIXEL_MIN pixel PIXEL_MAX).

(** [if (widescreen != false && widescreen != true) widescreen =
    WIDESCREEN_DEFAULT; if (widescreen || screensize == SCREENSIZE_MAX)
    { returntowidescreen = true; widescreen = false; } else hud = true;].
    The two constants are not among the sources. *)
Definition M_CheckDefaults_widescreen (WIDESCREEN_DEFAULT SCREENSIZE_MAX : Z)
    (m : gmap string val) : result (gmap string val) :=
  w <- read_int m "widescreen" ;;
  let m := if negb (w =? false_) && negb (w =? true_)
           then <["widescreen" := VInt WIDESCREEN_DEFAULT]> m else m in
  w <- read_int m "widescreen" ;;
  s <- read_int m "screensize" ;;
  if negb (w =? 0) || (s =? SCREENSIZE_MAX)
  then Ok (<["widescreen" := VInt false_]>
             (<["returntowidescreen" := VInt true_]> m))
  else Ok (<["hud" := VInt true_]> m).

(** [if (windowwidth < ORIGINALWIDTH || windowheight < ORIGINALWIDTH * 3 / 4)
    windowheight = WINDOWHEIGHT_DEFAULT; windowwidth = windowheight * 4 / 3;].
    The two constants are not among the sources. *)
Definition M_CheckDefaults_window (ORIGINALWIDTH WINDOWHEIGHT_DEFAULT : Z)
    (m : gmap string val) : result (gmap string val) :=
  w <- read_int m "windowwidth" ;;
  h <- read_int m "windowheight" ;;
  small <- (if w <? ORIGINALWIDTH then Ok true
            else
              t <- int_op Z.mul ORIGINALWIDTH 3 ;;
              t <- int_op Z.quot t 4 ;;
              Ok (h <? t)) ;;
  let m := if small : bool then <["windowheight" := VInt WINDOWHEIGHT_DEFAULT]> m
           else m in
  h <- read_int m "windowheight" ;;
  t <- int_op Z.mul h 4 ;;
  t <- int_op Z.quot t 3 ;;
  Ok (<["windowwidth" := VInt t]> m).

(** [x < y] *)
Definition Fltb (x y : float) : bool :=
  let '(n1, d1) := Ffrac x in
  let '(n2, d2) := Ffrac y in
  n1 * d2 <? n2 * d1.

(** The macro BETWEENF is missing as BETWEEN is, and is modelled like it. *)
Definition BETWEENF (a b c : float) : float :=
  if Fltb b a then a else if Fltb c b then c else b.

Section Gamma.

(** The table of gamma levels and its size are defined in files that are
    not among the sources, and so are the three constants. *)
Context (gammalevels : list float) (GAMMALEVELS : Z).
Context (GAMMALEVEL_MIN GAMMALEVEL_MAX GAMMALEVEL_DEFAULT : float).

Definition gammalevels_at (i : Z) : result float :=
  if i <? 0 then Fault (OutOfBounds "gammalevels" i)
  else
    match gammalevels !! Z.to_nat i with
    | Some v => Ok v
    | None => Fault (OutOfBounds "gammalevels" i)
    end.

(** [while (gammaindex < GAMMALEVELS) if (gammalevels[gammaindex++] ==
    gammalevel) break;] with [n] the number of turns until the condition
    of the loop fails. *)
Fixpoint find_gammalevel (n : nat) (gammaindex : Z) (gammalevel : float) : result Z :=
  match n with
  | O => Ok gammaindex
  | S n =>
      v <- gammalevels_at gammaindex ;;
      if Feqb v gammalevel then Ok (gammaindex + 1)
      else find_gammalevel n (gammaindex + 1) gammalevel
  end.

(** [while (gammalevels[gammaindex++] != GAMMALEVEL_DEFAULT);]: the loop has
    no bound of its own and ends at the default or by reading past the
    table, which it does within [n] turns for [n] above the length of the
    table. *)
Fixpoint find_default_gammalevel (n : nat) (gammaindex : Z) : result Z :=
  match n with
  | O => Fault (OutOfBounds "gammalevels" gammaindex)
  | S n =>
      v <- gammalevels_at gammaindex ;;
      if negb (Feqb v GAMMALEVEL_DEFAULT) then find_default_gammalevel n (gammaindex + 1)
      else Ok (gammaindex + 1)
  end.

(** The statements of M_CheckDefaults on [gammalevel] and [gammaindex]:
    the new values of the two. *)
Definition M_CheckDefaults_gamma (gammalevel : float) : result (float * Z) :=
  let gammalevel := BETWEENF GAMMALEVEL_MIN gammalevel GAMMALEVEL_MAX in
  gammaindex <- find_gammalevel (Z.to_nat GAMMALEVELS) 0 gammalevel ;;
  gammaindex <- (if gammaindex =? GAMMALEVELS
                 then find_default_gammalevel (S (length gammalevels)) 0
                 else Ok gammaindex) ;;
  Ok (gammalevel, gammaindex - 1).

End Gamma.

(** * i_music.c *)

(** The module as it is built for Windows ([_WIN32] defined). SDL,
    SDL_mixer, the MIDI RPC client and the C library are outside the
    program: a function of the module returns the new values of the
    module's variables and the calls it made to them, in order; what such a
    call returns is an argument of the model. Arguments of a call that are
    constants of the program are not recorded. *)
Inductive musictype_t :=
  | MUSTYPE_NONE | MUSTYPE_MUS | MUSTYPE_MIDI | MUSTYPE_OGG
  | MUSTYPE_MP3 | MUSTYPE_WAV | MUSTYPE_FLAC | MUSTYPE_MOD.

Definition musictype_eqb (a b : musictype_t) : bool :=
  match a, b with
  | MUSTYPE_NONE, MUSTYPE_NONE | MUSTYPE_MUS, MUSTYPE_MUS
  | MUSTYPE_MIDI, MUSTYPE_MIDI | MUSTYPE_OGG, MUSTYPE_OGG
  | MUSTYPE_MP3, MUSTYPE_MP3 | MUSTYPE_WAV, MUSTYPE_WAV
  | MUSTYPE_FLAC, MUSTYPE_FLAC | MUSTYPE_MOD, MUSTYPE_MOD => true
  | _, _ => false
  end.

(** A [char *] that the module allocates and frees: null, pointing to a
    string, or left pointing to memory that was freed. *)
Inductive string_ptr :=
  | null_ptr
  | live_ptr (s : string)
  | freed_ptr.

Record music_t := {
  music_initialized : bool;
  sdl_was_initialized : bool;
  current_music_volume : Z;
  paused_midi_volume : Z;
  musictype : musictype_t;
  haveMidiServer : bool;
  haveMidiClient : bool;
  serverMidiPlaying : bool;
  s_timiditycfgpath : string;
  temp_timidity_cfg : string_ptr
}.

(** The formats that I_RegisterSong asks SDL_mixer to try, in its order. *)
Inductive Mix_MusicType := MUS_MID | MUS_OGG | MUS_MP3 | MUS_WAV | MUS_FLAC | MUS_MOD.

Inductive call :=
  | fwrite_file (path contents : string)
  | putenv (s : string)
  | remove (path : string)
  | Mix_QuerySpec
  | SDL_InitSubSystem
  | Mix_OpenAudio
  | SDL_QuitSubSystem
  | SDL_PauseAudio (pause_on : Z)
  | Mix_CloseAudio
  | Mix_HaltMusic
  | Mix_VolumeMusic (volume : Z)
  | Mix_PlayMusic (handle loops : Z)
  | Mix_PauseMusic
  | Mix_ResumeMusic
  | Mix_FreeMusic (handle : Z)
  | I_MidiRPCInitServer
  | I_MidiRPCClientShutDown
  | I_MidiRPCSetVolume (volume : Z)
  | I_MidiRPCPlaySong (looping : bool)
  | I_MidiRPCPauseSong
  | I_MidiRPCResumeSong
  | I_MidiRPCStopSong
  | I_MidiRPCInitClient
  | I_MidiRPCRegisterSong (data : list Z) (size : Z)
  | mmuscheckformat (data : list Z) (size : Z)
  | mmus2mid (data : list Z) (size : Z)
  | MIDIToMidi
  | SDL_RWFromMem (data : list Z) (size : Z)
  | Mix_LoadMUSType_RW (type : Mix_MusicType)
  | C_Warning (text : string).

(** ** The wrapper configuration of TiMidity *)

(** The offset of the last character of code [c] in [s]. *)
Fixpoint last_offset (s : string) (c : Z) : option nat :=
  match s with
  | "" => None
  | String a s' =>
      match last_offset s' c with
      | Some i => Some (S i)
      | None => if code a =? c then Some O else None
      end
  end.

(** [strrchr(s, c)], as an offset into [s]: [c] is converted to [char], and
    the terminator counts as a character of [s]. *)
Definition strrchr (s : string) (c : Z) : option nat :=
  if c mod 256 =? 0 then Some (String.length s) else last_offset s (c mod 256).

(** [DIR_SEPARATOR] is defined in a header that is not among the sources.
    [can_open] says whether [fopen(write_path, "w")] succeeds. The result
    is the text written to [write_path] when the function returns true,
    and [None] when it returns false, having written nothing. *)
Definition WriteWrapperTimidityConfig (DIR_SEPARATOR : Z) (cfgpath : string)
    (can_open : bool) : option string :=
  match cfgpath with
  | "" => None
  | _ =>
      if negb can_open then None
      else
        Some ((match strrchr cfgpath DIR_SEPARATOR with
               | Some p => "dir " +:+ substring 0 p cfgpath +:+ newline
               | None => ""
               end) +:+ "source " +:+ cfgpath +:+ newline)
  end.

Definition set_temp_timidity_cfg (p : string_ptr) (s : music_t) : music_t :=
  {| music_initialized := music_initialized s;
     sdl_was_initialized := sdl_was_initialized s;
     current_music_volume := current_music_volume s;
     paused_midi_volume := paused_midi_volume s;
     musictype := musictype s;
     haveMidiServer := haveMidiServer s;
     haveMidiClient := haveMidiClient s;
     serverMidiPlaying := serverMidiPlaying s;
     s_timiditycfgpath := s_timiditycfgpath s;
     temp_timidity_cfg := p |}.

(** m_misc.c is not among the sources: [tempfile] is the string that
    [M_TempFile("timidity.cfg")] returns, and M_StringJoin is taken to
    join its arguments. The pointer that [temp_timidity_cfg] held before
    is overwritten. *)
Definition I_InitTimidityConfig (DIR_SEPARATOR : Z) (tempfile : string)
    (can_open : bool) (s : music_t) : music_t * list call :=
  match WriteWrapperTimidityConfig DIR_SEPARATOR (s_timiditycfgpath s) can_open with
  | Some contents =>
      (set_temp_timidity_cfg (live_ptr tempfile) s,
       [fwrite_file tempfile contents; putenv ("TIMIDITY_CFG=" +:+ tempfile)])
  | None => (set_temp_timidity_cfg null_ptr s, [])
  end.

(** The pointer is freed and not cleared. *)
Definition RemoveTimidityConfig (s : music_t) : result (music_t * list call) :=
  match temp_timidity_cfg s with
  | null_ptr => Ok (s, [])
  | live_ptr path => Ok (set_temp_timidity_cfg freed_ptr s, [remove path])
  | freed_ptr => Fault (Undefined "use of a pointer that was freed")
  end.

(** ** Start and end of the module *)

Definition I_ShutdownMusic (s : music_t) : music_t * list call :=
  if music_initialized s then
    ({| music_initialized := false;
        sdl_was_initialized := false;
        current_music_volume := current_music_volume s;
        paused_midi_volume := paused_midi_volume s;
        musictype := musictype s;
        haveMidiServer := haveMidiServer s;
        haveMidiClient := haveMidiClient s;
        serverMidiPlaying := serverMidiPlaying s;
        s_timiditycfgpath := s_timiditycfgpath s;
        temp_timidity_cfg := temp_timidity_cfg s |},
     [Mix_HaltMusic]
     ++ (if sdl_was_initialized s then [Mix_CloseAudio; SDL_QuitSubSystem] else [])
     ++ [I_MidiRPCClientShutDown])
  else (s, []).

(** What the calls of I_InitMusic return. *)
Record sdl_answers := {
  Mix_QuerySpec_ret : Z;
  SDL_InitSubSystem_ret : Z;
  Mix_OpenAudio_ret : Z;
  I_MidiRPCInitServer_ret : bool
}.

Definition SDLIsInitialized (a : sdl_answers) : bool * list call :=
  (negb (Mix_QuerySpec_ret a =? 0), [Mix_QuerySpec]).

(** The part of I_InitMusic after SDL is seen or made ready; [t] holds the
    calls made before. *)
Definition I_InitMusic_ready (a : sdl_answers) (s : music_t) (t : list call)
    : result (bool * music_t * list call) :=
  let s1 :=
    {| music_initialized := true;
       sdl_was_initialized := true;
       current_music_volume := current_music_volume s;
       paused_midi_volume := paused_midi_volume s;
       musictype := musictype s;
       haveMidiServer := I_MidiRPCInitServer_ret a;
       haveMidiClient := haveMidiClient s;
       serverMidiPlaying := serverMidiPlaying s;
       s_timiditycfgpath := s_timiditycfgpath s;
       temp_timidity_cfg := temp_timidity_cfg s |} in
  p <- RemoveTimidityConfig s1 ;;
  let '(s2, t2) := p in
  Ok (music_initialized s2, s2, t ++ [SDL_PauseAudio 0; I_MidiRPCInitServer] ++ t2).

Definition I_InitMusic (a : sdl_answers) (s : music_t)
    : result (bool * music_t * list call) :=
  let '(initialized, t) := SDLIsInitialized a in
  if negb initialized then
    if SDL_InitSubSystem_ret a <? 0 then Ok (false, s, t ++ [SDL_InitSubSystem])
    else if Mix_OpenAudio_ret a <? 0
    then Ok (false, s, t ++ [SDL_InitSubSystem; Mix_OpenAudio; SDL_QuitSubSystem])
    else I_InitMusic_ready a s (t ++ [SDL_InitSubSystem; Mix_OpenAudio])
  else I_InitMusic_ready a s t.

(** ** Volume and playing *)

Definition UpdateMusicVolume (s : music_t) : list call :=
  if serverMidiPlaying s then [I_MidiRPCSetVolume (current_music_volume s)]
  else [Mix_VolumeMusic (current_music_volume s)].

Definition I_SetMusicVolume (volume : Z) (s : music_t) : music_t * list call :=
  let s' :=
    {| music_initialized := music_initialized s;
       sdl_was_initialized := sdl_was_initialized s;
       current_music_volume := volume;
       paused_midi_volume := paused_midi_volume s;
       musictype := musictype s;
       haveMidiServer := haveMidiServer s;
       haveMidiClient := haveMidiClient s;
       serverMidiPlaying := serverMidiPlaying s;
       s_timiditycfgpath := s_timiditycfgpath s;
       temp_timidity_cfg := temp_timidity_cfg s |} in
  (s', UpdateMusicVolume s').

(** A handle is a pointer: [None] is the null pointer. *)
Definition I_PlaySong (handle : option Z) (looping : bool) (s : music_t)
    : music_t * list call :=
  if negb (music_initialized s) then (s, [])
  else if serverMidiPlaying s then (s, [I_MidiRPCPlaySong looping])
  else
    match handle with
    | Some h => (s, [Mix_PlayMusic h (if looping then -1 else 1)])
    | None => (s, [])
    end.

(** [volume_now] is what [Mix_VolumeMusic(-1)] returns. *)
Definition I_PauseSong (volume_now : Z) (s : music_t) : music_t * list call :=
  if negb (music_initialized s) then (s, [])
  else if serverMidiPlaying s then (s, [I_MidiRPCPauseSong])
  else if negb (musictype_eqb (musictype s) MUSTYPE_MIDI) then (s, [Mix_PauseMusic])
  else
    ({| music_initialized := music_initialized s;
        sdl_was_initialized := sdl_was_initialized s;
        current_music_volume := current_music_volume s;
        paused_midi_volume := volume_now;
        musictype := musictype s;
        haveMidiServer := haveMidiServer s;
        haveMidiClient := haveMidiClient s;
        serverMidiPlaying := serverMidiPlaying s;
        s_timiditycfgpath := s_timiditycfgpath s;
        temp_timidity_cfg := temp_timidity_cfg s |},
     [Mix_VolumeMusic (-1); Mix_VolumeMusic 0]).

Definition I_ResumeSong (s : music_t) : music_t * list call :=
  if negb (music_initialized s) then (s, [])
  else if serverMidiPlaying s then (s, [I_MidiRPCResumeSong])
  else if negb (musictype_eqb (musictype s) MUSTYPE_MIDI) then (s, [Mix_ResumeMusic])
  else (s, [Mix_VolumeMusic (paused_midi_volume s)]).

Definition stop_server (s : music_t) : music_t :=
  {| music_initialized := music_initialized s;
     sdl_was_initialized := sdl_was_initialized s;
     current_music_volume := current_music_volume s;
     paused_midi_volume := paused_midi_volume s;
     musictype := musictype s;
     haveMidiServer := haveMidiServer s;
     haveMidiClient := haveMidiClient s;
     serverMidiPlaying := false;
     s_timiditycfgpath := s_timiditycfgpath s;
     temp_timidity_cfg := temp_timidity_cfg s |}.

Definition I_StopSong (s : music_t) : music_t * list call :=
  if negb (music_initialized s) then (s, [])
  else if serverMidiPlaying s then (stop_server s, [I_MidiRPCStopSong])
  else (s, [Mix_HaltMusic]).

Definition I_UnRegisterSong (handle : option Z) (s : music_t) : music_t * list call :=
  if negb (music_initialized s) then (s, [])
  else if serverMidiPlaying s then (stop_server s, [I_MidiRPCStopSong])
  else
    match handle with
    | Some h => (s, [Mix_FreeMusic h])
    | None => (s, [])
    end.

(** The calls of a sequence of volume changes, and the state after it. *)
Definition set_volumes (vs : list Z) (s : music_t) : music_t * list call :=
  fold_left (λ st v, let '(s', t) := I_SetMusicVolume v (fst st) in (s', snd st ++ t))
    vs (s, []).

(** ** Registering a song *)

(** What the calls of I_RegisterSong return: [mmus2mid] a value that is not
    0 when the conversion fails, [MIDIToMidi] the converted song and its
    length, [SDL_RWFromMem] a pointer that is null or not, and
    [Mix_LoadMUSType_RW] a handle, or null, for each format. *)
Record register_answers := {
  mmuscheckformat_ret : bool;
  mmus2mid_ret : Z;
  MIDIToMidi_mid : list Z;
  MIDIToMidi_midlen : Z;
  I_MidiRPCInitClient_ret : bool;
  I_MidiRPCRegisterSong_ret : bool;
  SDL_RWFromMem_ret : bool;
  Mix_LoadMUSType_RW_ret : Mix_MusicType -> option Z
}.

(** [!memcmp(data, "MThd", 4)]: four bytes of [data] are read. *)
Definition is_MThd (data : list Z) : result bool :=
  match data with
  | b0 :: b1 :: b2 :: b3 :: _ =>
      Ok ((b0 =? 77) && (b1 =? 84) && (b2 =? 104) && (b3 =? 100))
  | _ => Fault (OutOfBounds "data" (Z.of_nat (length data)))
  end.

Definition set_musictype (t : musictype_t) (s : music_t) : music_t :=
  {| music_initialized := music_initialized s;
     sdl_was_initialized := sdl_was_initialized s;
     current_music_volume := current_music_volume s;
     paused_midi_volume := paused_midi_volume s;
     musictype := t;
     haveMidiServer := haveMidiServer s;
     haveMidiClient := haveMidiClient s;
     serverMidiPlaying := serverMidiPlaying s;
     s_timiditycfgpath := s_timiditycfgpath s;
     temp_timidity_cfg := temp_timidity_cfg s |}.

Definition set_haveMidiClient (b : bool) (s : music_t) : music_t :=
  {| music_initialized := music_initialized s;
     sdl_was_initialized := sdl_was_initialized s;
     current_music_volume := current_music_volume s;
     paused_midi_volume := paused_midi_volume s;
     musictype := musictype s;
     haveMidiServer := haveMidiServer s;
     haveMidiClient := b;
     serverMidiPlaying := serverMidiPlaying s;
     s_timiditycfgpath := s_timiditycfgpath s;
     temp_timidity_cfg := temp_timidity_cfg s |}.

Definition set_serverMidiPlaying (b : bool) (s : music_t) : music_t :=
  {| music_initialized := music_initialized s;
     sdl_was_initialized := sdl_was_initialized s;
     current_music_volume := current_music_volume s;
     paused_midi_volume := paused_midi_volume s;
     musictype := musictype s;
     haveMidiServer := haveMidiServer s;
     haveMidiClient := haveMidiClient s;
     serverMidiPlaying := b;
     s_timiditycfgpath := s_timiditycfgpath s;
     temp_timidity_cfg := temp_timidity_cfg s |}.

(** The type of music that goes with a format of SDL_mixer. *)
Definition musictype_of (f : Mix_MusicType) : musictype_t :=
  match f with
  | MUS_MID => MUSTYPE_MIDI
  | MUS_OGG => MUSTYPE_OGG
  | MUS_MP3 => MUSTYPE_MP3
  | MUS_WAV => MUSTYPE_WAV
  | MUS_FLAC => MUSTYPE_FLAC
  | MUS_MOD => MUSTYPE_MOD
  end.

(** The chain of [if ((music = Mix_LoadMUSType_RW(rwops, ...)))] over the
    formats that are left: the handle, the new state and the calls. *)
Fixpoint load_music (a : register_answers) (formats : list Mix_MusicType)
    (s : music_t) : option Z * music_t * list call :=
  match formats with
  | [] => (None, s, [])
  | f :: formats =>
      match Mix_LoadMUSType_RW_ret a f with
      | Some music => (Some music, set_musictype (musictype_of f) s, [Mix_LoadMUSType_RW f])
      | None =>
          let '(music, s', t) := load_music a formats s in
          (music, s', Mix_LoadMUSType_RW f :: t)
      end
  end.

(** The end of I_RegisterSong, from [SDL_RWFromMem] on. *)
Definition register_with_mixer (a : register_answers) (data : list Z) (size : Z)
    (s : music_t) : option Z * music_t * list call :=
  if SDL_RWFromMem_ret a then
    let '(music, s', t) :=
      load_music a [MUS_MID; MUS_OGG; MUS_MP3; MUS_WAV; MUS_FLAC; MUS_MOD] s in
    (music, s', SDL_RWFromMem data size :: t)
  else (None, s, [SDL_RWFromMem data size]).

(** The part of I_RegisterSong that hands a MIDI song to the RPC server:
    whether the server will play the song, the new state and the calls. *)
Definition register_with_server (a : register_answers) (data : list Z) (size : Z)
    (s : music_t) : bool * music_t * list call :=
  let '(s, t) :=
    if negb (haveMidiClient s) then
      if I_MidiRPCInitClient_ret a
      then (set_haveMidiClient true s,
            [I_MidiRPCInitClient; I_MidiRPCSetVolume (current_music_volume s)])
      else (set_haveMidiClient false s,
            [I_MidiRPCInitClient; C_Warning "The RPC client couldn't be initialized."])
    else (s, []) in
  if haveMidiClient s then
    if I_MidiRPCRegisterSong_ret a
    then (true, set_serverMidiPlaying true s, t ++ [I_MidiRPCRegisterSong data size])
    else (false, s, t ++ [I_MidiRPCRegisterSong data size])
  else (false, s, t).

(** I_RegisterSong: the handle returned ([None] is the null pointer), the
    new state and the calls. *)
Definition I_RegisterSong (a : register_answers) (data : list Z) (size : Z)
    (s : music_t) : result (option Z * music_t * list call) :=
  if negb (music_initialized s) then Ok (None, s, [])
  else
    let s := set_musictype MUSTYPE_NONE s in
    (* the format of the song: the state, isMIDI, isMUS and the calls *)
    h <- (if 14 <=? size then
            m <- is_MThd data ;;
            if m : bool then Ok (set_musictype MUSTYPE_MIDI s, true, false, [])
            else if mmuscheckformat_ret a
            then Ok (set_musictype MUSTYPE_MUS s, false, true, [mmuscheckformat data size])
            else Ok (s, false, false, [mmuscheckformat data size])
          else Ok (s, false, false, [])) ;;
    let '(s, isMIDI, isMUS, t0) := h in
    if isMUS && negb (mmus2mid_ret a =? 0) then Ok (None, s, t0 ++ [mmus2mid data size])
    else
      let '(data', size', isMIDI, t1) :=
        if isMUS
        then (MIDIToMidi_mid a, MIDIToMidi_midlen a, true, [mmus2mid data size; MIDIToMidi])
        else (data, size, isMIDI, []) in
      if isMIDI && haveMidiServer s then
        let '(played, s', t2) := register_with_server a data' size' s in
        if played then Ok (None, s', t0 ++ t1 ++ t2)
        else
          let '(music, s'', t3) := register_with_mixer a data' size' s' in
          Ok (music, s'', t0 ++ t1 ++ t2 ++ t3)
      else
        let '(music, s', t3) := register_with_mixer a data' size' s in
        Ok (music, s', t0 ++ t1 ++ t3).

(** * Vocabulary of the further properties *)



(** A value of each type, and the registry in which every setting of
    [cvars] has the one of its type. *)
Definition zero_val (ty : default_type_t) : val :=
  match ty with
  | DEFAULT_STRING => VString ""
  | DEFAULT_FLOAT | DEFAULT_FLOAT_PERCENT => VFloat (Float 0 0)
  | _ => VInt 0
  end.

Definition zero_registry : config :=
  {| cvars := cvars_init;
     vars := foldr (λ d m, <[location d := zero_val (type d)]> m) ∅ cvars_init |}.

(** [actions] with nothing but its end marker. *)
Definition no_actions : list action_t :=
  [ {| a_action := ""; a_keyboard := None; a_mouse := None; a_gamepad := None |} ].

Definition writable : filesystem := {| config_file := None; can_write := true |}.

(** The scancode that the DEFAULT_KEY case of SaveDefaultCollection
    prints for the setting [d] with the key code [v]: [untranslated] under
    the guard of its first branch, else the first scancode that
    [scantokey] translates to [v]. *)
Definition saved_scancode (K : doomkeys) (d : default_t) (v : Z) : option Z :=
  if negb (untranslated d =? 0) && (v =? original_translated d)
  then Some (untranslated d)
  else find_scancode (scantokey K) 0 v.

(** The place of the first level of a table that equals [x]. *)
Fixpoint first_level (l : list float) (x : float) : option nat :=
  match l with
  | [] => None
  | v :: l => if Feqb v x then Some O else S <$> first_level l x
  end.

(** The result of the search for the default level in a table. *)
Definition default_level (l : list float) (d : float) : result Z :=
  match first_level l d with
  | Some k => Ok (Z.of_nat k)
  | None => Fault (OutOfBounds "gammalevels" (Z.of_nat (length l)))
  end.

(** The setting of the registry that holds [widescreen], and its place. *)
Definition vid_widescreen : default_t :=
  CONFIG_VARIABLE_INT "vid_widescreen" "widescreen" 1.

Definition vid_widescreen_index : nat := 60.



(** States and answers to run the module on. *)
Definition playing_midi : music_t :=
  {| music_initialized := true;
     sdl_was_initialized := true;
     current_music_volume := 100;
     paused_midi_volume := 0;
     musictype := MUSTYPE_MIDI;
     haveMidiServer := false;
     haveMidiClient := false;
     serverMidiPlaying := false;
     s_timiditycfgpath := "";
     temp_timidity_cfg := null_ptr |}.

Definition with_wrapper : music_t :=
  {| music_initialized := false;
     sdl_was_initialized := false;
     current_music_volume := 0;
     paused_midi_volume := 0;
     musictype := MUSTYPE_NONE;
     haveMidiServer := false;
     haveMidiClient := false;
     serverMidiPlaying := false;
     s_timiditycfgpath := "timidity.cfg";
     temp_timidity_cfg := live_ptr "wrapper.cfg" |}.

Definition sdl_ready : sdl_answers :=
  {| Mix_QuerySpec_ret := 1;
     SDL_InitSubSystem_ret := 0;
     Mix_OpenAudio_ret := 0;
     I_MidiRPCInitServer_ret := false |}.

(** The type that the first lines of I_RegisterSong give a song by its
    first bytes: [mthd] says whether it starts with [MThd], [mus] what
    mmuscheckformat returns. *)
Definition header_type (size : Z) (mthd mus : bool) : musictype_t :=
  if 14 <=? size then
    if mthd then MUSTYPE_MIDI else if mus then MUSTYPE_MUS else MUSTYPE_NONE
  else MUSTYPE_NONE.

(** The formats in the order in which I_RegisterSong tries them. *)
Definition formats_tried : list Mix_MusicType :=
  [MUS_MID; MUS_OGG; MUS_MP3; MUS_WAV; MUS_FLAC; MUS_MOD].

(** A state in which the RPC server is there and its client is not yet. *)
Definition with_server : music_t :=
  {| music_initialized := true;
     sdl_was_initialized := true;
     current_music_volume := 100;
     paused_midi_volume := 0;
     musictype := MUSTYPE_NONE;
     haveMidiServer := true;
     haveMidiClient := false;
     serverMidiPlaying := false;
     s_timiditycfgpath := "";
     temp_timidity_cfg := null_ptr |}.

(** Answers with which the client starts and the server takes the song;
    the mixer would load nothing. *)
Definition server_takes : register_answers :=
  {| mmuscheckformat_ret := false;
     mmus2mid_ret := 0;
     MIDIToMidi_mid := [];
     MIDIToMidi_midlen := 0;
     I_MidiRPCInitClient_ret := true;
     I_MidiRPCRegisterSong_ret := true;
     SDL_RWFromMem_ret := true;
     Mix_LoadMUSType_RW_ret := λ _, None |}.

(** Answers with which the mixer loads the song as Ogg only. *)
Definition ogg_only : register_answers :=
  {| mmuscheckformat_ret := false;
     mmus2mid_ret := 0;
     MIDIToMidi_mid := [];
     MIDIToMidi_midlen := 0;
     I_MidiRPCInitClient_ret := false;
     I_MidiRPCRegisterSong_ret := false;
     SDL_RWFromMem_ret := true;
     Mix_LoadMUSType_RW_ret :=
       λ f, match f with MUS_OGG => Some 7 | _ => None end |}.

(** The first fourteen bytes of a MIDI file. *)
Definition midi_header : list Z :=
  [77; 84; 104; 100; 0; 0; 0; 6; 0; 1; 0; 2; 0; 96].

(** * Properties *)

(** ** Strings *)

Lemma append_cons (c : ascii) (s t : string) :
  String c s +:+ t = String c (s +:+ t).
Proof. reflexivity. Qed.

Lemma append_nil_l (s : string) : "" +:+ s = s.
Proof. reflexivity. Qed.

Ltac string_ind s :=
  induction s as [|? s ?IH]; rewrite ?append_nil_l, ?append_cons; simpl.

Lemma append_nil_r (s : string) : s +:+ "" = s.
Proof. string_ind s; [reflexivity | now rewrite IH]. Qed.

Lemma append_assoc (s1 s2 s3 : string) : (s1 +:+ s2) +:+ s3 = s1 +:+ s2 +:+ s3.
Proof. string_ind s1; [reflexivity | now rewrite IH]. Qed.

Lemma length_append (s1 s2 : string) :
  String.length (s1 +:+ s2) = (String.length s1 + String.length s2)%nat.
Proof. string_ind s1; [reflexivity | now rewrite IH]. Qed.

Lemma drop_last_snoc (s : string) (c : ascii) : drop_last (s +:+ String c "") = s.
Proof.
  string_ind s; [reflexivity |].
  rewrite IH. destruct s; reflexivity.
Qed.

Lemma last_char_snoc (s : string) (c : ascii) : last_char (s +:+ String c "") = Some c.
Proof.
  string_ind s; [reflexivity |].
  rewrite IH. destruct s; reflexivity.
Qed.

(** Every non-empty string is a string followed by its last character. *)
Lemma string_snoc (s : string) :
  s <> "" -> exists s' c, s = s' +:+ String c "".
Proof.
  induction s as [|a s IH]; intros Hne; [congruence |].
  destruct s as [|b s].
  - exists "", a. reflexivity.
  - destruct IH as (s' & c & ->); [discriminate |].
    exists (String a s'), c. reflexivity.
Qed.

Lemma char_at_code (s : string) (i : nat) (z : Z) :
  char_at s i = Ok z -> 0 <= z < 256.
Proof.
  revert i; induction s as [|c s IH]; intros [|i]; simpl; try discriminate.
  - intros [= <-]. lia.
  - intros [= <-]. unfold code.
    pose proof (nat_ascii_bounded c). lia.
  - destruct (char_at s i) eqn:E; [|discriminate].
    intros [= <-]. eauto.
Qed.

Lemma char_at_app_r (s1 s2 : string) (i : nat) (z : Z) :
  char_at s2 i = Ok z -> char_at (s1 +:+ s2) (String.length s1 + i) = Ok z.
Proof.
  intros H. string_ind s1; [assumption |].
  now rewrite IH.
Qed.

Lemma char_at_length (s : string) : char_at s (String.length s) = Ok 0.
Proof. induction s as [|c s IH]; simpl; [reflexivity | now rewrite IH]. Qed.

Lemma char_at_in_range (s : string) (i : nat) :
  (i <= String.length s)%nat -> exists z, char_at s i = Ok z.
Proof.
  revert i; induction s as [|c s IH]; intros [|i] Hi; simpl in *; eauto; [lia |].
  destruct (IH i) as [z ->]; [lia | eauto].
Qed.

(** [char_at] reads the character that [String.get] finds. *)
Lemma char_at_get (s : string) (i : nat) (z : Z) :
  (i < String.length s)%nat ->
  char_at s i = Ok z <-> exists c, String.get i s = Some c /\ code c = z.
Proof.
  revert i; induction s as [|c s IH]; intros i Hi; simpl in Hi; [lia |].
  destruct i as [|i]; simpl.
  - split; [intros [= <-]; eauto | intros (c' & [= <-] & <-); reflexivity].
  - specialize (IH i ltac:(lia)).
    destruct (char_at s i) as [z'|f] eqn:E.
    + split.
      * intros [= <-]. now apply IH.
      * intros H. apply IH in H. congruence.
    + split; [discriminate |].
      intros H. apply IH in H. discriminate.
Qed.

Lemma string_snoc3 (s : string) :
  (3 <= String.length s)%nat ->
  exists pre a b c, s = pre +:+ String a (String b (String c "")).
Proof.
  intros Hlen.
  destruct (string_snoc s) as (s1 & c & ->); [destruct s; simpl in *; [lia | discriminate] |].
  rewrite length_append in Hlen; simpl in Hlen.
  destruct (string_snoc s1) as (s2 & b & ->); [destruct s1; simpl in *; [lia | discriminate] |].
  rewrite length_append in Hlen; simpl in Hlen.
  destruct (string_snoc s2) as (s3 & a & ->); [destruct s2; simpl in *; [lia | discriminate] |].
  exists s3, a, b, c. now rewrite !append_assoc.
Qed.

Lemma string_forall_app (p : Z -> bool) (s1 s2 : string) :
  string_forall p (s1 +:+ s2) = string_forall p s1 && string_forall p s2.
Proof. string_ind s1; [reflexivity | now rewrite IH, andb_assoc]. Qed.

Lemma string_forall_char_at (p : Z -> bool) (s : string) (i : nat) (z : Z) :
  string_forall p s = true -> (i < String.length s)%nat ->
  char_at s i = Ok z -> p z = true.
Proof.
  revert i; induction s as [|c s IH]; intros i Hall Hi; simpl in *; [lia |].
  apply andb_true_iff in Hall as [Hc Hs].
  destruct i as [|i]; [now intros [= <-] |].
  destruct (char_at s i) eqn:E; [|discriminate].
  intros [= <-]. apply (IH i); [assumption | lia | assumption].
Qed.

Lemma string_forall_impl (p q : Z -> bool) (s : string) :
  (forall z, p z = true -> q z = true) ->
  string_forall p s = true -> string_forall q s = true.
Proof.
  intros Himp. induction s as [|c s IH]; simpl; [reflexivity |].
  intros [Hc Hs]%andb_true_iff. rewrite (Himp _ Hc), IH; auto.
Qed.

Lemma M_snprintf_forall (p : Z -> bool) (size : nat) (s : string) :
  string_forall p s = true -> string_forall p (M_snprintf size s) = true.
Proof.
  revert size; induction s as [|c s IH]; intros size Hs.
  - destruct size as [|[|size]]; reflexivity.
  - simpl in Hs. apply andb_true_iff in Hs as [Hc Hs].
    destruct size as [|[|size]]; [reflexivity | reflexivity |].
    simpl. now rewrite Hc, IH.
Qed.

(** ** Decimal and hexadecimal digits *)

Lemma digits_range (fuel : nat) (base n : Z) :
  1 < base -> 0 <= n -> Forall (λ d, 0 <= d < base) (digits fuel base n).
Proof.
  intros Hb. revert n; induction fuel as [|fuel IH]; intros n Hn; simpl.
  - constructor.
  - destruct (Z.ltb_spec n base).
    + repeat constructor; lia.
    + apply Forall_app; split.
      * apply IH. apply Z.div_pos; lia.
      * repeat constructor; apply Z.mod_pos_bound; lia.
Qed.

Lemma code_chr (n : Z) : 0 <= n < 256 -> code (chr n) = n.
Proof.
  intros Hn. unfold code, chr.
  rewrite Z.mod_small by lia.
  rewrite nat_ascii_embedding by lia. lia.
Qed.

Lemma code_digit_char (d : Z) :
  0 <= d < 16 ->
  code (digit_char d) = if d <? 10 then 48 + d else 87 + d.
Proof.
  intros Hd. unfold digit_char.
  destruct (d <? 10); apply code_chr; lia.
Qed.

Lemma digit_chars_forall (p : Z -> bool) (l : list Z) :
  Forall (λ d, p (code (digit_char d)) = true) l ->
  string_forall p (string_of_chars (map digit_char l)) = true.
Proof.
  induction 1 as [|d l Hd Hl IH]; simpl; [reflexivity |].
  now rewrite Hd, IH.
Qed.

Lemma utoa_decimal_digits (n : Z) : 0 <= n -> string_forall isdigit (utoa 10 n) = true.
Proof.
  intros Hn. unfold utoa. apply digit_chars_forall.
  eapply Forall_impl; [apply digits_range; lia |].
  intros d Hd; simpl in Hd. rewrite code_digit_char by lia.
  unfold isdigit. destruct (Z.ltb_spec d 10); lia.
Qed.

Lemma utoa_hex_digits (n : Z) : 0 <= n -> string_forall is_digit_or_af (utoa 16 n) = true.
Proof.
  intros Hn. unfold utoa. apply digit_chars_forall.
  eapply Forall_impl; [apply digits_range; lia |].
  intros d Hd; simpl in Hd. rewrite code_digit_char by lia.
  unfold is_digit_or_af, isdigit. destruct (Z.ltb_spec d 10); lia.
Qed.

(** ** The error monad *)

Lemma bind_Ok {A B : Type} (a : A) (f : A -> result B) : bind (Ok a) f = f a.
Proof. reflexivity. Qed.

Lemma bind_inv {A B : Type} (m : result A) (f : A -> result B) (b : B) :
  bind m f = Ok b -> exists a, m = Ok a /\ f a = Ok b.
Proof. destruct m as [a|e]; simpl; [eauto | discriminate]. Qed.

(** ** striptrailingzero *)

Lemma Ffrac_den_pos (x : float) : 0 < snd (Ffrac x).
Proof. unfold Ffrac, pow2_den; simpl. apply Z.pow_pos_nonneg; lia. Qed.

Lemma round_half_even_exact (n d : Z) :
  0 < d -> n mod d = 0 -> round_half_even n d = n / d.
Proof.
  intros Hd Hmod. unfold round_half_even. rewrite Hmod.
  destruct (Z.ltb_spec (2 * 0) d); [reflexivity | lia].
Qed.

(** The test of striptrailingzero, on a text given by its parts. *)
Lemma strip_test_hit (pre : string) (x : ascii) :
  pre <> "" ->
  let result := pre +:+ "." +:+ String x "0" in
  (4 <=? String.length result)%nat = true /\
  char_at result (String.length result - 3) = Ok (ch ".") /\
  char_at result (String.length result - 1) = Ok (ch "0") /\
  drop_last result = pre +:+ "." +:+ String x "".
Proof.
  intros Hne result. subst result.
  assert (Hlen : String.length (pre +:+ "." +:+ String x "0")
                 = (String.length pre + 3)%nat)
    by (rewrite length_append; reflexivity).
  assert (0 < String.length pre)%nat by (destruct pre; simpl; [congruence | lia]).
  rewrite Hlen. repeat split.
  - apply Nat.leb_le. lia.
  - replace (String.length pre + 3 - 3)%nat with (String.length pre + 0)%nat by lia.
    now apply char_at_app_r.
  - replace (String.length pre + 3 - 1)%nat with (String.length pre + 2)%nat by lia.
    now apply char_at_app_r.
  - change (pre +:+ "." +:+ String x "0")
      with (pre +:+ ("." +:+ String x "") +:+ "0").
    rewrite <- append_assoc. apply drop_last_snoc.
Qed.

Lemma strip_test_shape (result : string) :
  (4 <=? String.length result)%nat = true ->
  char_at result (String.length result - 3) = Ok (ch ".") ->
  char_at result (String.length result - 1) = Ok (ch "0") ->
  exists pre x, pre <> "" /\ result = pre +:+ "." +:+ String x "0".
Proof.
  intros Hlen%Nat.leb_le H3 H1.
  destruct (string_snoc3 result) as (pre & a & b & c & ->); [lia |].
  rewrite length_append in *; simpl in *.
  replace (String.length pre + 3 - 3)%nat with (String.length pre + 0)%nat in H3 by lia.
  replace (String.length pre + 3 - 1)%nat with (String.length pre + 2)%nat in H1 by lia.
  rewrite (char_at_app_r pre _ 0 (code a)) in H3 by reflexivity.
  rewrite (char_at_app_r pre _ 2 (code c)) in H1 by reflexivity.
  injection H3 as H3. injection H1 as H1.
  assert (Ha : a = "."%char).
  { rewrite <- (ascii_nat_embedding a), <- (ascii_nat_embedding "."%char).
    f_equal. unfold code, ch in H3. simpl in H3. lia. }
  assert (Hc : c = "0"%char).
  { rewrite <- (ascii_nat_embedding c), <- (ascii_nat_embedding "0"%char).
    f_equal. unfold code, ch in H1. simpl in H1. lia. }
  subst a c. exists pre, b. split; [|reflexivity].
  intros ->. simpl in Hlen. lia.
Qed.

(** C3 (as amended): at precision class 2 the renderer turns 1.5 into
    [1.5] and 2.0 into [2.0]; whenever the rendered text has at least four
    characters, a point in the third position from the end and [0] as its
    last character, that last [0] is dropped, and no other text is changed
    (a text that merely ends in [.0] stays as it is); with another
    precision class an integral value is rendered with zero decimals. *)
Theorem striptrailingzero_drops_second_decimal_zero :
  striptrailingzero (Float 3 (-1)) 2 = Ok "1.5" /\
  striptrailingzero (Float 2 0) 2 = Ok "2.0" /\
  (forall value precision pre x,
      pre <> "" ->
      rendered value precision = pre +:+ "." +:+ String x "0" ->
      striptrailingzero value precision = Ok (pre +:+ "." +:+ String x "")) /\
  (forall value precision,
      (forall pre x, pre <> "" ->
                     rendered value precision <> pre +:+ "." +:+ String x "0") ->
      striptrailingzero value precision = Ok (rendered value precision)) /\
  (forall value precision,
      precision <> 2 -> Fintegral value = true ->
      striptrailingzero value precision =
        Ok (M_snprintf 100
              ((if fst (Ffrac value) <? 0 then "-" else "") +:+
               utoa 10 (Z.abs (fst (Ffrac value)) / snd (Ffrac value))))).
Proof.
  split; [reflexivity |]. split; [reflexivity |].
  split; [|split].
  - intros value precision pre x Hne Hr.
    unfold striptrailingzero, strip_zero. rewrite Hr.
    destruct (strip_test_hit pre x Hne) as (-> & -> & -> & ->).
    reflexivity.
  - intros value precision Hno.
    unfold striptrailingzero, strip_zero.
    destruct (4 <=? String.length (rendered value precision))%nat eqn:Hlen;
      [|reflexivity].
    destruct (char_at_in_range (rendered value precision)
                (String.length (rendered value precision) - 3)) as [c3 H3]; [lia |].
    destruct (char_at_in_range (rendered value precision)
                (String.length (rendered value precision) - 1)) as [c1 H1]; [lia |].
    rewrite H3, H1; cbn [bind].
    destruct (Z.eqb_spec c3 (ch ".")) as [-> |]; [|reflexivity].
    destruct (Z.eqb_spec c1 (ch "0")) as [-> |]; [|reflexivity].
    destruct (strip_test_shape _ Hlen H3 H1) as (pre & x & Hne & E).
    now destruct (Hno pre x Hne).
  - intros value precision Hp Hint.
    assert (Hr : rendered value precision =
                 M_snprintf 100
                   ((if fst (Ffrac value) <? 0 then "-" else "") +:+
                    utoa 10 (Z.abs (fst (Ffrac value)) / snd (Ffrac value)))).
    { unfold rendered. apply Z.eqb_neq in Hp. rewrite Hp, Hint.
      unfold printf_f. unfold Fintegral in Hint.
      pose proof (Ffrac_den_pos value) as Hd.
      destruct (Ffrac value) as [n d]; simpl in *.
      apply Z.eqb_eq in Hint.
      rewrite Z.mul_1_r, Z.div_1_r, append_nil_r.
      rewrite round_half_even_exact; [reflexivity | assumption |].
      destruct (Z.abs_spec n) as [[_ ->] | [_ ->]]; [assumption |].
      rewrite Z.mod_opp_l_z; lia. }
    rewrite <- Hr. unfold striptrailingzero, strip_zero.
    destruct (4 <=? String.length (rendered value precision))%nat eqn:Hlen;
      [|reflexivity].
    assert (Hall : string_forall (λ c, negb (c =? ch ".")) (rendered value precision) = true).
    { rewrite Hr. apply M_snprintf_forall. rewrite string_forall_app.
      apply andb_true_iff; split.
      - destruct (_ <? 0); reflexivity.
      - eapply string_forall_impl; [|apply utoa_decimal_digits].
        + intros z Hz. unfold isdigit in Hz. change (ch ".") with 46.
          destruct (Z.eqb_spec z 46); [lia | reflexivity].
        + pose proof (Ffrac_den_pos value).
          apply Z.div_pos; lia. }
    apply Nat.leb_le in Hlen.
    destruct (char_at_in_range (rendered value precision)
                (String.length (rendered value precision) - 3)) as [c3 H3]; [lia |].
    destruct (char_at_in_range (rendered value precision)
                (String.length (rendered value precision) - 1)) as [c1 H1]; [lia |].
    rewrite H3, H1; cbn [bind].
    apply (string_forall_char_at _ _ _ _ Hall) in H3; [|lia].
    apply negb_true_iff in H3. now rewrite H3.
Qed.

Lemma striptrailingzero_drops_second_decimal_zero_witness :
  striptrailingzero (Float 5 (-1)) 2 = Ok "2.5" /\
  striptrailingzero (Float 3 0) 1 = Ok "3".
Proof.
  split.
  - apply (proj1 (proj2 (proj2 striptrailingzero_drops_second_decimal_zero))
             (Float 5 (-1)) 2 "2" "5"%char); [discriminate | reflexivity].
  - apply (proj2 (proj2 (proj2 (proj2 striptrailingzero_drops_second_decimal_zero)))
             (Float 3 0) 1); [discriminate | reflexivity].
Defined.

(** C3, as stated, fails: at precision class 2 the value 2.0 is rendered as
    [2.0], not [2], and a text that ends in [.0] keeps its [0]. *)
Lemma striptrailingzero_keeps_point_zero :
  striptrailingzero (Float 2 0) 2 = Ok "2.0" /\
  striptrailingzero (Float 2 0) 2 <> Ok "2".
Proof. split; [reflexivity | discriminate]. Qed.

(** ** Loading a string *)

(** C10: for a DEFAULT_STRING setting LoadDefaultCollection stores the
    value text without its first and its last character, whatever these
    two characters are: a read of the variable then gives that text, and
    nothing else has changed. This needs a text of at least two
    characters: for a text of one character the index of the character it
    overwrites is -1, one before the start of the copy, and for an empty
    text the copy starts behind the end of the text. *)
Theorem LoadValue_string_drops_first_and_last :
  forall (K : doomkeys) (parm0 : Z) (n l : string) (u o st : Z) (i : nat)
         (c : config),
    let d := {| name := n; location := l; type := DEFAULT_STRING;
                untranslated := u; original_translated := o; set := st |} in
    (forall (a b : ascii) (s : string),
        string_forall (λ z, negb (z =? 0)) (String a (s +:+ String b "")) = true ->
        exists c',
          LoadValue K parm0 (String a (s +:+ String b "")) i d c = Ok c' /\
          vars c' !! l = Some (VString s) /\
          (forall x, x <> l -> vars c' !! x = vars c !! x) /\
          cvars c' = cvars c) /\
    (forall a : ascii,
        LoadValue K parm0 (String a "") i d c = Fault (OutOfBounds "s" (-1))) /\
    LoadValue K parm0 "" i d c = Fault (OutOfBounds "strparm" 1).
Proof.
  intros K parm0 n l u o st i c d. repeat split.
  intros a b s _. exists (write_var l (VString s) c). split; [|split; [|split]].
  - unfold LoadValue; simpl.
    destruct (s +:+ String b "") eqn:E.
    + destruct s; discriminate.
    + rewrite <- E, drop_last_snoc. reflexivity.
  - cbn [write_var vars]. apply lookup_insert_eq.
  - intros x Hx. cbn [write_var vars]. now rewrite lookup_insert_ne by congruence.
  - reflexivity.
Qed.

(** The text [opengl] between double quotes and between the letters [x]
    and [y] is stored as [opengl]. *)
Lemma LoadValue_string_drops_first_and_last_witness :
  (exists c',
     LoadValue sample_keys 0 (dq +:+ "opengl" +:+ dq) 0
       (CONFIG_VARIABLE_STRING "vid_scaledriver" "scaledriver" 0)
       (one_setting "scaledriver" (VString "")) = Ok c' /\
     vars c' !! "scaledriver" = Some (VString "opengl") /\
     (forall x, x <> "scaledriver" ->
        vars c' !! x = vars (one_setting "scaledriver" (VString "")) !! x) /\
     cvars c' = cvars (one_setting "scaledriver" (VString ""))) /\
  (exists c',
     LoadValue sample_keys 0 "xopengly" 0
       (CONFIG_VARIABLE_STRING "vid_scaledriver" "scaledriver" 0)
       (one_setting "scaledriver" (VString "")) = Ok c' /\
     vars c' !! "scaledriver" = Some (VString "opengl") /\
     (forall x, x <> "scaledriver" ->
        vars c' !! x = vars (one_setting "scaledriver" (VString "")) !! x) /\
     cvars c' = cvars (one_setting "scaledriver" (VString ""))).
Proof.
  destruct (LoadValue_string_drops_first_and_last sample_keys 0
              "vid_scaledriver" "scaledriver" 0 0 0 0
              (one_setting "scaledriver" (VString ""))) as [H _].
  split.
  - exact (H (ascii_of_nat 34) (ascii_of_nat 34) "opengl" eq_refl).
  - exact (H "x"%char "y"%char "opengl" eq_refl).
Defined.

(** ** ParseIntParameter *)

(** C4, at a text that matches nothing: ParseIntParameter returns whatever
    the uninitialised [parm] holds. *)
Theorem ParseIntParameter_returns_uninitialised_parm :
  forall (K : doomkeys) (parm0 : Z), ParseIntParameter K parm0 "abc" 0 = Ok parm0.
Proof. reflexivity. Qed.

(** ** The DEFAULT_KEY case of SaveDefaultCollection *)

(** C5 (as amended): the branch that prints the untranslated scancode (its
    alias, else its quoted character, else its number) runs exactly when
    [untranslated] is not zero and the current value is
    [original_translated]; otherwise the reverse search runs. *)
Theorem SaveKey_branch :
  forall (K : doomkeys) (d : default_t) (v : Z) (b : key_branch) (t : string),
    SaveKey K d v = Ok (b, t) ->
    (b = UseUntranslated <->
     untranslated d <> 0 /\ v = original_translated d) /\
    (b = UseUntranslated ->
     print_scancode K (untranslated d) (set d) = Ok t).
Proof.
  intros K d v b t. unfold SaveKey.
  destruct (Z.eqb_spec (untranslated d) 0) as [Hu|Hu]; cbn [negb andb].
  - destruct (find_scancode _ _ _) as [s|].
    + intros (t' & _ & [= <- <-])%bind_inv.
      split; [split; [discriminate | tauto] | discriminate].
    + intros [= <- <-]. split; [split; [discriminate | tauto] | discriminate].
  - destruct (Z.eqb_spec v (original_translated d)) as [Hv|Hv].
    + intros (t' & Ht & [= <- <-])%bind_inv. tauto.
    + destruct (find_scancode _ _ _) as [s|].
      * intros (t' & _ & [= <- <-])%bind_inv.
        split; [split; [discriminate | tauto] | discriminate].
      * intros [= <- <-]. split; [split; [discriminate | tauto] | discriminate].
Qed.

Lemma SaveKey_branch_witness :
  (UseUntranslated = UseUntranslated <->
   untranslated (sample_key 29 157) <> 0 /\ 157 = original_translated (sample_key 29 157)) /\
  (UseUntranslated = UseUntranslated ->
   print_scancode sample_keys (untranslated (sample_key 29 157)) (set (sample_key 29 157))
   = Ok "ctrl").
Proof.
  apply (SaveKey_branch sample_keys (sample_key 29 157) 157 UseUntranslated "ctrl").
  reflexivity.
Defined.

(** C5, as stated, fails: with [untranslated] zero the reverse search runs
    although the current value is [original_translated]. *)
Lemma SaveKey_zero_untranslated_searches :
  0 = original_translated (sample_key 0 0) /\
  SaveKey sample_keys (sample_key 0 0) 0 = Ok (ReverseSearch, "-").
Proof. split; reflexivity. Qed.

(** ** Loading a key *)

Lemma scantokey_length (K : doomkeys) : length (scantokey K) = 128%nat.
Proof. reflexivity. Qed.

Lemma scantokey_at_in_range (K : doomkeys) (v : Z) :
  0 <= v < 128 ->
  exists k, scantokey K !! Z.to_nat v = Some k /\ scantokey_at K v = Ok k.
Proof.
  intros Hv.
  destruct (lookup_lt_is_Some_2 (scantokey K) (Z.to_nat v)) as [k Hk].
  { rewrite scantokey_length. lia. }
  exists k. split; [assumption |].
  unfold scantokey_at. rewrite Hk.
  destruct (Z.leb_spec 0 v); [|lia].
  destruct (Z.ltb_spec v 128); [reflexivity | lia].
Qed.

Lemma scantokey_at_out_of_range (K : doomkeys) (v : Z) :
  ~ 0 <= v < 128 -> scantokey_at K v = Fault (OutOfBounds "scantokey" v).
Proof.
  intros Hv. unfold scantokey_at.
  destruct (Z.leb_spec 0 v); [|reflexivity].
  destruct (Z.ltb_spec v 128); [lia | reflexivity].
Qed.

(** C6: for a DEFAULT_KEY setting LoadDefaultCollection stores the integer
    that ParseIntParameter returns in [untranslated]; the translation of
    that integer, [scantokey] at it if it is between 0 and 127 and
    INVALIDKEY otherwise, becomes both [original_translated] and the value
    of the variable at [location]. *)
Theorem LoadValue_key :
  forall (K : doomkeys) (parm0 : Z) (strparm n l : string) (u o st raw : Z)
         (i : nat) (c : config),
    let d := {| name := n; location := l; type := DEFAULT_KEY;
                untranslated := u; original_translated := o; set := st |} in
    ParseIntParameter K parm0 strparm st = Ok raw ->
    let k := translate K raw in
    let d' := {| name := n; location := l; type := DEFAULT_KEY;
                 untranslated := raw; original_translated := k; set := st |} in
    (0 <= raw < 128 -> scantokey K !! Z.to_nat raw = Some k) /\
    (~ 0 <= raw < 128 -> k = INVALIDKEY) /\
    LoadValue K parm0 strparm i d c
    = Ok {| cvars := <[i := d']> (cvars c); vars := <[l := VInt k]> (vars c) |}.
Proof.
  intros K parm0 strparm n l u o st raw i c d Hparse k d'.
  subst k d'. unfold translate.
  destruct (Z.leb_spec 0 raw); destruct (Z.ltb_spec raw 128); cbn [andb];
    (split; [intros ?|split; [intros ?|]]); try lia; try reflexivity.
  - destruct (scantokey_at_in_range K raw) as (k & -> & _); [lia | reflexivity].
  - unfold LoadValue; cbn [type set d]. rewrite Hparse; cbn [bind].
    destruct (Z.leb_spec 0 raw); [|lia].
    destruct (Z.ltb_spec raw 128); [|lia]. cbn [andb].
    destruct (scantokey_at_in_range K raw) as (k & -> & ->); [lia |].
    reflexivity.
  - unfold LoadValue; cbn [type set d]. rewrite Hparse; cbn [bind].
    destruct (Z.leb_spec 0 raw); [|lia].
    destruct (Z.ltb_spec raw 128); [lia |]. reflexivity.
  - unfold LoadValue; cbn [type set d]. rewrite Hparse; cbn [bind].
    destruct (Z.leb_spec 0 raw); [lia |]. reflexivity.
Qed.

Lemma LoadValue_key_witness :
  let c := {| cvars := [sample_key 0 0]; vars := ∅ |} in
  (0 <= 29 < 128 -> scantokey sample_keys !! Z.to_nat 29 = Some 157) /\
  (~ 0 <= 29 < 128 -> 157 = INVALIDKEY) /\
  LoadValue sample_keys 0 "ctrl" 0 (sample_key 0 0) c
  = Ok {| cvars := <[0%nat := sample_key 29 157]> (cvars c);
          vars := <["key_fire" := VInt 157]> (vars c) |}.
Proof.
  exact (LoadValue_key sample_keys 0 "ctrl" "key_fire" "key_fire" 0 0 3 29 0
           {| cvars := [sample_key 0 0]; vars := ∅ |} eq_refl).
Defined.

(** ** The volumes *)

(** C8: after the statements of M_CheckDefaults that derive the volumes,
    [musicVolume] is [(BETWEEN(MUSICVOLUME_MIN, p, MUSICVOLUME_MAX) * 15 +
    50) / 100] in the integer arithmetic of C for the music volume
    percentage [p] that was loaded; the clamped value lies between the
    bounds and is [p] if [p] does, so that 50 gives (50 * 15 + 50) / 100 = 8.
    The bounds are assumed to be far from the ends of the range of [int]. *)
Theorem M_CheckDefaults_musicVolume :
  forall (MUSICVOLUME_MIN MUSICVOLUME_MAX SFXVOLUME_MIN SFXVOLUME_MAX : Z)
         (m : gmap string val) (p q : Z),
    -100000000 <= MUSICVOLUME_MIN <= MUSICVOLUME_MAX ->
    MUSICVOLUME_MAX <= 100000000 ->
    -100000000 <= SFXVOLUME_MIN <= SFXVOLUME_MAX ->
    SFXVOLUME_MAX <= 100000000 ->
    m !! "musicvolume_percent" = Some (VInt p) ->
    m !! "sfxvolume_percent" = Some (VInt q) ->
    let clamped := BETWEEN MUSICVOLUME_MIN p MUSICVOLUME_MAX in
    exists m',
      M_CheckDefaults_volumes MUSICVOLUME_MIN MUSICVOLUME_MAX
        SFXVOLUME_MIN SFXVOLUME_MAX m = Ok m' /\
      m' !! "musicVolume" = Some (VInt ((clamped * 15 + 50) ÷ 100)) /\
      MUSICVOLUME_MIN <= clamped <= MUSICVOLUME_MAX /\
      (MUSICVOLUME_MIN <= p <= MUSICVOLUME_MAX -> clamped = p) /\
      (p = 50 -> MUSICVOLUME_MIN <= 50 <= MUSICVOLUME_MAX ->
       m' !! "musicVolume" = Some (VInt ((50 * 15 + 50) / 100))).
Proof.
  intros MIN MAX SMIN SMAX m p q Hm Hmax Hs Hsmax Hp Hq clamped.
  assert (Hrescale : forall lo x hi, -100000000 <= lo <= hi -> hi <= 100000000 ->
            rescale lo x hi = Ok ((BETWEEN lo x hi * 15 + 50) ÷ 100)
            /\ lo <= BETWEEN lo x hi <= hi).
  { intros lo x hi Hlo Hhi.
    assert (Hb : lo <= BETWEEN lo x hi <= hi).
    { unfold BETWEEN. destruct (Z.ltb_spec x lo); [lia |].
      destruct (Z.ltb_spec hi x); lia. }
    split; [|assumption].
    unfold rescale, int_op, INT_MIN, INT_MAX.
    destruct (Z.leb_spec (- 2 ^ 31) (BETWEEN lo x hi * 15)); [|lia].
    destruct (Z.leb_spec (BETWEEN lo x hi * 15) (2 ^ 31 - 1)); [|lia].
    cbn [andb bind].
    destruct (Z.leb_spec (- 2 ^ 31) (BETWEEN lo x hi * 15 + 50)); [|lia].
    destruct (Z.leb_spec (BETWEEN lo x hi * 15 + 50) (2 ^ 31 - 1)); [|lia].
    cbn [andb bind].
    pose proof (Z.quot_rem' (BETWEEN lo x hi * 15 + 50) 100) as Hqr.
    pose proof (Z.rem_bound_abs (BETWEEN lo x hi * 15 + 50) 100 ltac:(lia)) as Hrem.
    destruct (Z.leb_spec (- 2 ^ 31) ((BETWEEN lo x hi * 15 + 50) ÷ 100)); [|lia].
    destruct (Z.leb_spec ((BETWEEN lo x hi * 15 + 50) ÷ 100) (2 ^ 31 - 1)); [|lia].
    reflexivity. }
  destruct (Hrescale MIN p MAX Hm Hmax) as [Hr Hb].
  destruct (Hrescale SMIN q SMAX Hs Hsmax) as [Hr' _].
  assert (Hin : MIN <= p <= MAX -> clamped = p).
  { intros Hin. subst clamped. unfold BETWEEN.
    destruct (Z.ltb_spec p MIN); [lia |].
    destruct (Z.ltb_spec MAX p); [lia | reflexivity]. }
  eexists. split; [|split; [|split; [|split]]].
  - unfold M_CheckDefaults_volumes, read_int.
    rewrite Hp; cbn [bind]. rewrite Hr; cbn [bind].
    rewrite lookup_insert_ne by discriminate.
    rewrite Hq; cbn [bind]. rewrite Hr'; cbn [bind]. reflexivity.
  - rewrite lookup_insert_ne by discriminate.
    now rewrite lookup_insert_eq.
  - exact Hb.
  - exact Hin.
  - intros -> H50.
    rewrite lookup_insert_ne by discriminate.
    rewrite lookup_insert_eq. fold clamped. now rewrite (Hin H50).
Qed.

Lemma M_CheckDefaults_musicVolume_witness :
  let m : gmap string val :=
    <["musicvolume_percent" := VInt 50]> (<["sfxvolume_percent" := VInt 75]> ∅) in
  exists m',
    M_CheckDefaults_volumes 0 100 0 100 m = Ok m' /\
    m' !! "musicVolume" = Some (VInt ((BETWEEN 0 50 100 * 15 + 50) ÷ 100)) /\
    0 <= BETWEEN 0 50 100 <= 100 /\
    (0 <= 50 <= 100 -> BETWEEN 0 50 100 = 50) /\
    (50 = 50 -> 0 <= 50 <= 100 ->
     m' !! "musicVolume" = Some (VInt ((50 * 15 + 50) / 100))).
Proof.
  apply (M_CheckDefaults_musicVolume 0 100 0 100 _ 50 75);
    try lia; reflexivity.
Defined.

(** ** Saving when the file cannot be opened *)

(** ** Aliases *)

Lemma code_range (c : ascii) : 0 <= code c < 256.
Proof. unfold code. pose proof (nat_ascii_bounded c). lia. Qed.

Lemma tolower_zero (z : Z) : 0 <= z -> tolower z = 0 <-> z = 0.
Proof.
  intros Hz. unfold tolower.
  destruct (Z.leb_spec 65 z); destruct (Z.leb_spec z 90); cbn [andb]; lia.
Qed.

Lemma strcasecmp_folded (s1 s2 : string) :
  strcasecmp s1 s2 = 0 <-> folded s1 = folded s2.
Proof.
  revert s2; induction s1 as [|c1 r1 IH]; intros [|c2 r2]; simpl.
  - tauto.
  - pose proof (code_range c2) as H2.
    pose proof (tolower_zero (code c2) ltac:(lia)) as Ht.
    destruct (Z.eqb_spec (code c2) 0); (split; [|intros E]);
      try reflexivity; try discriminate; lia.
  - pose proof (code_range c1) as H1.
    pose proof (tolower_zero (code c1) ltac:(lia)) as Ht.
    destruct (Z.eqb_spec (code c1) 0); (split; [|intros E]);
      try reflexivity; try discriminate; lia.
  - pose proof (code_range c1) as H1. pose proof (code_range c2) as H2.
    pose proof (tolower_zero (code c1) ltac:(lia)) as Ht1.
    pose proof (tolower_zero (code c2) ltac:(lia)) as Ht2.
    destruct (Z.eqb_spec (tolower (code c1)) (tolower (code c2))) as [E|E].
    + destruct (Z.eqb_spec (code c1) 0) as [E1|E1];
        destruct (Z.eqb_spec (code c2) 0) as [E2|E2]; try lia.
      * tauto.
      * rewrite IH, E. split; [now intros -> | now intros [= ->]].
    + destruct (Z.eqb_spec (code c1) 0) as [E1|E1];
        destruct (Z.eqb_spec (code c2) 0) as [E2|E2];
        (split; [lia |]); try discriminate; try lia.
      intros [= ? ?]. contradiction.
Qed.

Lemma strcasecmp_refl (s : string) : strcasecmp s s = 0.
Proof. now apply strcasecmp_folded. Qed.

Lemma strcasecmp_eqb_congr (s t u : string) :
  strcasecmp s t = 0 -> (strcasecmp s u =? 0) = (strcasecmp t u =? 0).
Proof.
  intros Hst%strcasecmp_folded.
  destruct (Z.eqb_spec (strcasecmp s u) 0) as [H|H];
    destruct (Z.eqb_spec (strcasecmp t u) 0) as [H'|H']; try reflexivity;
    rewrite strcasecmp_folded in *; congruence.
Qed.

(** [alias_loop] returns the first entry that passes the test, if one does
    before the end marker. *)
Lemma alias_loop_first (test : alias_t -> bool) (table : list alias_t)
    (j0 : Z) (j : nat) (a : alias_t) :
  table !! j = Some a -> test a = true ->
  (forall j' b, (j' <= j)%nat -> table !! j' = Some b -> text b <> "") ->
  exists (j1 : nat) (first : alias_t),
    alias_loop test table j0 = Ok (Some first) /\
    (j1 <= j)%nat /\ table !! j1 = Some first /\ test first = true /\
    (forall j' b, (j' < j1)%nat -> table !! j' = Some b -> test b = false).
Proof.
  revert j0 j; induction table as [|x table IH]; intros j0 j Hj Ht Hne;
    [discriminate |].
  simpl. assert (Hx : text x <> "") by (apply (Hne 0%nat); [lia | reflexivity]).
  destruct (text x) eqn:Etx; [congruence |].
  destruct (test x) eqn:Etest.
  - exists 0%nat, x. repeat split; auto; [lia |]. intros; lia.
  - destruct j as [|j]; [simpl in Hj; congruence |].
    destruct (IH (j0 + 1) j Hj Ht) as (j1 & first & Hl & Hle & Hf & Htf & Hb).
    { intros j' b Hj' Hb. apply (Hne (S j')); [lia | exact Hb]. }
    exists (S j1), first. repeat split; auto; [lia |].
    intros [|j'] b Hj' Hb'; [simpl in Hb'; congruence |].
    apply (Hb j'); [lia | exact Hb'].
Qed.

(** What [alias_loop] returns is an entry that passes the test, the first
    one of the table. *)
Lemma alias_loop_found (test : alias_t -> bool) (table : list alias_t)
    (j0 : Z) (a : alias_t) :
  alias_loop test table j0 = Ok (Some a) ->
  exists j : nat,
    table !! j = Some a /\ test a = true /\
    (forall j' b, (j' < j)%nat -> table !! j' = Some b -> test b = false).
Proof.
  revert j0; induction table as [|x table IH]; intros j0; simpl; [discriminate |].
  destruct (text x); [discriminate |].
  destruct (test x) eqn:Etest.
  - intros [= ->]. exists 0%nat. repeat split; auto. intros; lia.
  - intros (j & Hj & Ht & Hb)%IH. exists (S j). repeat split; auto.
    intros [|j'] b Hj' Hb'; [simpl in Hb'; congruence |].
    apply (Hb j'); [lia | exact Hb'].
Qed.

Lemma aliases_before_end_marker (j : nat) (a : alias_t) :
  aliases !! j = Some a -> text a <> "" ->
  forall j' b, (j' <= j)%nat -> aliases !! j' = Some b -> text b <> "".
Proof.
  intros Hj Ha j' b Hj' Hb.
  assert (Hlen : (j < 88)%nat) by (apply lookup_lt_Some in Hj; exact Hj).
  assert (j <> 87%nat) by (intros ->; apply Ha; now injection Hj as <-).
  assert (Hall : aliases_end_marker_last = true) by reflexivity.
  apply andb_true_iff in Hall as [Hall _].
  rewrite forallb_forall in Hall.
  assert (Hin : In b (take 87 aliases)).
  { apply list_elem_of_In, list_elem_of_lookup. exists j'.
    rewrite lookup_take_lt by lia. exact Hb. }
  apply Hall in Hin. apply negb_true_iff, String.eqb_neq in Hin. exact Hin.
Qed.

Lemma aliases_same_text_same_value (j1 j2 : nat) (b c : alias_t) :
  aliases !! j1 = Some b -> aliases !! j2 = Some c ->
  aset b = aset c -> strcasecmp (text b) (text c) = 0 -> value b = value c.
Proof.
  intros Hb Hc Hset Htext.
  assert (Hall : aliases_texts_agree = true) by (vm_compute; reflexivity).
  unfold aliases_texts_agree in Hall. rewrite forallb_forall in Hall.
  assert (Hinb : In b aliases)
    by (apply list_elem_of_In, list_elem_of_lookup; eauto).
  assert (Hinc : In c aliases)
    by (apply list_elem_of_In, list_elem_of_lookup; eauto).
  specialize (Hall b Hinb). rewrite forallb_forall in Hall.
  specialize (Hall c Hinc).
  rewrite Hset, Htext, !Z.eqb_refl in Hall. cbn in Hall.
  now apply Z.eqb_eq.
Qed.

Lemma same_letter_tolower (a b : Z) :
  same_letter a b = true -> tolower a = tolower b.
Proof.
  unfold same_letter, tolower.
  intros [[H%Z.eqb_eq | H]%orb_true_iff | H]%orb_true_iff.
  - now subst.
  - apply andb_true_iff in H as [[H1%Z.leb_le H2%Z.leb_le]%andb_true_iff H3%Z.eqb_eq].
    subst b.
    destruct (Z.leb_spec 65 a); [|lia]. destruct (Z.leb_spec a 90); [|lia].
    destruct (Z.leb_spec 65 (a + 32)); [|lia].
    destruct (Z.leb_spec (a + 32) 90); [lia |]. reflexivity.
  - apply andb_true_iff in H as [[H1%Z.leb_le H2%Z.leb_le]%andb_true_iff H3%Z.eqb_eq].
    subst a.
    destruct (Z.leb_spec 65 b); [|lia]. destruct (Z.leb_spec b 90); [|lia].
    destruct (Z.leb_spec 65 (b + 32)); [|lia].
    destruct (Z.leb_spec (b + 32) 90); [lia |]. reflexivity.
Qed.

(** [strcasecmp] does not tell texts apart that differ in the case of
    letters only. *)
Lemma case_variant_strcasecmp (s t : string) :
  case_variant s t = true -> strcasecmp s t = 0.
Proof.
  revert t; induction s as [|a s IH]; intros [|b t]; cbn [case_variant strcasecmp];
    try discriminate; [reflexivity |].
  intros [Hab Hst]%andb_true_iff.
  rewrite (same_letter_tolower _ _ Hab), Z.eqb_refl.
  destruct (code a =? 0); [reflexivity | now apply IH].
Qed.

(** C7: for every entry of the alias table, an Int or IntPercent setting
    whose set is the entry's and whose value is the entry's value is
    written as the text of the first entry of the table with that value
    and set, not as a number; and ParseIntParameter, which compares texts
    up to case and takes the first entry of the set that matches, maps
    that text, written with its letters in any case, back to the entry's
    value. *)
Theorem alias_precedence :
  forall (K : doomkeys) (parm0 : Z) (j : nat) (a : alias_t),
    aliases !! j = Some a -> text a <> "" ->
    exists (j1 : nat) (first : alias_t),
      (j1 <= j)%nat /\ aliases !! j1 = Some first /\
      value first = value a /\ aset first = aset a /\
      (forall j' b, (j' < j1)%nat -> aliases !! j' = Some b ->
                    ~ (value b = value a /\ aset b = aset a)) /\
      (forall (m : gmap string val) (n l : string) (u o : Z)
              (ty : default_type_t),
          ty = DEFAULT_INT \/ ty = DEFAULT_INT_PERCENT ->
          m !! l = Some (VInt (value a)) ->
          SaveValue K m {| name := n; location := l; type := ty;
                           untranslated := u; original_translated := o;
                           set := aset a |}
          = Ok (text first)) /\
      (forall s : string,
          case_variant s (text first) = true \/ case_variant s (text a) = true ->
          ParseIntParameter K parm0 s (aset a) = Ok (value a)).
Proof.
  intros K parm0 j a Hj Ha.
  pose proof (aliases_before_end_marker j a Hj Ha) as Hne.
  destruct (alias_loop_first
              (λ b, (value a =? value b) && (aset a =? aset b)) aliases 0 j a Hj)
    as (j1 & first & Hloop & Hle & Hfirst & Htest & Hbefore); [|exact Hne|].
  { now rewrite !Z.eqb_refl. }
  apply andb_true_iff in Htest as [Hv%Z.eqb_eq Hs%Z.eqb_eq].
  exists j1, first. repeat split; auto.
  - intros j' b Hj' Hb [Hbv Hbs].
    specialize (Hbefore j' b Hj' Hb). cbv beta in Hbefore.
    rewrite Hbv, Hbs, !Z.eqb_refl in Hbefore. discriminate.
  - intros m n l u o ty Hty Hm.
    unfold SaveValue, read_int, alias_of_int; cbn [type location set].
    destruct Hty as [-> | ->]; rewrite Hm; cbn [bind]; rewrite Hloop; reflexivity.
  - assert (Hparse : forall jx x s,
              aliases !! jx = Some x -> (jx <= j)%nat ->
              value x = value a -> aset x = aset a ->
              case_variant s (text x) = true ->
              ParseIntParameter K parm0 s (aset a) = Ok (value a)).
    { intros jx x s Hx Hjx Hxv Hxs Hcase.
      pose proof (case_variant_strcasecmp _ _ Hcase) as Hcmp.
      destruct (alias_loop_first
                  (λ b, (strcasecmp s (text b) =? 0) && (aset a =? aset b))
                  aliases 0 jx x Hx)
        as (j2 & c & Hloop2 & Hle2 & Hc & Htest2 & _).
      { now rewrite Hcmp, Hxs, !Z.eqb_refl. }
      { intros j' b Hj' Hb. apply (Hne j' b); [lia | exact Hb]. }
      apply andb_true_iff in Htest2 as [Hct%Z.eqb_eq Hcs%Z.eqb_eq].
      unfold ParseIntParameter, alias_of_text.
      rewrite Hloop2; cbn [bind fmap option_fmap option_map].
      rewrite <- Hxv. f_equal. symmetry.
      apply (aliases_same_text_same_value jx j2 x c Hx Hc); [congruence |].
      apply strcasecmp_folded. apply strcasecmp_folded in Hcmp, Hct. congruence. }
    intros s [Hcase | Hcase].
    + apply (Hparse j1 first s Hfirst Hle (eq_sym Hv) (eq_sym Hs) Hcase).
    + apply (Hparse j a s Hj (Nat.le_refl j) eq_refl eq_refl Hcase).
Qed.

(** The entry [LS] of the table, value 256 in set 2: the value is written
    with the text of the first entry of that value and set, and that text
    and [LS] are read as 256 in small letters and in capitals. *)
Lemma alias_precedence_witness :
  SaveValue sample_keys (<["x" := VInt 256]> ∅)
    {| name := "n"; location := "x"; type := DEFAULT_INT;
       untranslated := 0; original_translated := 0; set := 2 |}
  = Ok "leftshoulder" /\
  ParseIntParameter sample_keys 0 "leftshoulder" 2 = Ok 256 /\
  ParseIntParameter sample_keys 0 "LeftShoulder" 2 = Ok 256 /\
  ParseIntParameter sample_keys 0 "LS" 2 = Ok 256 /\
  ParseIntParameter sample_keys 0 "ls" 2 = Ok 256 /\
  ParseIntParameter sample_keys 0 "Ls" 2 = Ok 256.
Proof.
  destruct (alias_precedence sample_keys 0 19 (A "LS" 256 2) eq_refl
              ltac:(discriminate))
    as (j1 & first & _ & _ & _ & _ & _ & Hsave & Hparse).
  pose proof (Hsave (<["x" := VInt 256]> ∅) "n" "x" 0 0 DEFAULT_INT
                (or_introl eq_refl) eq_refl) as E.
  assert (Et : text first = "leftshoulder").
  { vm_compute in E. injection E as E. symmetry. exact E. }
  rewrite Et in E, Hparse.
  split; [exact E |].
  repeat split; apply Hparse; first [left; reflexivity | right; reflexivity].
Defined.

(** ** Integers: printing, then scanning *)

Lemma digits_fold (fuel : nat) (base n : Z) :
  1 < base -> 0 <= n < base ^ Z.of_nat fuel ->
  fold_left (λ a d, a * base + d) (digits fuel base n) 0 = n.
Proof.
  intros Hb. revert n; induction fuel as [|fuel IH]; intros n Hn.
  - simpl in *. lia.
  - simpl. destruct (Z.ltb_spec n base); [simpl; lia |].
    rewrite fold_left_app; simpl. rewrite IH.
    + pose proof (Z.div_mod n base). lia.
    + split; [apply Z.div_pos; lia |].
      apply Z.div_lt_upper_bound; [lia |].
      rewrite Nat2Z.inj_succ, Z.pow_succ_r in Hn by lia. lia.
Qed.

Lemma utoa_fuel (base n : Z) :
  1 < base -> 0 <= n -> n < base ^ Z.of_nat (S (Z.to_nat (Z.log2 n))).
Proof.
  intros Hb Hn. rewrite Nat2Z.inj_succ, Z2Nat.id by apply Z.log2_nonneg.
  destruct (Z.eq_dec n 0) as [-> | Hn0].
  - simpl. lia.
  - pose proof (Z.log2_spec n ltac:(lia)) as [_ Hlt].
    eapply Z.lt_le_trans; [exact Hlt |].
    apply Z.pow_le_mono_l. lia.
Qed.

Lemma digits_length (fuel : nat) (base n : Z) (k : nat) :
  1 < base -> 0 <= n < base ^ Z.of_nat k -> (0 < k)%nat ->
  (length (digits fuel base n) <= k)%nat.
Proof.
  intros Hb. revert n k; induction fuel as [|fuel IH]; intros n k Hn Hk; simpl.
  - lia.
  - destruct (Z.ltb_spec n base); [simpl; lia |].
    destruct k as [|[|k]]; [lia | simpl in Hn; lia |].
    rewrite length_app; simpl.
    enough (length (digits fuel base (n / base)) <= S k)%nat by lia.
    apply IH; [|lia]. split; [apply Z.div_pos; lia |].
    apply Z.div_lt_upper_bound; [lia |].
    rewrite (Nat2Z.inj_succ (S k)), Z.pow_succ_r in Hn by lia. lia.
Qed.

Lemma digits_head (fuel : nat) (base n : Z) :
  1 < base -> 0 < n < base ^ Z.of_nat fuel ->
  exists d l, digits fuel base n = d :: l /\ 0 < d.
Proof.
  intros Hb. revert n; induction fuel as [|fuel IH]; intros n Hn.
  - simpl in Hn. lia.
  - simpl. destruct (Z.ltb_spec n base); [exists n, []; split; [reflexivity | lia] |].
    destruct (IH (n / base)) as (d & l & -> & Hd).
    + split; [apply Z.div_str_pos; lia |].
      apply Z.div_lt_upper_bound; [lia |].
      rewrite Nat2Z.inj_succ, Z.pow_succ_r in Hn by lia. lia.
    + exists d, (l ++ [n mod base]). split; [reflexivity | exact Hd].
Qed.

Lemma digit_val_digit_char (d : Z) :
  0 <= d < 16 -> digit_val (code (digit_char d)) = d.
Proof.
  intros Hd. rewrite code_digit_char by assumption.
  unfold digit_val, isdigit.
  destruct (Z.ltb_spec d 10).
  - destruct (Z.leb_spec 48 (48 + d)); destruct (Z.leb_spec (48 + d) 57);
      cbn [andb]; lia.
  - destruct (Z.leb_spec 48 (87 + d)); destruct (Z.leb_spec (87 + d) 57);
      destruct (Z.leb_spec 97 (87 + d)); destruct (Z.leb_spec (87 + d) 102);
      cbn [andb]; lia.
Qed.

Lemma scan_digits_nil (base : Z) (width : nat) (acc : option Z) :
  scan_digits base width "" acc = acc.
Proof. destruct width; reflexivity. Qed.

(** Scanning a string of digit characters gives back the number they
    denote, if the field is wide enough. *)
Lemma scan_digits_chars (base : Z) (l : list Z) :
  1 < base <= 16 -> Forall (λ d, 0 <= d < base) l ->
  forall (width : nat) (acc : option Z),
    (length l <= width)%nat -> l <> [] ->
    scan_digits base width (string_of_chars (map digit_char l)) acc
    = Some (fold_left (λ a d, a * base + d) l (default 0 acc)).
Proof.
  intros Hb. induction 1 as [|d l Hd Hl IH]; intros width acc Hw Hne;
    [congruence |].
  destruct width as [|width]; [simpl in Hw; lia |].
  simpl. rewrite digit_val_digit_char by lia.
  destruct (Z.ltb_spec d base); [|lia].
  destruct l as [|d' l].
  - simpl. apply scan_digits_nil.
  - rewrite IH; [reflexivity | simpl in *; lia | discriminate].
Qed.

(** What the lemmas below use of the digits of [n]. *)
Lemma utoa_shape (base n : Z) :
  1 < base <= 16 -> 0 < n ->
  exists d l,
    utoa base n = String (digit_char d) (string_of_chars (map digit_char l)) /\
    0 < d < base /\
    (forall k width : nat,
        n < base ^ Z.of_nat k -> (0 < k <= width)%nat ->
        scan_digits base width (utoa base n) None = Some n).
Proof.
  intros Hb Hn. unfold utoa.
  pose proof (utoa_fuel base n ltac:(lia) ltac:(lia)) as Hfuel.
  set (fuel := S (Z.to_nat (Z.log2 n))) in *.
  destruct (digits_head fuel base n ltac:(lia) ltac:(lia)) as (d & l & E & Hd).
  pose proof (digits_range fuel base n ltac:(lia) ltac:(lia)) as Hr.
  exists d, l. rewrite E. split; [reflexivity |].
  split; [rewrite E in Hr; inversion Hr; subst; lia |].
  intros k width Hk Hw. rewrite <- E.
  rewrite scan_digits_chars; auto.
  - f_equal. apply (digits_fold fuel base n); lia.
  - pose proof (digits_length fuel base n k ltac:(lia) ltac:(lia) ltac:(lia)). lia.
  - rewrite E. discriminate.
Qed.

Lemma leading_digit_code (d : Z) :
  0 < d < 16 ->
  let c := code (digit_char d) in
  isspace c = false /\ (c =? 45) = false /\ (c =? 43) = false /\
  (c =? 48) = false.
Proof.
  intros Hd c. subst c. rewrite code_digit_char by lia. unfold isspace.
  destruct (Z.ltb_spec d 10);
    repeat match goal with
           | |- context [?a =? ?b] => destruct (Z.eqb_spec a b); try lia
           | |- context [?a <=? ?b] => destruct (Z.leb_spec a b); try lia
           end; auto.
Qed.

(** The scan of a number that starts with a digit other than [0]: no
    prefix, base ten for ["%i"]. *)
Lemma scan_magnitude_leading_digit (base : Z) (width : nat) (d : Z) (r : string) :
  0 < d < 16 ->
  let s := String (digit_char d) r in
  scan_magnitude base width s
  = match scan_digits (if base =? 0 then 10 else base) width s None with
    | Some v => Ok (Matched v)
    | None => Ok NoMatch
    end.
Proof.
  intros Hd s. subst s.
  destruct (leading_digit_code d Hd) as (Hsp & Hm & Hp & Hz).
  unfold scan_magnitude.
  assert (H0x : has_0x (String (digit_char d) r) width = false).
  { unfold has_0x. destruct r, width as [|[|width]]; try reflexivity. now rewrite Hz. }
  rewrite H0x. cbn [andb starts_with_0]. rewrite Hz. reflexivity.
Qed.

Lemma scan_sign_leading_digit (width : nat) (d : Z) (r : string) :
  0 < d < 16 ->
  let s := String (digit_char d) r in
  scan_sign (skip_space s) width = (false, s, width).
Proof.
  intros Hd s. subst s.
  destruct (leading_digit_code d Hd) as (Hsp & Hm & Hp & Hz).
  cbn [skip_space]. rewrite Hsp. destruct width; cbn [scan_sign]; [reflexivity |].
  now rewrite Hm, Hp.
Qed.

Lemma sscanf_10i_printf_i (v : Z) :
  - 10 ^ 9 < v <= INT_MAX -> sscanf_10i (printf_i v) = Ok (Matched v).
Proof.
  intros Hv. unfold INT_MAX in Hv. unfold sscanf_10i, printf_i, scan_integer.
  destruct (Z.ltb_spec v 0).
  - destruct (utoa_shape 10 (- v)) as (d & l & E & Hd & Hscan); [lia | lia |].
    cbn [skip_space]. change (isspace (code "-")) with false.
    cbn [scan_sign]. change (code "-" =? 45) with true. cbv iota beta.
    pose proof (scan_magnitude_leading_digit 0 9 d
                  (string_of_chars (map digit_char l)) ltac:(lia)) as H9.
    cbv zeta in H9. rewrite <- E in H9. rewrite H9. cbn [Z.eqb].
    rewrite (Hscan 9%nat 9%nat); [|lia | lia]. cbn [bind].
    rewrite Z.opp_involutive. unfold INT_MIN, INT_MAX.
    destruct (Z.leb_spec (- 2 ^ 31) v); [|lia].
    destruct (Z.leb_spec v (2 ^ 31 - 1)); [reflexivity | lia].
  - destruct (Z.eq_dec v 0) as [-> | Hv0]; [reflexivity |].
    destruct (utoa_shape 10 v) as (d & l & E & Hd & Hscan); [lia | lia |].
    pose proof (scan_sign_leading_digit 10 d
                  (string_of_chars (map digit_char l)) ltac:(lia)) as Hsign.
    pose proof (scan_magnitude_leading_digit 0 10 d
                  (string_of_chars (map digit_char l)) ltac:(lia)) as H10.
    cbv zeta in Hsign, H10. rewrite <- E in Hsign, H10.
    rewrite Hsign, H10. cbn [Z.eqb].
    rewrite (Hscan 10%nat 10%nat); [|lia | lia]. cbn [bind].
    unfold INT_MIN, INT_MAX.
    destruct (Z.leb_spec (- 2 ^ 31) v); [|lia].
    destruct (Z.leb_spec v (2 ^ 31 - 1)); [reflexivity | lia].
Qed.

Lemma wrap32_to_unsigned (v : Z) : is_int v -> wrap32 (to_unsigned v) = v.
Proof.
  unfold is_int, INT_MIN, INT_MAX, wrap32, to_unsigned. intros Hv.
  rewrite Zplus_mod_idemp_l.
  rewrite Z.mod_small; lia.
Qed.

Lemma sscanf_10x_printf_x (v : Z) :
  is_int v -> sscanf_10x (printf_x v) = Ok (Matched v).
Proof.
  intros Hv. unfold sscanf_10x, printf_x, scan_integer.
  pose proof (wrap32_to_unsigned v Hv) as Hwrap.
  assert (Hu : 0 <= to_unsigned v < 2 ^ 32)
    by (unfold to_unsigned; apply Z.mod_pos_bound; lia).
  destruct (Z.eq_dec (to_unsigned v) 0) as [E0 | Hu0].
  - rewrite E0 in *. rewrite <- Hwrap. reflexivity.
  - destruct (utoa_shape 16 (to_unsigned v)) as (d & l & E & Hd & Hscan); [lia | lia |].
    pose proof (scan_sign_leading_digit 10 d
                  (string_of_chars (map digit_char l)) ltac:(lia)) as Hsign.
    pose proof (scan_magnitude_leading_digit 16 10 d
                  (string_of_chars (map digit_char l)) ltac:(lia)) as H10.
    cbv zeta in Hsign, H10. rewrite <- E in Hsign, H10.
    rewrite Hsign, H10. cbn [Z.eqb].
    rewrite (Hscan 8%nat 10%nat); [|simpl; lia | lia]. cbn [bind].
    unfold UINT_MAX. destruct (Z.leb_spec (to_unsigned v) (2 ^ 32 - 1)); [|lia].
    now rewrite Hwrap.
Qed.

(** ** Texts that no alias claims *)

Lemma code_inj (c1 c2 : ascii) : code c1 = code c2 -> c1 = c2.
Proof.
  unfold code. intros H.
  rewrite <- (ascii_nat_embedding c1), <- (ascii_nat_embedding c2).
  f_equal. lia.
Qed.

Lemma tolower_not_upper (c : Z) : not_upper_nor_nul c = true -> tolower c = c /\ c <> 0.
Proof.
  unfold not_upper_nor_nul, tolower.
  repeat match goal with
         | |- context [?a =? ?b] => destruct (Z.eqb_spec a b); try lia
         | |- context [?a <=? ?b] => destruct (Z.leb_spec a b); try lia
         end; cbn; intros; try discriminate; split; lia.
Qed.

(** Two texts without capital letters and NULs that [strcasecmp] finds equal
    are the same text. *)
Lemma strcasecmp_exact (s t : string) :
  string_forall not_upper_nor_nul s = true ->
  string_forall not_upper_nor_nul t = true ->
  strcasecmp s t = 0 -> s = t.
Proof.
  intros Hs Ht Hcmp%strcasecmp_folded. revert t Ht Hcmp.
  induction s as [|c s IH]; intros [|c' t] Ht Hcmp; simpl in *.
  - reflexivity.
  - apply andb_true_iff in Ht as [Hc' _].
    apply tolower_not_upper in Hc' as [_ Hc'].
    destruct (Z.eqb_spec (code c') 0); [lia | discriminate].
  - apply andb_true_iff in Hs as [Hc _].
    apply tolower_not_upper in Hc as [_ Hc].
    destruct (Z.eqb_spec (code c) 0); [lia | discriminate].
  - apply andb_true_iff in Hs as [Hc Hs]. apply andb_true_iff in Ht as [Hc' Ht].
    apply tolower_not_upper in Hc as [Hlc Hc].
    apply tolower_not_upper in Hc' as [Hlc' Hc'].
    destruct (Z.eqb_spec (code c) 0); [lia |].
    destruct (Z.eqb_spec (code c') 0); [lia |].
    injection Hcmp as Hcc Hrest. rewrite Hlc, Hlc' in Hcc.
    f_equal; [now apply code_inj | now apply IH].
Qed.

Lemma alias_loop_end_marker (test : alias_t -> bool) (table : list alias_t)
    (j : Z) :
  Exists (λ a, text a = "") table -> exists r, alias_loop test table j = Ok r.
Proof.
  intros Hex. revert j; induction Hex as [a l Ha | a l Hex IH]; intros j; simpl.
  - rewrite Ha. eauto.
  - destruct (text a); [eauto |]. destruct (test a); [eauto | apply IH].
Qed.

Lemma alias_loop_aliases (test : alias_t -> bool) :
  exists r, alias_loop test aliases 0 = Ok r.
Proof.
  apply alias_loop_end_marker. apply Exists_exists.
  exists (A "" 0 0). split; [|reflexivity].
  apply list_elem_of_lookup. now exists 87%nat.
Qed.

Lemma numeric_not_upper (c : Z) : numeric c = true -> not_upper_nor_nul c = true.
Proof.
  unfold numeric, not_upper_nor_nul, isdigit.
  repeat match goal with
         | |- context [?a =? ?b] => destruct (Z.eqb_spec a b); try lia
         | |- context [?a <=? ?b] => destruct (Z.leb_spec a b); try lia
         end; cbn; congruence.
Qed.

Lemma folded_numeric (s : string) :
  string_forall numeric s = true -> forallb numeric (folded s) = true.
Proof.
  induction s as [|c s IH]; simpl; [reflexivity |].
  intros [Hc Hs]%andb_true_iff.
  destruct (tolower_not_upper _ (numeric_not_upper _ Hc)) as [Hl H0].
  destruct (Z.eqb_spec (code c) 0); [lia |].
  simpl. now rewrite Hl, Hc, IH.
Qed.

Lemma printf_i_numeric (v : Z) : string_forall numeric (printf_i v) = true.
Proof.
  unfold printf_i. destruct (v <? 0) eqn:E.
  - apply Z.ltb_lt in E. simpl.
    eapply string_forall_impl; [|apply utoa_decimal_digits; lia].
    intros z Hz. unfold numeric. now rewrite Hz.
  - apply Z.ltb_ge in E.
    eapply string_forall_impl; [|apply utoa_decimal_digits; lia].
    intros z Hz. unfold numeric. now rewrite Hz.
Qed.

Lemma alias_of_text_cases (s : string) (set : Z) :
  alias_of_text s set = Ok None \/
  exists j b, aliases !! j = Some b /\ alias_of_text s set = Ok (Some (value b)) /\
              strcasecmp s (text b) = 0 /\ set = aset b.
Proof.
  unfold alias_of_text.
  destruct (alias_loop_aliases
              (λ a, (strcasecmp s (text a) =? 0) && (set =? aset a)))
    as [[b|] Hloop]; rewrite Hloop; cbn [bind]; [right | left; reflexivity].
  destruct (alias_loop_found _ _ _ _ Hloop) as (j & Hj & Htest & _).
  apply andb_true_iff in Htest as [Hc%Z.eqb_eq Hs%Z.eqb_eq].
  exists j, b. repeat split; auto.
Qed.

(** A number written by ["%i"] is read as itself or, where an alias has
    the same text, as the value of that alias, which is the same. *)
Lemma alias_of_text_printf_i (v set : Z) :
  - 10 ^ 9 < v <= INT_MAX ->
  alias_of_text (printf_i v) set = Ok None \/
  alias_of_text (printf_i v) set = Ok (Some v).
Proof.
  intros Hv.
  destruct (alias_of_text_cases (printf_i v) set)
    as [H | (j & b & Hj & H & Hcmp & Hset)]; [now left | right].
  rewrite H. do 2 f_equal.
  assert (Hall : aliases_numerals_agree = true) by (vm_compute; reflexivity).
  unfold aliases_numerals_agree in Hall. rewrite forallb_forall in Hall.
  specialize (Hall b ltac:(apply list_elem_of_In, list_elem_of_lookup; eauto)).
  pose proof (printf_i_numeric v) as Hnum.
  assert (Hfold : forallb numeric (folded (text b)) = true).
  { apply strcasecmp_folded in Hcmp. rewrite <- Hcmp. now apply folded_numeric. }
  rewrite Hfold in Hall. cbn [implb] in Hall.
  apply andb_true_iff in Hall as [Hb Hscan].
  apply strcasecmp_exact in Hcmp; auto.
  - rewrite <- Hcmp, sscanf_10i_printf_i in Hscan by assumption.
    now apply Z.eqb_eq in Hscan.
  - eapply string_forall_impl; [apply numeric_not_upper | exact Hnum].
Qed.

Lemma substring_all (s : string) : String.substring 0 (String.length s) s = s.
Proof. induction s as [|c s IH]; simpl; [reflexivity | now rewrite IH]. Qed.

Lemma printf_i_nonempty (v : Z) : printf_i v <> "".
Proof.
  unfold printf_i. destruct (v <? 0) eqn:E; [discriminate |].
  apply Z.ltb_ge in E. destruct (Z.eq_dec v 0) as [-> | Hv]; [discriminate |].
  destruct (utoa_shape 10 v) as (d & l & -> & _); [lia | lia | discriminate].
Qed.

(** ParseIntParameter on a text of digits and minus signs that is no
    alias: the text goes to ["%10i"]. *)
Lemma ParseIntParameter_numeric (K : doomkeys) (parm0 : Z) (s : string) (set : Z) :
  s <> "" -> string_forall numeric s = true ->
  alias_of_text s set = Ok None ->
  ParseIntParameter K parm0 s set
  = (r <- sscanf_10i s ;;
     match r with
     | Matched parm => Ok parm
     | NoMatch => Ok parm0
     end).
Proof.
  intros Hne Hnum Halias. unfold ParseIntParameter. rewrite Halias; cbn [bind].
  destruct s as [|a r]; [congruence |].
  simpl in Hnum. apply andb_true_iff in Hnum as [Ha Hr].
  cbn [char_at bind].
  assert (Hq : (code a =? ch "'") = false).
  { change (ch "'") with 39. unfold numeric, isdigit in Ha.
    destruct (Z.eqb_spec (code a) 39) as [E|]; [|reflexivity].
    rewrite E in Ha. discriminate. }
  rewrite Hq; cbn [bind].
  destruct (code a =? ch "0") eqn:E0; [|reflexivity].
  destruct r as [|b r]; [reflexivity |].
  simpl in Hr. apply andb_true_iff in Hr as [Hb _].
  cbn [char_at bind].
  assert (Hx : (code b =? ch "x") = false).
  { change (ch "x") with 120. unfold numeric, isdigit in Hb.
    destruct (Z.eqb_spec (code b) 120) as [E|]; [|reflexivity].
    rewrite E in Hb. discriminate. }
  now rewrite Hx.
Qed.

Lemma ParseIntParameter_printf_i (K : doomkeys) (parm0 v set : Z) :
  - 10 ^ 9 < v <= INT_MAX -> ParseIntParameter K parm0 (printf_i v) set = Ok v.
Proof.
  intros Hv.
  destruct (alias_of_text_printf_i v set Hv) as [H | H].
  - rewrite ParseIntParameter_numeric;
      auto using printf_i_nonempty, printf_i_numeric.
    now rewrite sscanf_10i_printf_i.
  - unfold ParseIntParameter. now rewrite H.
Qed.

Lemma alias_of_text_0x (h : string) (set : Z) :
  alias_of_text ("0x" +:+ h) set = Ok None.
Proof.
  destruct (alias_of_text_cases ("0x" +:+ h) set)
    as [H | (j & b & Hj & H & Hcmp & Hset)]; [assumption | exfalso].
  assert (Hall : aliases_no_0x = true) by (vm_compute; reflexivity).
  unfold aliases_no_0x in Hall. rewrite forallb_forall in Hall.
  specialize (Hall b ltac:(apply list_elem_of_In, list_elem_of_lookup; eauto)).
  apply strcasecmp_folded in Hcmp. rewrite <- Hcmp in Hall.
  discriminate Hall.
Qed.

Lemma ParseIntParameter_printf_x (K : doomkeys) (parm0 v set : Z) :
  is_int v -> ParseIntParameter K parm0 ("0x" +:+ printf_x v) set = Ok v.
Proof.
  intros Hv. unfold ParseIntParameter. rewrite alias_of_text_0x; cbn [bind].
  rewrite !append_cons, append_nil_l. cbn [char_at bind].
  change (code "0" =? ch "'") with false. cbn [bind].
  change (code "0" =? ch "0") with true. cbn [bind].
  change (code "x" =? ch "x") with true.
  cbn [String.length]. 
  replace (S (S (String.length (printf_x v))) - 2)%nat
    with (String.length (printf_x v)) by lia.
  cbn [String.substring]. rewrite substring_all.
  now rewrite sscanf_10x_printf_x.
Qed.

(** ** Texts that keep their last character *)

Lemma strip_nonprintable_snoc (s : string) (c : ascii) :
  isprint (code c) = true ->
  strip_nonprintable (s +:+ String c "") = s +:+ String c "".
Proof.
  intros Hc. string_ind s.
  - now rewrite Hc.
  - rewrite IH. destruct s; reflexivity.
Qed.

Lemma strip_nonprintable_last (s : string) (c : ascii) :
  last_char s = Some c -> isprint (code c) = true -> strip_nonprintable s = s.
Proof.
  intros Hl Hc. destruct (string_snoc s) as (s' & c' & ->).
  - intros ->. discriminate.
  - rewrite last_char_snoc in Hl. injection Hl as ->.
    now apply strip_nonprintable_snoc.
Qed.

Lemma last_char_forall (p : Z -> bool) (s : string) (c : ascii) :
  string_forall p s = true -> last_char s = Some c -> p (code c) = true.
Proof.
  induction s as [|a s IH]; simpl; [discriminate |].
  intros [Ha Hs]%andb_true_iff. destruct s; [now intros [= <-] | now apply IH].
Qed.

Lemma last_char_nonempty (s : string) : s <> "" -> exists c, last_char s = Some c.
Proof.
  intros Hne. destruct (string_snoc s Hne) as (s' & c & ->).
  exists c. apply last_char_snoc.
Qed.

(** An alias found by value, as SaveDefaultCollection finds it: where it is
    in the table, and that ParseIntParameter reads its text as the value. *)
Lemma alias_of_int_found (v set : Z) (t : string) :
  alias_of_int v set = Ok (Some t) ->
  exists j b, aliases !! j = Some b /\ text b = t /\ value b = v /\
              aset b = set /\ t <> "".
Proof.
  unfold alias_of_int. intros (a & Hloop & [= Ht])%bind_inv.
  destruct a as [b|]; [|discriminate]. injection Ht as <-.
  destruct (alias_loop_found _ _ _ _ Hloop) as (j & Hj & Htest & _).
  apply andb_true_iff in Htest as [Hv%Z.eqb_eq Hs%Z.eqb_eq].
  exists j, b. repeat split; auto.
  revert Hloop. generalize 0 at 1. clear.
  induction aliases as [|x l IH]; intros j0; simpl; [discriminate |].
  destruct (text x) eqn:Ex; [discriminate |].
  destruct (_ && _); [|apply IH].
  intros [= <-]. congruence.
Qed.

Lemma alias_of_int_cases (v set : Z) :
  alias_of_int v set = Ok None \/ exists t, alias_of_int v set = Ok (Some t).
Proof.
  unfold alias_of_int.
  destruct (alias_loop_aliases (λ a, (v =? value a) && (set =? aset a)))
    as [[b|] ->]; cbn [bind]; eauto.
Qed.

Lemma ParseIntParameter_alias (K : doomkeys) (parm0 : Z) (j : nat) (b : alias_t)
    (s : string) :
  aliases !! j = Some b -> text b <> "" -> strcasecmp s (text b) = 0 ->
  ParseIntParameter K parm0 s (aset b) = Ok (value b).
Proof.
  intros Hj Hne Hcmp.
  destruct (alias_loop_first
              (λ a, (strcasecmp s (text a) =? 0) && (aset b =? aset a))
              aliases 0 j b Hj)
    as (j2 & c & Hloop & _ & Hc & Htest & _).
  { now rewrite Hcmp, !Z.eqb_refl. }
  { apply (aliases_before_end_marker j b Hj Hne). }
  apply andb_true_iff in Htest as [Hct%Z.eqb_eq Hcs%Z.eqb_eq].
  unfold ParseIntParameter, alias_of_text.
  rewrite Hloop; cbn [bind fmap option_fmap option_map].
  f_equal. symmetry.
  apply (aliases_same_text_same_value j j2 b c Hj Hc Hcs).
  apply strcasecmp_folded. apply strcasecmp_folded in Hcmp, Hct. congruence.
Qed.

Lemma alias_last_char (j : nat) (b : alias_t) :
  aliases !! j = Some b -> text b <> "" ->
  exists c, last_char (text b) = Some c /\ (code c =? 37) = false /\
            isprint (code c) = true.
Proof.
  intros Hj Hne.
  assert (Hall : aliases_last_char_ok = true) by (vm_compute; reflexivity).
  unfold aliases_last_char_ok in Hall. rewrite forallb_forall in Hall.
  specialize (Hall b ltac:(apply list_elem_of_In, list_elem_of_lookup; eauto)).
  destruct (last_char_nonempty _ Hne) as [c Hc]. rewrite Hc in Hall.
  apply andb_true_iff in Hall as [H1%negb_true_iff H2]. eauto.
Qed.

(** ** Floating-point numbers that are rounded to themselves *)

Lemma pow2_num_pos (e : Z) : 0 < pow2_num e.
Proof. unfold pow2_num. apply Z.pow_pos_nonneg; lia. Qed.

Lemma pow2_den_pos (e : Z) : 0 < pow2_den e.
Proof. unfold pow2_den. apply Z.pow_pos_nonneg; lia. Qed.

(** [2 ^ t / 2 ^ s = 2 ^ (t - s)] *)
Lemma pow2_shift (s t : Z) :
  s <= t -> pow2_num t * pow2_den s = 2 ^ (t - s) * pow2_num s * pow2_den t.
Proof.
  intros Hst. unfold pow2_num, pow2_den.
  rewrite <- !Z.pow_add_r by lia. f_equal. lia.
Qed.

(** [2 ^ x / 2 ^ y = 2 ^ (x - y)] for natural exponents *)
Lemma pow2_ratio (x y : Z) :
  0 <= x -> 0 <= y -> 2 ^ x * pow2_den (x - y) = 2 ^ y * pow2_num (x - y).
Proof.
  intros Hx Hy. unfold pow2_num, pow2_den.
  rewrite <- !Z.pow_add_r by lia. f_equal. lia.
Qed.

(** [log2_frac n d] is not above the logarithm of [n / d]. *)
Lemma log2_frac_lower (n d : Z) :
  0 < n -> 0 < d ->
  d * pow2_num (log2_frac n d) <= n * pow2_den (log2_frac n d).
Proof.
  intros Hn Hd. unfold log2_frac.
  set (e := Z.log2 n - Z.log2 d).
  destruct (Z.leb_spec (d * pow2_num e) (n * pow2_den e)); [assumption |].
  pose proof (Z.log2_spec n Hn) as [Hn1 _].
  pose proof (Z.log2_spec d Hd) as [_ Hd2].
  pose proof (Z.log2_nonneg n). pose proof (Z.log2_nonneg d).
  pose proof (pow2_ratio (Z.log2 n) (Z.succ (Z.log2 d)) ltac:(lia) ltac:(lia)) as Hr.
  replace (Z.log2 n - Z.succ (Z.log2 d)) with (e - 1) in Hr by (subst e; lia).
  pose proof (pow2_num_pos (e - 1)). pose proof (pow2_den_pos (e - 1)).
  assert (0 < 2 ^ Z.succ (Z.log2 d)) by (apply Z.pow_pos_nonneg; lia).
  assert (0 < 2 ^ Z.log2 n) by (apply Z.pow_pos_nonneg; lia).
  apply Z.lt_le_incl.
  apply (Z.mul_lt_mono_pos_l (2 ^ Z.succ (Z.log2 d))); [assumption |].
  assert (Hlt : d * 2 ^ Z.log2 n < 2 ^ Z.succ (Z.log2 d) * n) by nia.
  assert (HA : 2 ^ Z.succ (Z.log2 d) * (d * pow2_num (e - 1))
               = d * 2 ^ Z.log2 n * pow2_den (e - 1)).
  { transitivity (d * (2 ^ Z.succ (Z.log2 d) * pow2_num (e - 1))); [ring |].
    rewrite <- Hr. ring. }
  rewrite HA. nia.
Qed.

(** A number [M * 2 ^ E] that the format holds is rounded to itself. *)
Lemma round_frac_exact (prec emin emax n d M E : Z) :
  0 < prec -> 0 < d -> n <> 0 ->
  0 < M < 2 ^ prec -> emin <= E -> E <= emax - prec ->
  Z.abs n * pow2_den E = M * pow2_num E * d ->
  exists m e,
    round_frac prec emin emax n d = Ok (Float (Z.sgn n * m) e) /\
    e <= E /\ m = M * 2 ^ (E - e).
Proof.
  intros Hprec Hd Hn HM Hemin Hemax Hval.
  unfold round_frac. destruct (Z.eqb_spec n 0); [contradiction |].
  set (a := Z.abs n) in *. assert (Ha : 0 < a) by (subst a; lia).
  set (fl := log2_frac a d).
  pose proof (log2_frac_lower a d Ha Hd) as Hlow. fold fl in Hlow.
  assert (Hfl : fl < prec + E).
  { destruct (Z.lt_ge_cases fl (prec + E)) as [|Hge]; [assumption | exfalso].
    set (g := prec + E) in *.
    pose proof (pow2_shift g fl Hge) as Hs1.
    pose proof (pow2_shift E g ltac:(lia)) as Hs2.
    replace (g - E) with prec in Hs2 by (subst g; lia).
    pose proof (pow2_den_pos fl) as Hq1. pose proof (pow2_num_pos E) as Hq2.
    pose proof (pow2_den_pos E) as Hq3. pose proof (pow2_den_pos g) as Hq4.
    assert (Hone : 1 <= 2 ^ (fl - g))
      by (apply Z.pow_le_mono_r with (b := 0); lia).
    set (T := d * pow2_den fl * pow2_num E * pow2_den g).
    assert (HT : 0 < T) by (subst T; repeat apply Z.mul_pos_pos; assumption).
    assert (HL : d * pow2_num fl * pow2_den g * pow2_den E
                 = 2 ^ (fl - g) * 2 ^ prec * T).
    { transitivity (d * (pow2_num fl * pow2_den g) * pow2_den E); [ring |].
      rewrite Hs1.
      transitivity (d * 2 ^ (fl - g) * pow2_den fl * (pow2_num g * pow2_den E));
        [ring |].
      rewrite Hs2. subst T. ring. }
    assert (HR : a * pow2_den fl * pow2_den g * pow2_den E = M * T).
    { transitivity (a * pow2_den E * pow2_den fl * pow2_den g); [ring |].
      rewrite Hval. subst T. ring. }
    assert (Hle : d * pow2_num fl * pow2_den g * pow2_den E
                  <= a * pow2_den fl * pow2_den g * pow2_den E).
    { apply Z.mul_le_mono_nonneg_r; [lia |].
      apply Z.mul_le_mono_nonneg_r; [lia | exact Hlow]. }
    rewrite HL, HR in Hle.
    apply Z.mul_le_mono_pos_r in Hle; [|assumption].
    assert (0 < 2 ^ prec) by (apply Z.pow_pos_nonneg; lia).
    nia. }
  set (e := Z.max emin (fl - prec + 1)).
  assert (He : e <= E) by (subst e; lia).
  pose proof (pow2_shift e E He) as Hs.
  pose proof (pow2_num_pos e). pose proof (pow2_den_pos e).
  pose proof (pow2_num_pos E). pose proof (pow2_den_pos E).
  assert (Hexact : a * pow2_den e = M * 2 ^ (E - e) * (d * pow2_num e)).
  { apply (Z.mul_cancel_r _ _ (pow2_den E)); [lia |].
    transitivity (a * pow2_den E * pow2_den e); [ring |].
    rewrite Hval.
    transitivity (M * d * (pow2_num E * pow2_den e)); [ring |].
    rewrite Hs. ring. }
  rewrite Hexact, round_half_even_exact; [|nia | apply Z.mod_mul; nia].
  rewrite Z.div_mul by nia.
  assert (Hp : 0 < 2 ^ (E - e)) by (apply Z.pow_pos_nonneg; lia).
  destruct (Z.leb_spec (2 ^ (emax - e)) (M * 2 ^ (E - e))) as [Hover|].
  - exfalso.
    replace (emax - e) with ((emax - E) + (E - e)) in Hover by lia.
    rewrite Z.pow_add_r in Hover by lia.
    assert (2 ^ prec <= 2 ^ (emax - E)) by (apply Z.pow_le_mono_r; lia).
    nia.
  - eauto.
Qed.

Lemma Feqb_refl (x : float) : Feqb x x = true.
Proof. unfold Feqb. destruct (Ffrac x). apply Z.eqb_refl. Qed.

Lemma Feqb_sym (x y : float) : Feqb x y = Feqb y x.
Proof.
  unfold Feqb. destruct (Ffrac x), (Ffrac y). apply Z.eqb_sym.
Qed.

(** The decimal number [n / 10 ^ k], if it is the [float] [x], is read as
    [x]: [atof] rounds it to the [double] [x], the conversion to [float]
    keeps it. *)
Lemma decimal_of_float_exact (x : float) (n k : Z) :
  is_binary32 x -> 0 <= k ->
  n * pow2_den (Fexp x) = Fnum x * pow2_num (Fexp x) * 10 ^ k ->
  exists y,
    (r <- round_double n (10 ^ k) ;; float_of_double r) = Ok y /\
    Feqb x y = true.
Proof.
  intros [HM HE] Hk Hval.
  pose proof (pow2_num_pos (Fexp x)) as Hp. pose proof (pow2_den_pos (Fexp x)) as Hq.
  assert (H10 : 0 < 10 ^ k) by (apply Z.pow_pos_nonneg; lia).
  destruct (Z.eq_dec (Fnum x) 0) as [Hz | Hnz].
  - assert (n = 0) by (rewrite Hz in Hval; nia). subst n.
    exists (Float 0 0). split; [reflexivity |].
    unfold Feqb, Ffrac; simpl. rewrite Hz. apply Z.eqb_eq. ring.
  - assert (Hn : n <> 0) by (intros ->; nia).
    assert (Hsgn : Z.sgn n = Z.sgn (Fnum x)).
    { pose proof (f_equal Z.sgn Hval) as Hs.
      rewrite !Z.sgn_mul, (Z.sgn_pos (pow2_den _)), (Z.sgn_pos (pow2_num _)),
        (Z.sgn_pos (10 ^ k)) in Hs by lia.
      lia. }
    assert (Hb53 : 0 < Z.abs (Fnum x) < 2 ^ 53).
    { assert (2 ^ 24 < 2 ^ 53) by (apply Z.pow_lt_mono_r; lia). lia. }
    assert (Hv53 : Z.abs n * pow2_den (Fexp x)
                   = Z.abs (Fnum x) * pow2_num (Fexp x) * 10 ^ k).
    { rewrite <- (Z.abs_eq (pow2_den (Fexp x))), <- Z.abs_mul, Hval by lia.
      rewrite !Z.abs_mul, (Z.abs_eq (pow2_num _)), (Z.abs_eq (10 ^ k)) by lia.
      reflexivity. }
    destruct (round_frac_exact 53 (-1074) 1024 n (10 ^ k) (Z.abs (Fnum x)) (Fexp x)
                ltac:(lia) H10 Hn Hb53 ltac:(lia) ltac:(lia) Hv53)
      as (m & e & Hr & He & Hm).
    unfold round_double. rewrite Hr; cbn [bind].
    assert (Hm0 : 0 < m).
    { subst m. apply Z.mul_pos_pos; [lia | apply Z.pow_pos_nonneg; lia]. }
    pose proof (pow2_num_pos e) as Hpe. pose proof (pow2_den_pos e) as Hqe.
    pose proof (pow2_shift e (Fexp x) He) as Hs.
    unfold float_of_double, Ffrac; cbn [Fnum Fexp].
    assert (Hsn : Z.sgn n <> 0) by lia.
    assert (Hn' : Z.sgn n * m * pow2_num e <> 0) by nia.
    assert (Hb24 : 0 < Z.abs (Fnum x) < 2 ^ 24) by lia.
    assert (Hv24 : Z.abs (Z.sgn n * m * pow2_num e) * pow2_den (Fexp x)
                   = Z.abs (Fnum x) * pow2_num (Fexp x) * pow2_den e).
    { rewrite !Z.abs_mul, (Z.abs_eq m), (Z.abs_eq (pow2_num e)) by lia.
      replace (Z.abs (Z.sgn n)) with 1 by lia.
      rewrite Z.mul_1_l. subst m.
      transitivity (Z.abs (Fnum x) * (2 ^ (Fexp x - e) * pow2_num e * pow2_den (Fexp x)));
        [ring | rewrite <- Hs; ring]. }
    destruct (round_frac_exact 24 (-149) 128 (Z.sgn n * m * pow2_num e) (pow2_den e)
                (Z.abs (Fnum x)) (Fexp x)
                ltac:(lia) Hqe Hn' Hb24 ltac:(lia) ltac:(lia) Hv24)
      as (m' & e' & Hr' & He' & Hm').
    unfold round_float. rewrite Hr'. eexists. split; [reflexivity |].
    unfold Feqb, Ffrac; cbn [Fnum Fexp]. apply Z.eqb_eq.
    pose proof (pow2_shift e' (Fexp x) He') as Hs'.
    assert (Hsg : Z.sgn (Z.sgn n * m * pow2_num e) = Z.sgn (Fnum x)).
    { rewrite !Z.sgn_mul, Z.sgn_sgn, (Z.sgn_pos m), (Z.sgn_pos (pow2_num e)) by lia.
      lia. }
    rewrite Hsg, Hm'.
    transitivity (Z.abs (Fnum x) * Z.sgn (Fnum x) *
                  (pow2_num (Fexp x) * pow2_den e'));
      [rewrite Z.abs_sgn; ring |].
    rewrite Hs'. ring.
Qed.

(** ** Rounding to the nearest *)

Lemma round_half_even_cases (n d : Z) :
  0 < d ->
  let m := round_half_even n d in
  (2 * Z.abs (n - m * d) < d) \/ (2 * Z.abs (n - m * d) = d /\ Z.even m = true).
Proof.
  intros Hd m. subst m. unfold round_half_even.
  pose proof (Z.div_mod n d ltac:(lia)) as Hdm.
  pose proof (Z.mod_pos_bound n d Hd) as Hr.
  destruct (Z.ltb_spec (2 * (n mod d)) d); [left; lia |].
  destruct (Z.ltb_spec d (2 * (n mod d))); [left; lia |].
  right. destruct (Z.even (n / d)) eqn:E.
  - split; [lia | exact E].
  - split; [lia |]. rewrite Z.even_add, E. reflexivity.
Qed.

Lemma round_half_even_bound (n d : Z) :
  0 < d -> 2 * Z.abs (n - round_half_even n d * d) <= d.
Proof. intros Hd. destruct (round_half_even_cases n d Hd) as [H | [H _]]; lia. Qed.

(** The integer that is less than a half away. *)
Lemma round_half_even_near (n d k : Z) :
  0 < d -> 2 * Z.abs (n - k * d) < d -> round_half_even n d = k.
Proof.
  intros Hd Hk. pose proof (round_half_even_bound n d Hd) as Hm.
  set (m := round_half_even n d) in *. nia.
Qed.

Lemma round_half_even_scale (n d c : Z) :
  0 < d -> 0 < c -> round_half_even (n * c) (d * c) = round_half_even n d.
Proof.
  intros Hd Hc. unfold round_half_even.
  rewrite Z.div_mul_cancel_r by lia.
  rewrite Z.mul_mod_distr_r by lia.
  assert (H1 : (2 * (n mod d * c) <? d * c) = (2 * (n mod d) <? d)).
  { destruct (Z.ltb_spec (2 * (n mod d * c)) (d * c));
      destruct (Z.ltb_spec (2 * (n mod d)) d); try reflexivity; nia. }
  assert (H2 : (d * c <? 2 * (n mod d * c)) = (d <? 2 * (n mod d))).
  { destruct (Z.ltb_spec (d * c) (2 * (n mod d * c)));
      destruct (Z.ltb_spec d (2 * (n mod d))); try reflexivity; nia. }
  now rewrite H1, H2.
Qed.

(** ** The logarithm of a fraction *)

(** [2 ^ t <= n / d] implies [2 ^ s <= n / d] for [s <= t]. *)
Lemma pow2_le_mono (n d s t : Z) :
  0 < n -> 0 < d -> s <= t ->
  d * pow2_num t <= n * pow2_den t -> d * pow2_num s <= n * pow2_den s.
Proof.
  intros Hn Hd Hst Ht.
  pose proof (pow2_shift s t Hst) as Hs.
  pose proof (pow2_num_pos s). pose proof (pow2_den_pos s).
  pose proof (pow2_num_pos t). pose proof (pow2_den_pos t).
  assert (Hpow : 1 <= 2 ^ (t - s)) by (apply (Z.pow_le_mono_r 2 0); lia).
  apply (Z.mul_le_mono_pos_r _ _ (pow2_den t)); [assumption |].
  assert (E : d * pow2_num s * pow2_den t * 2 ^ (t - s) = d * pow2_num t * pow2_den s).
  { transitivity (d * (2 ^ (t - s) * pow2_num s * pow2_den t)); [ring |].
    rewrite <- Hs. ring. }
  assert (d * pow2_num s * pow2_den t <= d * pow2_num t * pow2_den s).
  { rewrite <- E. assert (0 <= d * pow2_num s * pow2_den t) by nia. nia. }
  nia.
Qed.

(** [log2_frac n d] is the floor of the logarithm: [n / d] is below the
    next power of two. *)
Lemma log2_frac_upper (n d : Z) :
  0 < n -> 0 < d ->
  n * pow2_den (log2_frac n d + 1) < d * pow2_num (log2_frac n d + 1).
Proof.
  intros Hn Hd. unfold log2_frac.
  set (e := Z.log2 n - Z.log2 d).
  destruct (Z.leb_spec (d * pow2_num e) (n * pow2_den e)).
  - pose proof (Z.log2_spec n Hn) as [_ Hn2].
    pose proof (Z.log2_spec d Hd) as [Hd1 _].
    pose proof (Z.log2_nonneg n). pose proof (Z.log2_nonneg d).
    pose proof (pow2_ratio (Z.succ (Z.log2 n)) (Z.log2 d) ltac:(lia) ltac:(lia)) as Hr.
    replace (Z.succ (Z.log2 n) - Z.log2 d) with (e + 1) in Hr by (subst e; lia).
    pose proof (pow2_num_pos (e + 1)). pose proof (pow2_den_pos (e + 1)).
    assert (0 < 2 ^ Z.succ (Z.log2 n)) by (apply Z.pow_pos_nonneg; lia).
    assert (0 < 2 ^ Z.log2 d) by (apply Z.pow_pos_nonneg; lia).
    apply (Z.mul_lt_mono_pos_l (2 ^ Z.succ (Z.log2 n))); [assumption |].
    assert (HA : 2 ^ Z.succ (Z.log2 n) * (n * pow2_den (e + 1))
                 = n * (2 ^ Z.log2 d * pow2_num (e + 1))).
    { rewrite <- Hr. ring. }
    rewrite HA.
    apply Z.le_lt_trans with (n * (d * pow2_num (e + 1))).
    + apply Z.mul_le_mono_nonneg_l; [lia |].
      apply Z.mul_le_mono_nonneg_r; lia.
    + apply Z.mul_lt_mono_pos_r; [nia | lia].
  - replace (e - 1 + 1) with e by lia. lia.
Qed.

Lemma floor_log2_unique (n d e e' : Z) :
  0 < n -> 0 < d ->
  d * pow2_num e <= n * pow2_den e ->
  n * pow2_den (e + 1) < d * pow2_num (e + 1) ->
  d * pow2_num e' <= n * pow2_den e' ->
  n * pow2_den (e' + 1) < d * pow2_num (e' + 1) ->
  e = e'.
Proof.
  intros Hn Hd L U L' U'.
  destruct (Z.lt_trichotomy e e') as [H | [H | H]]; [exfalso | exact H | exfalso].
  - pose proof (pow2_le_mono n d (e + 1) e' Hn Hd ltac:(lia) L'). lia.
  - pose proof (pow2_le_mono n d (e' + 1) e Hn Hd ltac:(lia) L). lia.
Qed.

Lemma log2_frac_scale (n d c : Z) :
  0 < n -> 0 < d -> 0 < c -> log2_frac (n * c) (d * c) = log2_frac n d.
Proof.
  intros Hn Hd Hc.
  pose proof (log2_frac_lower (n * c) (d * c) ltac:(nia) ltac:(nia)) as L.
  pose proof (log2_frac_upper (n * c) (d * c) ltac:(nia) ltac:(nia)) as U.
  set (e := log2_frac (n * c) (d * c)) in *.
  apply (floor_log2_unique n d); auto using log2_frac_lower, log2_frac_upper.
  - pose proof (pow2_num_pos e). pose proof (pow2_den_pos e). nia.
  - pose proof (pow2_num_pos (e + 1)). pose proof (pow2_den_pos (e + 1)). nia.
Qed.

(** The rounding of a fraction does not depend on how it is written. *)
Lemma round_frac_scale (prec emin emax n d c : Z) :
  0 < d -> 0 < c ->
  round_frac prec emin emax (n * c) (d * c) = round_frac prec emin emax n d.
Proof.
  intros Hd Hc. unfold round_frac.
  destruct (Z.eqb_spec n 0) as [-> | Hn]; [reflexivity |].
  destruct (Z.eqb_spec (n * c) 0); [nia |].
  rewrite Z.abs_mul, (Z.abs_eq c) by lia.
  rewrite log2_frac_scale by lia.
  set (e := Z.max emin (log2_frac (Z.abs n) d - prec + 1)).
  pose proof (pow2_num_pos e). pose proof (pow2_den_pos e).
  replace (Z.abs n * c * pow2_den e) with (Z.abs n * pow2_den e * c) by ring.
  replace (d * c * pow2_num e) with (d * pow2_num e * c) by ring.
  rewrite round_half_even_scale by nia.
  replace (Z.sgn (n * c)) with (Z.sgn n); [reflexivity |].
  rewrite Z.sgn_mul, (Z.sgn_pos c) by lia. lia.
Qed.

Lemma log2_frac_ge (n d t : Z) :
  0 < n -> 0 < d -> d * pow2_num t <= n * pow2_den t -> t <= log2_frac n d.
Proof.
  intros Hn Hd Ht.
  pose proof (log2_frac_upper n d Hn Hd) as U.
  destruct (Z.le_gt_cases t (log2_frac n d)) as [H | H]; [exact H | exfalso].
  pose proof (pow2_le_mono n d (log2_frac n d + 1) t Hn Hd ltac:(lia) Ht). lia.
Qed.

Lemma round_half_even_nonneg (n d : Z) : 0 <= n -> 0 < d -> 0 <= round_half_even n d.
Proof.
  intros Hn Hd. unfold round_half_even.
  assert (0 <= n / d) by (apply Z.div_pos; lia).
  repeat match goal with |- context [if ?b then _ else _] => destruct b end; lia.
Qed.

(** ** The error of a rounding *)

(** In the normal range a rounding to [prec] bits moves a number by at
    most the [2 ^ prec]-th part of it, and keeps its sign. *)
Lemma round_frac_error (prec emin emax n d : Z) (x : float) :
  0 < prec -> 0 < d -> n <> 0 ->
  emin <= log2_frac (Z.abs n) d - prec + 1 ->
  round_frac prec emin emax n d = Ok x ->
  Z.sgn (fst (Ffrac x)) = Z.sgn n /\
  Z.abs (Z.abs n * snd (Ffrac x) - Z.abs (fst (Ffrac x)) * d) * 2 ^ prec
  <= Z.abs n * snd (Ffrac x).
Proof.
  intros Hprec Hd Hn Hmin. unfold round_frac.
  destruct (Z.eqb_spec n 0); [contradiction |].
  rewrite Z.max_r by lia.
  set (a := Z.abs n). assert (Ha : 0 < a) by (subst a; lia).
  set (fl := log2_frac a d) in *. set (e := fl - prec + 1).
  set (m := round_half_even (a * pow2_den e) (d * pow2_num e)).
  destruct (2 ^ (emax - e) <=? m); [discriminate |]. intros [= <-].
  unfold Ffrac; cbn [fst snd Fnum Fexp].
  pose proof (pow2_num_pos e) as HP. pose proof (pow2_den_pos e) as HQ.
  pose proof (pow2_num_pos fl) as HPf. pose proof (pow2_den_pos fl) as HQf.
  assert (Hm0 : 0 <= m) by (apply round_half_even_nonneg; nia).
  pose proof (round_half_even_bound (a * pow2_den e) (d * pow2_num e) ltac:(nia)) as Hb.
  fold m in Hb.
  pose proof (log2_frac_lower a d Ha Hd) as Hl. fold fl in Hl.
  pose proof (pow2_shift e fl ltac:(subst e; lia)) as Hs.
  replace (fl - e) with (prec - 1) in Hs by (subst e; lia).
  assert (Hp1 : 0 < 2 ^ (prec - 1)) by (apply Z.pow_pos_nonneg; lia).
  assert (Hp2 : 2 ^ prec = 2 * 2 ^ (prec - 1)).
  { replace prec with (Z.succ (prec - 1)) at 1 by lia. apply Z.pow_succ_r. lia. }
  (* the unit in the last place against the number *)
  assert (Hulp : d * pow2_num e * 2 ^ (prec - 1) <= a * pow2_den e).
  { apply (Z.mul_le_mono_pos_r _ _ (pow2_den fl)); [assumption |].
    transitivity (d * pow2_num fl * pow2_den e).
    - apply Z.eq_le_incl.
      transitivity (d * (2 ^ (prec - 1) * pow2_num e * pow2_den fl)); [ring |].
      rewrite <- Hs. ring.
    - transitivity (a * pow2_den fl * pow2_den e); [|apply Z.eq_le_incl; ring].
      apply Z.mul_le_mono_nonneg_r; lia. }
  assert (Herr : Z.abs (a * pow2_den e - m * pow2_num e * d) * 2 ^ prec <= a * pow2_den e).
  { replace (m * pow2_num e * d) with (m * (d * pow2_num e)) by ring.
    rewrite Hp2. nia. }
  assert (Hm : 0 < m).
  { destruct (Z.eq_dec m 0) as [E | E]; [|lia]. exfalso.
    rewrite E in Herr. rewrite Z.mul_0_l, Z.sub_0_r, Z.abs_eq in Herr by nia.
    assert (2 <= 2 ^ prec) by lia. nia. }
  split.
  - rewrite !Z.sgn_mul, (Z.sgn_pos m), (Z.sgn_pos (pow2_num e)) by lia.
    rewrite Z.sgn_sgn. lia.
  - rewrite !Z.abs_mul, (Z.abs_eq (pow2_num e)), (Z.abs_eq m) by lia.
    replace (Z.abs (Z.sgn n)) with 1 by lia. rewrite Z.mul_1_l. exact Herr.
Qed.

(** A decimal [k / D] of magnitude below [2 ^ 22 / D], rounded to [double]
    and then to [float], stays less than half a unit of its last decimal
    away, and keeps its sign. *)
Lemma round_twice_near (k D : Z) (y x : float) :
  0 < D <= 100 -> 0 < Z.abs k < 2 ^ 22 ->
  round_double k D = Ok y -> float_of_double y = Ok x ->
  Z.sgn (fst (Ffrac x)) = Z.sgn k /\
  2 * Z.abs (Z.abs (fst (Ffrac x)) * D - Z.abs k * snd (Ffrac x)) < snd (Ffrac x).
Proof.
  intros HD Hk Hy Hx.
  assert (Hk0 : k <> 0) by lia.
  (* the first rounding *)
  assert (H1 : -1074 <= log2_frac (Z.abs k) D - 53 + 1).
  { assert (-7 <= log2_frac (Z.abs k) D); [|lia].
    apply log2_frac_ge; [lia | lia |].
    change (pow2_num (-7)) with 1. change (pow2_den (-7)) with 128. lia. }
  destruct (round_frac_error 53 (-1074) 1024 k D y ltac:(lia) ltac:(lia) Hk0 H1 Hy)
    as [Hsy Hey].
  unfold float_of_double in Hx.
  pose proof (Ffrac_den_pos y) as Hyd. pose proof (Ffrac_den_pos x) as Hxd.
  destruct (Ffrac y) as [yn yd] eqn:Ey. cbn [fst snd] in *.
  set (K := Z.abs k) in *.
  assert (Hyn : yn <> 0) by (intros ->; simpl in Hsy; lia).
  set (Y := Z.abs yn) in *. assert (HY : 0 < Y) by (subst Y; lia).
  change (2 ^ 53) with 9007199254740992 in Hey.
  (* the second rounding *)
  assert (H2 : -149 <= log2_frac Y yd - 24 + 1).
  { assert (-8 <= log2_frac Y yd); [|lia].
    apply log2_frac_ge; [lia | lia |].
    change (pow2_num (-8)) with 1. change (pow2_den (-8)) with 256.
    assert (K * yd * 9007199254740991 <= Y * D * 9007199254740992) by lia.
    assert (Y * D <= Y * 100) by nia.
    assert (yd <= K * yd) by nia.
    lia. }
  destruct (round_frac_error 24 (-149) 128 yn yd x ltac:(lia) Hyd Hyn H2 Hx)
    as [Hsx Hex].
  destruct (Ffrac x) as [xn xd] eqn:Ex. cbn [fst snd] in *.
  fold Y in Hex. set (X := Z.abs xn) in *.
  change (2 ^ 24) with 16777216 in Hex. change (2 ^ 22) with 4194304 in Hk.
  split; [congruence |].
  set (A := Z.abs (K * yd - Y * D)) in *.
  set (B := Z.abs (Y * xd - X * yd)) in *.
  assert (HX0 : 0 <= X) by (subst X; lia).
  assert (Htri : Z.abs (X * D - K * xd) * yd <= D * B + xd * A).
  { subst A B.
    replace (Z.abs (X * D - K * xd) * yd) with (Z.abs ((X * D - K * xd) * yd))
      by (rewrite Z.abs_mul, (Z.abs_eq yd); lia).
    replace ((X * D - K * xd) * yd)
      with (- (D * (Y * xd - X * yd)) - xd * (K * yd - Y * D)) by ring.
    assert (Z.abs (D * (Y * xd - X * yd)) = D * Z.abs (Y * xd - X * yd))
      by (rewrite Z.abs_mul, (Z.abs_eq D); lia).
    assert (Z.abs (xd * (K * yd - Y * D)) = xd * Z.abs (K * yd - Y * D))
      by (rewrite Z.abs_mul, (Z.abs_eq xd); lia).
    lia. }
  assert (HA0 : 0 <= A) by (subst A; lia).
  assert (HB0 : 0 <= B) by (subst B; lia).
  assert (HYD : Y * D <= K * yd + A) by (subst A; lia).
  (* everything times 2 ^ 77 *)
  assert (H77 : 9007199254740992 * 16777216 * (D * B + xd * A)
                <= xd * (K * yd) * (9007199254740992 + 16777216 + 1)).
  { assert (E1 : 9007199254740992 * 16777216 * (D * B)
                 <= 9007199254740992 * D * (Y * xd)) by nia.
    assert (E2 : 9007199254740992 * 16777216 * (xd * A)
                 <= 16777216 * xd * (K * yd)) by nia.
    assert (E3 : 9007199254740992 * (Y * D) <= 9007199254740992 * (K * yd) + K * yd) by nia.
    assert (E4 : 9007199254740992 * D * (Y * xd)
                 <= xd * (9007199254740992 * (K * yd) + K * yd)).
    { replace (9007199254740992 * D * (Y * xd)) with (xd * (9007199254740992 * (Y * D))) by ring.
      apply Z.mul_le_mono_nonneg_l; lia. }
    lia. }
  assert (HKyd : 0 < K * yd) by nia.
  apply (Z.mul_lt_mono_pos_r (yd * (9007199254740992 * 16777216))); [lia |].
  assert (2 * Z.abs (X * D - K * xd) * (yd * (9007199254740992 * 16777216))
          <= 2 * (xd * (K * yd) * (9007199254740992 + 16777216 + 1))) by nia.
  assert (2 * (xd * (K * yd) * (9007199254740992 + 16777216 + 1))
          < xd * (yd * (9007199254740992 * 16777216))); [|lia].
  replace (2 * (xd * (K * yd) * (9007199254740992 + 16777216 + 1)))
    with (xd * yd * (2 * K * (9007199254740992 + 16777216 + 1))) by ring.
  replace (xd * (yd * (9007199254740992 * 16777216)))
    with (xd * yd * (9007199254740992 * 16777216)) by ring.
  apply Z.mul_lt_mono_pos_l; [nia | lia].
Qed.

(** ** Decimal texts and [atof] *)

Lemma code_decimal_digit (d : Z) :
  decimal_digit d -> code (digit_char d) = 48 + d.
Proof.
  intros Hd. unfold decimal_digit in Hd. rewrite code_digit_char by lia.
  destruct (Z.ltb_spec d 10); lia.
Qed.

Lemma scan_decimal_digits (l : list Z) (rest : string) (acc count : Z) :
  Forall decimal_digit l ->
  scan_decimal (string_of_chars (map digit_char l) +:+ rest) acc count
  = scan_decimal rest (fold_left (λ a d, a * 10 + d) l acc)
                 (count + Z.of_nat (length l)).
Proof.
  intros Hl. revert acc count; induction Hl as [|d l Hd Hl IH]; intros acc count.
  - simpl. rewrite append_nil_l. f_equal. lia.
  - cbn [map string_of_chars]. rewrite append_cons. cbn [scan_decimal].
    rewrite (code_decimal_digit d Hd).
    unfold decimal_digit in Hd. unfold isdigit.
    destruct (Z.leb_spec 48 (48 + d)); [|lia].
    destruct (Z.leb_spec (48 + d) 57); [|lia]. cbn [andb].
    rewrite IH. cbn [fold_left length].
    replace (acc * 10 + (48 + d - 48)) with (acc * 10 + d) by lia.
    f_equal. lia.
Qed.

Lemma scan_decimal_stop (s : string) (acc count : Z) :
  match s with
  | EmptyString => True
  | String c _ => isdigit (code c) = false
  end ->
  scan_decimal s acc count = (acc, count, s).
Proof. destruct s as [|c r]; simpl; [reflexivity | now intros ->]. Qed.

Lemma float_char_not_upper (c : Z) : float_char c = true -> not_upper_nor_nul c = true.
Proof.
  unfold float_char, not_upper_nor_nul, isdigit.
  repeat match goal with
         | |- context [?a =? ?b] => destruct (Z.eqb_spec a b); try lia
         | |- context [?a <=? ?b] => destruct (Z.leb_spec a b); try lia
         end; cbn; congruence.
Qed.

Lemma digits_float_chars (l : list Z) :
  Forall decimal_digit l ->
  string_forall float_char (string_of_chars (map digit_char l)) = true.
Proof.
  intros Hl. apply digit_chars_forall.
  eapply Forall_impl; [exact Hl |].
  intros d Hd. rewrite (code_decimal_digit d Hd).
  unfold decimal_digit in Hd. unfold float_char, isdigit.
  destruct (Z.leb_spec 48 (48 + d)); [|lia].
  destruct (Z.leb_spec (48 + d) 57); [reflexivity | lia].
Qed.

Lemma decimal_text_float_chars (neg : bool) (li lf : list Z) (tail : string) :
  Forall decimal_digit li -> Forall decimal_digit lf ->
  tail = "" \/ tail = "%" ->
  string_forall float_char (decimal_text neg li lf tail) = true.
Proof.
  intros Hi Hf Ht. unfold decimal_text.
  rewrite !string_forall_app.
  rewrite (digits_float_chars li Hi).
  assert (Htail : string_forall float_char tail = true)
    by (destruct Ht as [-> | ->]; reflexivity).
  rewrite Htail.
  destruct neg; destruct lf as [|d lf]; cbn [andb]; try reflexivity;
    rewrite string_forall_app, (digits_float_chars _ Hf); reflexivity.
Qed.

Lemma has_0x_float_chars (s : string) (width : nat) :
  string_forall float_char s = true -> has_0x s width = false.
Proof.
  intros H. destruct s as [|c [|x r]]; [reflexivity | reflexivity |].
  destruct width as [|[|w]]; [reflexivity | reflexivity |].
  simpl in H. apply andb_true_iff in H as [_ [Hx _]%andb_true_iff].
  unfold has_0x. replace (is_x x) with false; [apply andb_false_r |].
  unfold is_x. unfold float_char, isdigit in Hx.
  destruct (Z.eqb_spec (code x) 120) as [E|_];
    [rewrite E in Hx; discriminate |].
  destruct (Z.eqb_spec (code x) 88) as [E|_];
    [rewrite E in Hx; discriminate | reflexivity].
Qed.

(** [atof] on a decimal text: the digits as a number over a power of ten,
    rounded. *)
Lemma atof_decimal_text (neg : bool) (li lf : list Z) (tail : string) :
  li <> [] -> Forall decimal_digit li -> Forall decimal_digit lf ->
  tail = "" \/ tail = "%" ->
  atof (decimal_text neg li lf tail)
  = let m := fold_left (λ a d, a * 10 + d) (li ++ lf) 0 in
    round_double (if neg then - m else m) (10 ^ Z.of_nat (length lf)).
Proof.
  intros Hne Hi Hf Ht.
  pose proof (decimal_text_float_chars false li lf tail Hi Hf Ht) as Hchars.
  unfold decimal_text in Hchars. rewrite append_nil_l in Hchars.
  set (body := string_of_chars (map digit_char li) +:+
               ((match lf with
                 | [] => ""
                 | _ => "." +:+ string_of_chars (map digit_char lf)
                 end) +:+ tail)) in *.
  assert (Hhead : exists d r, body = String (digit_char d) r /\ decimal_digit d).
  { subst body. destruct li as [|d li]; [congruence |].
    inversion Hi; subst. cbn [map string_of_chars]. rewrite append_cons. eauto. }
  destruct Hhead as (d & r & Ebody & Hd).
  pose proof (code_decimal_digit d Hd) as Hcode. unfold decimal_digit in Hd.
  assert (Hsign : scan_sign (skip_space (decimal_text neg li lf tail)) 1
                  = (neg, body, (if neg then 0 else 1)%nat)).
  { unfold decimal_text. fold body. destruct neg.
    - rewrite append_cons, append_nil_l. reflexivity.
    - rewrite append_nil_l, Ebody. cbn [skip_space]. rewrite Hcode.
      unfold isspace.
      destruct (Z.eqb_spec (48 + d) 32); [lia |].
      destruct (Z.leb_spec 9 (48 + d)); destruct (Z.leb_spec (48 + d) 13);
        try lia; cbn [andb orb scan_sign]; rewrite Hcode;
        destruct (Z.eqb_spec (48 + d) 45); try lia;
        destruct (Z.eqb_spec (48 + d) 43); try lia; reflexivity. }
  unfold atof. rewrite Hsign.
  rewrite (has_0x_float_chars body 2 Hchars).
  assert (Hnan : forall w : string,
            (match w with String c _ => 97 <=? code c | EmptyString => false end) = true ->
            (strcasecmp (String.substring 0 3 body) w =? 0) = false).
  { intros [|c w]; [discriminate |]. intros Hc%Z.leb_le.
    rewrite Ebody. cbn [String.substring strcasecmp]. rewrite Hcode.
    assert (Hl : tolower (48 + d) = 48 + d).
    { unfold tolower. destruct (Z.leb_spec 65 (48 + d)); [lia | reflexivity]. }
    assert (Hl' : 97 <= tolower (code c)).
    { unfold tolower. destruct ((65 <=? code c) && (code c <=? 90)); lia. }
    rewrite Hl. destruct (Z.eqb_spec (48 + d) (tolower (code c))); [lia |].
    apply Z.eqb_neq. lia. }
  rewrite (Hnan "inf" eq_refl), (Hnan "nan" eq_refl). cbn [orb bind].
  subst body. rewrite scan_decimal_digits by assumption.
  assert (Htail : scan_exponent tail = 0 /\
                  (forall acc count, scan_decimal tail acc count = (acc, count, tail)) /\
                  match tail with
                  | String c _ => (code c =? 46) = false
                  | EmptyString => True
                  end)
    by (destruct Ht as [-> | ->]; repeat split; reflexivity).
  destruct Htail as (Hexp & Hstop & Hdot).
  assert (Hlen : 0 < Z.of_nat (length li)) by (destruct li; simpl; [congruence | lia]).
  rewrite fold_left_app. cbv zeta.
  set (ip := fold_left (λ a d, a * 10 + d) li 0).
  destruct lf as [|f lf].
  - rewrite append_nil_l, Hstop.
    assert (Hm : (match tail with
                  | String c r0 => if code c =? 46 then scan_decimal r0 ip 0 else (ip, 0, tail)
                  | EmptyString => (ip, 0, tail)
                  end) = (ip, 0, tail)).
    { destruct tail as [|c r0]; [reflexivity | now rewrite Hdot]. }
    rewrite Hm, Hexp.
    destruct (Z.eqb_spec (0 + Z.of_nat (length li) + 0) 0); [lia |].
    cbn [Z.sub Z.opp Z.leb Z.compare fold_left length Z.of_nat].
    rewrite Z.pow_0_r, Z.mul_1_r. reflexivity.
  - rewrite append_cons, append_nil_l, scan_decimal_stop by reflexivity.
    rewrite append_cons. cbv iota. change (code "." =? 46) with true. cbv iota.
    rewrite scan_decimal_digits, Hstop, Hexp by assumption.
    destruct (Z.eqb_spec (0 + Z.of_nat (length li) + (0 + Z.of_nat (length (f :: lf)))) 0);
      [lia |].
    assert (Hk : 0 < Z.of_nat (length (f :: lf))) by (simpl; lia).
    destruct (Z.leb_spec 0 (0 - (0 + Z.of_nat (length (f :: lf))))); [lia |].
    replace (- (0 - (0 + Z.of_nat (length (f :: lf)))))
      with (Z.of_nat (length (f :: lf))) by lia.
    reflexivity.
Qed.

(** ** What striptrailingzero writes for a number with few decimals *)

Lemma length_string_of_chars (l : list ascii) :
  String.length (string_of_chars l) = length l.
Proof. induction l as [|c l IH]; simpl; [reflexivity | now rewrite IH]. Qed.

Lemma M_snprintf_short (size : nat) (s : string) :
  (String.length s < size)%nat -> M_snprintf size s = s.
Proof.
  revert size; induction s as [|c s IH]; intros size Hs.
  - destruct size as [|[|size]]; reflexivity.
  - simpl in Hs. destruct size as [|[|size]]; [lia | lia |].
    simpl. rewrite IH; [reflexivity | lia].
Qed.

Lemma strip_zero_last3 (s : string) (c3 c2 c1 : ascii) :
  s <> "" ->
  strip_zero (s +:+ String c3 (String c2 (String c1 "")))
  = if (code c3 =? 46) && (code c1 =? 48)
    then Ok (s +:+ String c3 (String c2 ""))
    else Ok (s +:+ String c3 (String c2 (String c1 ""))).
Proof.
  intros Hne. unfold strip_zero.
  set (r := s +:+ String c3 (String c2 (String c1 ""))).
  assert (Hlen : String.length r = (String.length s + 3)%nat)
    by (subst r; rewrite length_append; reflexivity).
  assert (0 < String.length s)%nat by (destruct s; simpl; [congruence | lia]).
  rewrite Hlen.
  destruct (Nat.leb_spec 4 (String.length s + 3)); [|lia].
  replace (String.length s + 3 - 3)%nat with (String.length s + 0)%nat by lia.
  replace (String.length s + 3 - 1)%nat with (String.length s + 2)%nat by lia.
  subst r.
  rewrite (char_at_app_r s _ 0 (code c3)) by reflexivity.
  rewrite (char_at_app_r s _ 2 (code c1)) by reflexivity.
  cbn [bind]. change (ch ".") with 46. change (ch "0") with 48.
  destruct ((code c3 =? 46) && (code c1 =? 48)); [|reflexivity].
  change (s +:+ String c3 (String c2 (String c1 "")))
    with (s +:+ (String c3 (String c2 "") +:+ String c1 "")).
  now rewrite <- append_assoc, drop_last_snoc.
Qed.

Lemma strip_zero_no_point (r : string) :
  string_forall (λ c, negb (c =? 46)) r = true -> strip_zero r = Ok r.
Proof.
  intros Hall. unfold strip_zero.
  destruct (Nat.leb_spec 4 (String.length r)); [|reflexivity].
  destruct (char_at_in_range r (String.length r - 3)) as [c3 H3]; [lia |].
  destruct (char_at_in_range r (String.length r - 1)) as [c1 H1]; [lia |].
  rewrite H3, H1; cbn [bind].
  apply (string_forall_char_at _ _ _ _ Hall) in H3; [|lia].
  apply negb_true_iff in H3. change (ch ".") with 46. now rewrite H3.
Qed.

Lemma digits_nonempty (fuel : nat) (base n : Z) : digits (S fuel) base n <> [].
Proof.
  simpl. destruct (n <? base); [discriminate |].
  destruct (digits fuel base (n / base)); discriminate.
Qed.

(** The digits that [utoa] writes. *)
Lemma utoa_decimal (n : Z) :
  0 <= n ->
  exists l,
    utoa 10 n = string_of_chars (map digit_char l) /\ l <> [] /\
    Forall decimal_digit l /\ fold_left (λ a d, a * 10 + d) l 0 = n /\
    (forall k : nat, (0 < k)%nat -> n < 10 ^ Z.of_nat k -> (length l <= k)%nat).
Proof.
  intros Hn. exists (digits (S (Z.to_nat (Z.log2 n))) 10 n).
  split; [reflexivity |]. split; [apply digits_nonempty |].
  split; [apply digits_range; lia |].
  split; [apply digits_fold; [lia | split; [lia | apply utoa_fuel; lia]] |].
  intros k Hk Hlt. apply digits_length; lia.
Qed.

(** What ["%.*f"] writes at a precision [p] up to two: the digits of
    [rounded_decimal p x], [p] of them behind the point. *)
Lemma printf_f_digits (p : nat) (x : float) :
  (p <= 2)%nat ->
  exists li lf,
    printf_f p x = decimal_text (Fnum x <? 0) li lf "" /\
    li <> [] /\ Forall decimal_digit li /\ Forall decimal_digit lf /\
    length lf = p /\
    fold_left (λ a d, a * 10 + d) (li ++ lf) 0 = rounded_decimal p x /\
    (forall k : nat, (0 < k)%nat ->
       rounded_decimal p x / 10 ^ Z.of_nat p < 10 ^ Z.of_nat k -> (length li <= k)%nat).
Proof.
  intros Hp. unfold rounded_decimal, Ffrac; cbn [fst snd].
  pose proof (pow2_num_pos (Fexp x)) as HP. pose proof (pow2_den_pos (Fexp x)) as HQ.
  set (P := pow2_num (Fexp x)) in *. set (Q := pow2_den (Fexp x)) in *.
  set (scale := 10 ^ Z.of_nat p) in *.
  assert (Hscale : 0 < scale) by (apply Z.pow_pos_nonneg; lia).
  set (R := round_half_even (Z.abs (Fnum x * P) * scale) Q).
  assert (HR0 : 0 <= R) by (apply round_half_even_nonneg; [nia | lia]).
  assert (Hsign : (Fnum x * P <? 0) = (Fnum x <? 0)).
  { destruct (Z.ltb_spec (Fnum x * P) 0); destruct (Z.ltb_spec (Fnum x) 0);
      try reflexivity; nia. }
  assert (Hip : 0 <= R / scale) by (apply Z.div_pos; lia).
  destruct (utoa_decimal (R / scale) Hip) as (li & Eli & Hne & Hli & Hfold & Hlen).
  assert (Hfrac : 0 <= R mod scale < scale) by (apply Z.mod_pos_bound; lia).
  pose proof (Z.div_mod R scale ltac:(lia)) as Hdm.
  unfold printf_f, Ffrac. fold P Q scale R. rewrite Hsign. fold scale. rewrite Eli.
  destruct p as [|[|[|p]]]; [| | |lia].
  - exists li, []. repeat split; auto.
    rewrite app_nil_r, Hfold. subst scale. change (10 ^ Z.of_nat 0) with 1 in *.
    rewrite Z.div_1_r. lia.
  - exists li, [R mod scale]. subst scale. change (10 ^ Z.of_nat 1) with 10 in *.
    split.
    { unfold decimal_text. cbn [pad_digits map string_of_chars].
      rewrite append_nil_l.
      replace (R mod 10 mod 10) with (R mod 10) by (rewrite Z.mod_mod; lia).
      now rewrite append_nil_r. }
    split; [exact Hne |]. split; [exact Hli |].
    split; [repeat constructor; unfold decimal_digit; lia |].
    split; [reflexivity |]. split; [|exact Hlen].
    rewrite fold_left_app, Hfold. cbn [fold_left]. lia.
  - exists li, [R mod scale / 10; R mod scale mod 10].
    subst scale. change (10 ^ Z.of_nat 2) with 100 in *.
    assert (0 <= R mod 100 / 10 < 10).
    { split; [apply Z.div_pos; lia | apply Z.div_lt_upper_bound; lia]. }
    assert (0 <= R mod 100 mod 10 < 10) by (apply Z.mod_pos_bound; lia).
    split.
    { unfold decimal_text. cbn [pad_digits map string_of_chars].
      rewrite append_nil_l.
      rewrite (Z.mod_small (R mod 100 / 10) 10) by lia.
      now rewrite append_nil_r. }
    split; [exact Hne |]. split; [exact Hli |].
    split; [repeat constructor; unfold decimal_digit; lia |].
    split; [reflexivity |]. split; [|exact Hlen].
    rewrite fold_left_app, Hfold. cbn [fold_left].
    pose proof (Z.div_mod (R mod 100) 10 ltac:(lia)). lia.
Qed.

(** A number with at most [p] decimals is not rounded. *)
Lemma rounded_decimal_exact (p : nat) (x : float) :
  decimals_exact (Z.of_nat p) x ->
  rounded_decimal p x * pow2_den (Fexp x)
  = Z.abs (Fnum x) * pow2_num (Fexp x) * 10 ^ Z.of_nat p.
Proof.
  intros Hex. unfold decimals_exact, rounded_decimal, Ffrac in *; cbn [fst snd] in *.
  pose proof (pow2_num_pos (Fexp x)) as HP. pose proof (pow2_den_pos (Fexp x)) as HQ.
  set (P := pow2_num (Fexp x)) in *. set (Q := pow2_den (Fexp x)) in *.
  set (scale := 10 ^ Z.of_nat p) in *.
  rewrite round_half_even_exact; [|lia|].
  - rewrite Z.abs_mul, (Z.abs_eq P) by lia.
    assert (Hm : (Z.abs (Fnum x) * P * scale) mod Q = 0).
    { destruct (Z.abs_spec (Fnum x)) as [[_ ->] | [_ ->]]; [exact Hex |].
      replace (- Fnum x * P * scale) with (- (Fnum x * P * scale)) by ring.
      now apply Z.mod_opp_l_z; [lia |]. }
    rewrite Z.mul_comm. symmetry. apply Z_div_exact_full_2; [lia | exact Hm].
  - destruct (Z.abs_spec (Fnum x * P)) as [[_ ->] | [_ ->]]; [exact Hex |].
    replace (- (Fnum x * P) * scale) with (- (Fnum x * P * scale)) by ring.
    now apply Z.mod_opp_l_z; [lia |].
Qed.

Lemma round_half_even_le (n d : Z) : round_half_even n d <= n / d + 1.
Proof.
  unfold round_half_even.
  repeat match goal with |- context [if ?b then _ else _] => destruct b end; lia.
Qed.

(** A [float] has at most 39 digits before the point. *)
Lemma rounded_decimal_39 (p : nat) (x : float) :
  is_binary32 x ->
  rounded_decimal p x / 10 ^ Z.of_nat p < 10 ^ Z.of_nat 39.
Proof.
  intros [HM HE]. unfold rounded_decimal, Ffrac; cbn [fst snd].
  pose proof (pow2_num_pos (Fexp x)) as HP. pose proof (pow2_den_pos (Fexp x)) as HQ.
  set (P := pow2_num (Fexp x)) in *. set (Q := pow2_den (Fexp x)) in *.
  set (scale := 10 ^ Z.of_nat p) in *.
  assert (Hscale : 0 < scale) by (apply Z.pow_pos_nonneg; lia).
  set (n := Z.abs (Fnum x * P) * scale).
  assert (Hn : 0 <= n) by (subst n; nia).
  pose proof (round_half_even_le n Q) as Hb.
  assert (n / Q <= n) by (apply Z.div_le_upper_bound; nia).
  assert (P <= 2 ^ 104).
  { subst P. unfold pow2_num. apply Z.pow_le_mono_r; lia. }
  assert (Z.abs (Fnum x * P) <= (2 ^ 24 - 1) * 2 ^ 104).
  { rewrite Z.abs_mul, (Z.abs_eq P) by lia.
    apply Z.mul_le_mono_nonneg; lia. }
  apply Z.div_lt_upper_bound; [lia |].
  change (10 ^ Z.of_nat 39) with 1000000000000000000000000000000000000000.
  change ((2 ^ 24 - 1) * 2 ^ 104) with 340282346638528859811704183484516925440 in *.
  subst n. nia.
Qed.

(** ** Decimal texts are no aliases *)

Lemma folded_codes (s : string) :
  string_forall not_upper_nor_nul s = true -> folded s = string_codes s.
Proof.
  induction s as [|c s IH]; simpl; [reflexivity |].
  intros [Hc Hs]%andb_true_iff.
  destruct (tolower_not_upper _ Hc) as [Hl H0].
  destruct (Z.eqb_spec (code c) 0); [lia |]. now rewrite Hl, IH.
Qed.

Lemma string_codes_forall (p : Z -> bool) (s : string) :
  forallb p (string_codes s) = string_forall p s.
Proof. induction s as [|c s IH]; simpl; [reflexivity | now rewrite IH]. Qed.

Lemma string_codes_app (s1 s2 : string) :
  string_codes (s1 +:+ s2) = string_codes s1 ++ string_codes s2.
Proof. string_ind s1; [reflexivity | now rewrite IH]. Qed.

Lemma alias_of_text_decimal (t : string) (set : Z) :
  string_forall float_char t = true ->
  existsb point_or_percent (string_codes t) = true ->
  alias_of_text t set = Ok None.
Proof.
  intros Hchars Hpoint.
  destruct (alias_of_text_cases t set)
    as [H | (j & b & Hj & H & Hcmp & Hset)]; [assumption | exfalso].
  assert (Hall : aliases_no_decimal_text = true) by (vm_compute; reflexivity).
  unfold aliases_no_decimal_text in Hall. rewrite forallb_forall in Hall.
  specialize (Hall b ltac:(apply list_elem_of_In, list_elem_of_lookup; eauto)).
  apply strcasecmp_folded in Hcmp. rewrite <- Hcmp in Hall.
  rewrite folded_codes in Hall
    by (eapply string_forall_impl; [apply float_char_not_upper | exact Hchars]).
  now rewrite string_codes_forall, Hchars, Hpoint in Hall.
Qed.

Lemma decimal_text_point_or_percent (neg : bool) (li lf : list Z) (tail : string) :
  lf <> [] \/ tail = "%" ->
  existsb point_or_percent (string_codes (decimal_text neg li lf tail)) = true.
Proof.
  intros H. unfold decimal_text.
  rewrite !string_codes_app, !existsb_app.
  destruct H as [H | ->].
  - destruct lf as [|f lf]; [congruence |].
    rewrite append_cons. cbn [string_codes existsb].
    change (point_or_percent (code ".")) with true.
    cbn [orb]. now rewrite !orb_true_r.
  - cbn [string_codes existsb].
    change (point_or_percent (code "%")) with true.
    cbn [orb]. now rewrite !orb_true_r.
Qed.

(** ** A [float] that is written and read again *)

Lemma decimal_text_sign (x : float) (m : Z) (k : Z) :
  m * pow2_den (Fexp x) = Z.abs (Fnum x) * pow2_num (Fexp x) * 10 ^ k ->
  (if Fnum x <? 0 then - m else m) * pow2_den (Fexp x)
  = Fnum x * pow2_num (Fexp x) * 10 ^ k.
Proof.
  intros H. destruct (Z.ltb_spec (Fnum x) 0).
  - rewrite Z.abs_neq in H by lia. lia.
  - rewrite Z.abs_eq in H by lia. lia.
Qed.

(** The text of an exact decimal is read as the number that was written. *)
Lemma ParseFloatParameter_decimal_text (x : float) (li lf : list Z)
    (tail : string) (set : Z) :
  is_binary32 x ->
  li <> [] -> Forall decimal_digit li -> Forall decimal_digit lf ->
  tail = "" \/ tail = "%" -> lf <> [] \/ tail = "%" ->
  fold_left (λ a d, a * 10 + d) (li ++ lf) 0 * pow2_den (Fexp x)
  = Z.abs (Fnum x) * pow2_num (Fexp x) * 10 ^ Z.of_nat (length lf) ->
  exists y,
    ParseFloatParameter (decimal_text (Fnum x <? 0) li lf tail) set = Ok y /\
    Feqb x y = true.
Proof.
  intros Hx Hne Hi Hf Ht Hp Hval.
  unfold ParseFloatParameter.
  rewrite alias_of_text_decimal;
    auto using decimal_text_float_chars, decimal_text_point_or_percent.
  cbn [bind]. rewrite atof_decimal_text by assumption. cbv zeta.
  apply decimal_of_float_exact; [assumption | lia |].
  now apply decimal_text_sign.
Qed.

Lemma length_decimal_text (neg : bool) (li lf : list Z) (tail : string) :
  (String.length (decimal_text neg li lf tail)
   <= 1 + length li + (1 + length lf) + String.length tail)%nat.
Proof.
  unfold decimal_text.
  rewrite !length_append, length_string_of_chars, length_map.
  destruct neg, lf as [|f lf]; cbn [String.length];
    rewrite ?length_append, ?length_string_of_chars, ?length_map;
    cbn [String.length length]; lia.
Qed.

Lemma decimal_text_split (neg : bool) (li lf : list Z) (tail : string) :
  decimal_text neg li lf tail
  = ((if neg then "-" else "") +:+ string_of_chars (map digit_char li)) +:+
    ((match lf with
      | [] => ""
      | _ => "." +:+ string_of_chars (map digit_char lf)
      end) +:+ tail).
Proof. unfold decimal_text. now rewrite append_assoc. Qed.

Lemma decimal_text_head (neg : bool) (li : list Z) :
  li <> [] -> Forall decimal_digit li ->
  let s := (if neg then "-" else "") +:+ string_of_chars (map digit_char li) in
  s <> "" /\ string_forall numeric s = true.
Proof.
  intros Hne Hi s. subst s. split.
  - destruct neg; [discriminate |]. destruct li; [congruence | discriminate].
  - rewrite string_forall_app. apply andb_true_iff. split.
    + destruct neg; reflexivity.
    + apply digit_chars_forall. eapply Forall_impl; [exact Hi |].
      intros d Hd. rewrite (code_decimal_digit d Hd).
      unfold decimal_digit in Hd. unfold numeric, isdigit.
      destruct (Z.leb_spec 48 (48 + d)); [|lia].
      destruct (Z.leb_spec (48 + d) 57); [reflexivity | lia].
Qed.

Lemma strip_zero_short (r : string) :
  (String.length r < 4)%nat -> strip_zero r = Ok r.
Proof.
  intros H. unfold strip_zero.
  destruct (Nat.leb_spec 4 (String.length r)); [lia | reflexivity].
Qed.

Lemma rendered_short (x : float) (precision : Z) (p : nat) (li lf : list Z) :
  (if precision =? 2 then 2%nat else if Fintegral x then 0%nat else 1%nat) = p ->
  printf_f p x = decimal_text (Fnum x <? 0) li lf "" ->
  (length li <= 39)%nat -> (length lf <= 2)%nat ->
  rendered x precision = decimal_text (Fnum x <? 0) li lf "".
Proof.
  intros Hp Ht Hli Hlf. unfold rendered. rewrite Hp, Ht.
  apply M_snprintf_short.
  pose proof (length_decimal_text (Fnum x <? 0) li lf ""). simpl in *. lia.
Qed.

(** What striptrailingzero returns at precision class 2: the digits of
    [rounded_decimal 2 x] with two decimals, or with one if the second
    is 0. *)
Lemma striptrailingzero_digits2 (x : float) :
  rounded_decimal 2 x / 10 ^ Z.of_nat 2 < 10 ^ Z.of_nat 39 ->
  exists li lf,
    striptrailingzero x 2 = Ok (decimal_text (Fnum x <? 0) li lf "") /\
    li <> [] /\ Forall decimal_digit li /\ Forall decimal_digit lf /\
    lf <> [] /\ (length li <= 39)%nat /\ (length lf <= 2)%nat /\
    fold_left (λ a d, a * 10 + d) (li ++ lf) 0 * 10 ^ (2 - Z.of_nat (length lf))
    = rounded_decimal 2 x.
Proof.
  intros Hx.
  destruct (printf_f_digits 2 x ltac:(lia))
    as (li & lf & Ht & Hne & Hi & Hf & Hlen & Hval & H39).
  specialize (H39 39%nat ltac:(lia) Hx).
  destruct lf as [|a [|b [|? ?]]]; try discriminate Hlen.
  unfold striptrailingzero.
  rewrite (rendered_short x 2 2 li [a; b]) by (auto; simpl; lia).
  destruct (decimal_text_head (Fnum x <? 0) li Hne Hi) as [Hs _].
  rewrite decimal_text_split. cbn [map string_of_chars].
  rewrite append_nil_r, append_cons, append_nil_l.
  rewrite strip_zero_last3 by assumption.
  change (code "." =? 46) with true. cbn [andb].
  inversion Hf as [|? ? Ha Hf']; subst. inversion Hf' as [|? ? Hb _]; subst.
  rewrite (code_decimal_digit b Hb). unfold decimal_digit in Hb.
  destruct (Z.eqb_spec (48 + b) 48) as [E|E].
  - assert (b = 0) by lia. subst b.
    exists li, [a]. split.
    { f_equal. rewrite decimal_text_split. cbn [map string_of_chars].
      now rewrite append_nil_r, append_cons, append_nil_l. }
    split; [exact Hne |]. split; [exact Hi |].
    split; [constructor; [exact Ha | constructor] |]. split; [discriminate |].
    split; [exact H39 |]. split; [simpl; lia |].
    rewrite <- Hval, !fold_left_app. cbn [fold_left length].
    change (10 ^ (2 - Z.of_nat 1)) with 10. lia.
  - exists li, [a; b]. split.
    { f_equal. rewrite decimal_text_split. cbn [map string_of_chars].
      now rewrite append_nil_r, append_cons, append_nil_l. }
    split; [exact Hne |]. split; [exact Hi |]. split; [exact Hf |].
    split; [discriminate |]. split; [exact H39 |]. split; [simpl; lia |].
    rewrite Hval. cbn [length]. change (10 ^ (2 - Z.of_nat 2)) with 1. lia.
Qed.

(** The same at the precision class of the percentages: no decimal for a
    whole number, else one. *)
Lemma striptrailingzero_digits1 (x : float) :
  let p := if Fintegral x then 0%nat else 1%nat in
  rounded_decimal p x / 10 ^ Z.of_nat p < 10 ^ Z.of_nat 39 ->
  exists li lf,
    striptrailingzero x 1 = Ok (decimal_text (Fnum x <? 0) li lf "") /\
    li <> [] /\ Forall decimal_digit li /\ Forall decimal_digit lf /\
    (length li <= 39)%nat /\ length lf = p /\
    fold_left (λ a d, a * 10 + d) (li ++ lf) 0 = rounded_decimal p x.
Proof.
  intros p Hx. subst p. unfold striptrailingzero.
  destruct (Fintegral x) eqn:Hint.
  - destruct (printf_f_digits 0 x ltac:(lia))
      as (li & lf & Ht & Hne & Hi & Hf & Hlen & Hval & H39).
    specialize (H39 39%nat ltac:(lia) Hx). destruct lf; [|discriminate Hlen].
    rewrite (rendered_short x 1 0 li []) by (auto; rewrite ?Hint; simpl; auto; lia).
    exists li, []. split.
    { apply strip_zero_no_point.
      destruct (decimal_text_head (Fnum x <? 0) li Hne Hi) as [_ Hnum].
      rewrite decimal_text_split, append_nil_r.
      eapply string_forall_impl; [|exact Hnum].
      intros z Hz. unfold numeric, isdigit in Hz.
      destruct (Z.eqb_spec z 46) as [-> |]; [discriminate | reflexivity]. }
    split; [exact Hne |]. split; [exact Hi |]. split; [constructor |].
    split; [exact H39 |]. split; [reflexivity | exact Hval].
  - destruct (printf_f_digits 1 x ltac:(lia))
      as (li & lf & Ht & Hne & Hi & Hf & Hlen & Hval & H39).
    specialize (H39 39%nat ltac:(lia) Hx). destruct lf as [|a [|? ?]]; try discriminate Hlen.
    rewrite (rendered_short x 1 1 li [a]) by (auto; rewrite ?Hint; simpl; auto; lia).
    exists li, [a]. split.
    { destruct (decimal_text_head (Fnum x <? 0) li Hne Hi) as [Hs Hnum].
      rewrite decimal_text_split. cbn [map string_of_chars].
      rewrite append_nil_r, append_cons, append_nil_l.
      destruct (string_snoc _ Hs) as (s' & c & Es). rewrite Es in *.
      rewrite append_assoc, append_cons, append_nil_l.
      destruct s' as [|c' s'].
      - apply strip_zero_short. rewrite append_nil_l. simpl. lia.
      - rewrite strip_zero_last3 by discriminate.
        rewrite string_forall_app in Hnum.
        apply andb_true_iff in Hnum as [_ Hc]. simpl in Hc.
        rewrite andb_true_r in Hc. unfold numeric, isdigit in Hc.
        destruct (Z.eqb_spec (code c) 46) as [E |]; [|reflexivity].
        rewrite E in Hc. discriminate. }
    split; [exact Hne |]. split; [exact Hi |]. split; [exact Hf |].
    split; [exact H39 |]. split; [reflexivity | exact Hval].
Qed.

(** For a [float] with at most two decimals the digits are those of the
    number itself. *)
Lemma striptrailingzero_exact2 (x : float) :
  is_binary32 x -> decimals_exact 2 x ->
  exists li lf,
    striptrailingzero x 2 = Ok (decimal_text (Fnum x <? 0) li lf "") /\
    li <> [] /\ Forall decimal_digit li /\ Forall decimal_digit lf /\
    lf <> [] /\ (length li <= 39)%nat /\ (length lf <= 2)%nat /\
    fold_left (λ a d, a * 10 + d) (li ++ lf) 0 * pow2_den (Fexp x)
    = Z.abs (Fnum x) * pow2_num (Fexp x) * 10 ^ Z.of_nat (length lf).
Proof.
  intros Hx Hex.
  destruct (striptrailingzero_digits2 x (rounded_decimal_39 2 x Hx))
    as (li & lf & Ht & Hne & Hi & Hf & Hnf & H39 & H2 & Hval).
  exists li, lf. do 7 (split; [assumption |]).
  pose proof (rounded_decimal_exact 2 x Hex) as HR. rewrite <- Hval in HR.
  pose proof (pow2_den_pos (Fexp x)).
  destruct lf as [|a [|b [|? ?]]]; [congruence | | | simpl in H2; lia]; cbn [length] in *.
  - change (10 ^ (2 - Z.of_nat 1)) with 10 in HR.
    change (10 ^ Z.of_nat 2) with 100 in HR. change (10 ^ Z.of_nat 1) with 10. lia.
  - change (10 ^ (2 - Z.of_nat 2)) with 1 in HR. lia.
Qed.

Lemma striptrailingzero_exact1 (x : float) :
  is_binary32 x -> decimals_exact 1 x ->
  exists li lf,
    striptrailingzero x 1 = Ok (decimal_text (Fnum x <? 0) li lf "") /\
    li <> [] /\ Forall decimal_digit li /\ Forall decimal_digit lf /\
    (length li <= 39)%nat /\ (length lf <= 1)%nat /\
    fold_left (λ a d, a * 10 + d) (li ++ lf) 0 * pow2_den (Fexp x)
    = Z.abs (Fnum x) * pow2_num (Fexp x) * 10 ^ Z.of_nat (length lf).
Proof.
  intros Hx Hex.
  destruct (striptrailingzero_digits1 x (rounded_decimal_39 _ x Hx))
    as (li & lf & Ht & Hne & Hi & Hf & H39 & Hlen & Hval).
  exists li, lf. do 5 (split; [assumption |]).
  split; [rewrite Hlen; destruct (Fintegral x); lia |].
  rewrite Hval, Hlen. apply rounded_decimal_exact.
  destruct (Fintegral x) eqn:Hint; [|exact Hex].
  unfold decimals_exact, Fintegral in *. destruct (Ffrac x) as [n d].
  cbn [fst snd] in *. apply Z.eqb_eq in Hint.
  change (10 ^ Z.of_nat 0) with 1. now rewrite Z.mul_1_r.
Qed.

(** How ParseFloatParameter reads a decimal text. *)
Lemma ParseFloatParameter_decimal (neg : bool) (li lf : list Z) (tail : string)
    (set : Z) :
  li <> [] -> Forall decimal_digit li -> Forall decimal_digit lf ->
  tail = "" \/ tail = "%" -> lf <> [] \/ tail = "%" ->
  ParseFloatParameter (decimal_text neg li lf tail) set
  = (let m := fold_left (λ a d, a * 10 + d) (li ++ lf) 0 in
     r <- round_double (if neg then - m else m) (10 ^ Z.of_nat (length lf)) ;;
     float_of_double r).
Proof.
  intros Hne Hi Hf Ht Hp.
  unfold ParseFloatParameter.
  rewrite alias_of_text_decimal;
    auto using decimal_text_float_chars, decimal_text_point_or_percent.
  cbn [bind]. now rewrite atof_decimal_text by assumption.
Qed.

(** Such a [float] is written with the digits of [k]. *)
Lemma nearest_rounded (p : nat) (k : Z) (x : float) :
  (p <= 2)%nat -> Z.abs k < 2 ^ 22 ->
  (r <- round_double k (10 ^ Z.of_nat p) ;; float_of_double r) = Ok x ->
  (Fnum x <? 0) = (k <? 0) /\
  2 * Z.abs (Z.abs (fst (Ffrac x)) * 10 ^ Z.of_nat p - Z.abs k * snd (Ffrac x))
  < snd (Ffrac x) /\
  rounded_decimal p x = Z.abs k.
Proof.
  intros Hp Hk Hx.
  assert (HD : 0 < 10 ^ Z.of_nat p <= 100).
  { destruct p as [|[|[|p]]]; [| | |lia]; cbn; lia. }
  destruct (Z.eq_dec k 0) as [-> | Hk0].
  - change (round_double 0 (10 ^ Z.of_nat p)) with (Ok (Float 0 0)) in Hx.
    assert (x = Float 0 0) by (vm_compute in Hx; congruence). subst x.
    split; [reflexivity |]. unfold rounded_decimal.
    change (Ffrac (Float 0 0)) with (0, 1). cbn [fst snd].
    change (Z.abs 0) with 0. rewrite !Z.mul_0_l.
    split; [cbn; lia | reflexivity].
  - apply bind_inv in Hx as (y & Hy & Hx).
    destruct (round_twice_near k _ y x HD ltac:(lia) Hy Hx) as [Hs Hnear].
    assert (Hsign : (Fnum x <? 0) = (k <? 0)).
    { unfold Ffrac in Hs; cbn [fst] in Hs.
      pose proof (pow2_num_pos (Fexp x)).
      rewrite Z.sgn_mul, (Z.sgn_pos (pow2_num (Fexp x))) in Hs by lia.
      destruct (Z.ltb_spec (Fnum x) 0); destruct (Z.ltb_spec k 0); try reflexivity; lia. }
    split; [exact Hsign |]. split; [exact Hnear |].
    unfold rounded_decimal. apply round_half_even_near; [apply Ffrac_den_pos | exact Hnear].
Qed.

Lemma signed_abs (k m c : Z) :
  m * c = Z.abs k -> (if k <? 0 then - m else m) * c = k.
Proof. intros H. destruct (Z.ltb_spec k 0); lia. Qed.

(** A [float] read from a text with at most two decimals is written as a
    text from which it is read again. *)
Lemma nearest_written_read2 (x : float) (set : Z) :
  nearest_decimal 2 x ->
  exists li lf,
    striptrailingzero x 2 = Ok (decimal_text (Fnum x <? 0) li lf "") /\
    li <> [] /\ Forall decimal_digit li /\ Forall decimal_digit lf /\
    (length li <= 39)%nat /\ (length lf <= 2)%nat /\
    ParseFloatParameter (decimal_text (Fnum x <? 0) li lf "") set = Ok x.
Proof.
  intros (k & Hk & Hx).
  destruct (nearest_rounded 2 k x ltac:(lia) Hk Hx) as (Hsign & _ & HR).
  destruct (striptrailingzero_digits2 x)
    as (li & lf & Ht & Hne & Hi & Hf & Hnf & H39 & H2 & Hval).
  { rewrite HR. apply Z.div_lt_upper_bound; [reflexivity |].
    change (2 ^ 22) with 4194304 in Hk. cbn. lia. }
  exists li, lf. do 6 (split; [assumption |]).
  rewrite ParseFloatParameter_decimal by auto. cbv zeta.
  rewrite HR in Hval. rewrite Hsign.
  set (m := fold_left (λ a d, a * 10 + d) (li ++ lf) 0) in *.
  rewrite <- Hx. f_equal. unfold round_double.
  rewrite <- (round_frac_scale 53 (-1074) 1024 _ _ (10 ^ (2 - Z.of_nat (length lf))));
    [| apply Z.pow_pos_nonneg; lia | apply Z.pow_pos_nonneg; lia].
  rewrite (signed_abs k m _ Hval).
  rewrite <- Z.pow_add_r by lia. do 2 f_equal. lia.
Qed.

(** The same for a percentage with at most one decimal. *)
Lemma nearest_written_read1 (x : float) (set : Z) :
  nearest_decimal 1 x ->
  exists li lf,
    striptrailingzero x 1 = Ok (decimal_text (Fnum x <? 0) li lf "") /\
    li <> [] /\ Forall decimal_digit li /\ Forall decimal_digit lf /\
    (length li <= 39)%nat /\ (length lf <= 1)%nat /\
    ParseFloatParameter (decimal_text (Fnum x <? 0) li lf "%") set = Ok x.
Proof.
  intros (k & Hk & Hx).
  destruct (nearest_rounded 1 k x ltac:(lia) Hk Hx) as (Hsign & Hnear & HR).
  change (2 ^ 22) with 4194304 in Hk.
  (* a whole number is written without decimals: ten times it is [k] *)
  assert (HR0 : Fintegral x = true -> rounded_decimal 0 x * 10 = Z.abs k).
  { unfold Fintegral, rounded_decimal. pose proof (Ffrac_den_pos x) as Hd.
    destruct (Ffrac x) as [n d]. cbn [fst snd] in *. intros Hint%Z.eqb_eq.
    change (10 ^ Z.of_nat 0) with 1. change (10 ^ Z.of_nat 1) with 10 in Hnear.
    rewrite Z.mul_1_r.
    assert (Hmod : Z.abs n mod d = 0).
    { destruct (Z.abs_spec n) as [[_ ->] | [_ ->]]; [exact Hint |].
      now apply Z.mod_opp_l_z; [lia |]. }
    rewrite round_half_even_exact by assumption.
    pose proof (Z.div_mod (Z.abs n) d ltac:(lia)) as Hdm. rewrite Hmod in Hdm.
    set (q := Z.abs n / d) in *. nia. }
  destruct (striptrailingzero_digits1 x)
    as (li & lf & Ht & Hne & Hi & Hf & H39 & Hlen & Hval).
  { destruct (Fintegral x).
    - specialize (HR0 eq_refl). change (10 ^ Z.of_nat 0) with 1. rewrite Z.div_1_r.
      cbn. lia.
    - rewrite HR. apply Z.div_lt_upper_bound; [reflexivity |]. cbn. lia. }
  exists li, lf. do 5 (split; [assumption |]).
  split; [rewrite Hlen; destruct (Fintegral x); lia |].
  rewrite ParseFloatParameter_decimal by auto. cbv zeta.
  rewrite Hsign, Hval, Hlen, <- Hx. f_equal. unfold round_double.
  destruct (Fintegral x).
  - rewrite <- (round_frac_scale 53 (-1074) 1024 _ _ 10) by (cbn; lia).
    rewrite (signed_abs k _ _ (HR0 eq_refl)). reflexivity.
  - rewrite HR. f_equal. destruct (Z.ltb_spec k 0); lia.
Qed.

(** ** Lines of the file *)

Lemma scan_while_app (p : Z -> bool) (width : nat) (s : string) (c : ascii)
    (r : string) :
  string_forall p s = true -> (String.length s <= width)%nat ->
  p (code c) = false ->
  scan_while p width (s +:+ String c r) = (s, String c r).
Proof.
  revert width; induction s as [|a s IH]; intros width Hs Hw Hc.
  - rewrite append_nil_l. destruct width; simpl; [reflexivity | now rewrite Hc].
  - simpl in Hs, Hw. apply andb_true_iff in Hs as [Ha Hs].
    destruct width as [|width]; [lia |].
    rewrite append_cons. cbn [scan_while]. rewrite Ha.
    rewrite IH; [reflexivity | assumption | lia | assumption].
Qed.

Lemma skip_space_nonspace (c : ascii) (r : string) :
  isspace (code c) = false -> skip_space (String c r) = String c r.
Proof. intros H. simpl. now rewrite H. Qed.

(** The line that SaveDefaultCollection writes for a setting is split by
    [fscanf] into the name and the value text. *)
Lemma fscanf_cvar_line (n t rest : string) :
  one_word n = true -> line_text t = true ->
  fscanf_cvar (n +:+ " " +:+ t +:+ newline +:+ rest) = (2, n, t, skip_space rest).
Proof.
  unfold one_word, line_text.
  intros [[Hn1 Hn2]%andb_true_iff Hn3%Nat.leb_le]%andb_true_iff.
  intros [[[Ht1 Ht2]%andb_true_iff Ht3%Nat.leb_le]%andb_true_iff _]%andb_true_iff.
  destruct n as [|a n]; [discriminate |].
  destruct t as [|b t]; [discriminate |].
  apply negb_true_iff in Ht1.
  assert (Ha : isspace (code a) = false).
  { simpl in Hn2. apply andb_true_iff in Hn2 as [Ha _]. now apply negb_true_iff. }
  unfold fscanf_cvar.
  rewrite append_cons, (skip_space_nonspace a _ Ha), <- append_cons.
  change (String a n +:+ " " +:+ String b t +:+ newline +:+ rest)
    with (String a n +:+ String " " (String b t +:+ newline +:+ rest)).
  rewrite scan_while_app; [|assumption | assumption | reflexivity].
  cbn [skip_space]. change (isspace (code " ")) with true. cbv iota.
  rewrite append_cons, (skip_space_nonspace b _ Ht1), <- append_cons.
  change (newline +:+ rest) with (String (chr 10) rest).
  rewrite scan_while_app; [|assumption | assumption | reflexivity].
  cbn [skip_space]. change (isspace (code (chr 10))) with true. reflexivity.
Qed.

Lemma line_text_graphic (t : string) :
  t <> "" -> string_forall graphic t = true -> (String.length t <= 255)%nat ->
  line_text t = true.
Proof.
  intros Hne Hg Hlen. unfold line_text.
  destruct (last_char_nonempty t Hne) as [c Hc]. rewrite Hc.
  pose proof (last_char_forall _ _ _ Hg Hc) as Hgc.
  destruct t as [|a t]; [congruence |].
  pose proof Hg as Hg'. simpl in Hg'. apply andb_true_iff in Hg' as [Hga _].
  assert (Hsp : forall z, graphic z = true ->
            isspace z = false /\ (z =? 10) = false /\ isprint z = true).
  { intros z Hz. unfold graphic in Hz. unfold isspace, isprint.
    apply andb_true_iff in Hz as [H1%Z.leb_le H2%Z.leb_le].
    repeat match goal with
           | |- context [?a =? ?b] => destruct (Z.eqb_spec a b); try lia
           | |- context [?a <=? ?b] => destruct (Z.leb_spec a b); try lia
           end; auto. }
  destruct (Hsp _ Hga) as (-> & _ & _). destruct (Hsp _ Hgc) as (_ & _ & ->).
  apply Nat.leb_le in Hlen. rewrite Hlen.
  rewrite (string_forall_impl graphic (λ c, negb (c =? 10))); auto.
  intros z Hz. destruct (Hsp z Hz) as (_ & -> & _). reflexivity.
Qed.

Lemma line_text_strip (t : string) :
  line_text t = true -> strip_nonprintable t = t.
Proof.
  unfold line_text. intros [_ Hl]%andb_true_iff.
  destruct (last_char t) as [c|] eqn:Hc; [|discriminate].
  now apply (strip_nonprintable_last t c).
Qed.

Lemma utoa_length (base n : Z) (k : nat) :
  1 < base -> 0 <= n < base ^ Z.of_nat k -> (0 < k)%nat ->
  (String.length (utoa base n) <= k)%nat.
Proof.
  intros Hb Hn Hk. unfold utoa.
  rewrite length_string_of_chars, length_map. now apply digits_length.
Qed.

Lemma utoa_nonempty (base n : Z) : utoa base n <> "".
Proof.
  unfold utoa.
  pose proof (digits_nonempty (Z.to_nat (Z.log2 n)) base n) as H.
  destruct (digits _ base n); [congruence | discriminate].
Qed.

Lemma printf_i_line_text (z : Z) (tail : string) :
  is_int z -> tail = "" \/ tail = "%" -> line_text (printf_i z +:+ tail) = true.
Proof.
  intros Hz Ht. unfold is_int, INT_MIN, INT_MAX in Hz.
  assert (Hg : string_forall graphic (printf_i z) = true).
  { eapply string_forall_impl; [|apply printf_i_numeric].
    intros c Hc. unfold numeric, isdigit in Hc. unfold graphic.
    repeat match type of Hc with
           | context [?a =? ?b] => destruct (Z.eqb_spec a b); try lia
           | context [?a <=? ?b] => destruct (Z.leb_spec a b); try lia
           end; cbn in Hc; try discriminate;
      repeat match goal with
             | |- context [?a <=? ?b] => destruct (Z.leb_spec a b); try lia
             end; reflexivity. }
  assert (Hlen : (String.length (printf_i z) <= 11)%nat).
  { unfold printf_i. destruct (Z.ltb_spec z 0).
    - simpl. pose proof (utoa_length 10 (- z) 10 ltac:(lia) ltac:(simpl; lia)
                           ltac:(lia)). lia.
    - pose proof (utoa_length 10 z 10 ltac:(lia) ltac:(simpl; lia) ltac:(lia)). lia. }
  apply line_text_graphic.
  - pose proof (printf_i_nonempty z). destruct (printf_i z); [congruence | discriminate].
  - rewrite string_forall_app, Hg. destruct Ht as [-> | ->]; reflexivity.
  - rewrite length_append. destruct Ht as [-> | ->]; simpl; lia.
Qed.

Lemma printf_x_line_text (z : Z) : line_text ("0x" +:+ printf_x z) = true.
Proof.
  assert (Hu : 0 <= to_unsigned z < 2 ^ 32)
    by (unfold to_unsigned; apply Z.mod_pos_bound; lia).
  apply line_text_graphic.
  - discriminate.
  - rewrite string_forall_app. apply andb_true_iff. split; [reflexivity |].
    eapply string_forall_impl; [|apply utoa_hex_digits; lia].
    intros c Hc. unfold is_digit_or_af, isdigit in Hc. unfold graphic.
    repeat match type of Hc with
           | context [?a <=? ?b] => destruct (Z.leb_spec a b); try lia
           end; cbn in Hc; try discriminate;
      repeat match goal with
             | |- context [?a <=? ?b] => destruct (Z.leb_spec a b); try lia
             end; reflexivity.
  - rewrite length_append.
    pose proof (utoa_length 16 (to_unsigned z) 8 ltac:(lia) ltac:(simpl; lia)
                  ltac:(lia)).
    unfold printf_x. simpl. lia.
Qed.

Lemma decimal_text_line_text (neg : bool) (li lf : list Z) (tail : string) :
  li <> [] -> Forall decimal_digit li -> Forall decimal_digit lf ->
  tail = "" \/ tail = "%" -> (length li <= 39)%nat -> (length lf <= 2)%nat ->
  line_text (decimal_text neg li lf tail) = true.
Proof.
  intros Hne Hi Hf Ht Hli Hlf. apply line_text_graphic.
  - unfold decimal_text. destruct neg; [discriminate |].
    destruct li; [congruence | discriminate].
  - eapply string_forall_impl; [|now apply decimal_text_float_chars].
    intros c Hc. unfold float_char, isdigit in Hc. unfold graphic.
    repeat match type of Hc with
           | context [?a =? ?b] => destruct (Z.eqb_spec a b); try lia
           | context [?a <=? ?b] => destruct (Z.leb_spec a b); try lia
           end; cbn in Hc; try discriminate;
      repeat match goal with
             | |- context [?a <=? ?b] => destruct (Z.leb_spec a b); try lia
             end; reflexivity.
  - pose proof (length_decimal_text neg li lf tail).
    destruct Ht as [-> | ->]; simpl in *; lia.
Qed.

Lemma decimal_text_percent (neg : bool) (li lf : list Z) :
  decimal_text neg li lf "" +:+ "%" = decimal_text neg li lf "%".
Proof.
  unfold decimal_text. now rewrite !append_assoc, append_nil_l.
Qed.

Lemma alias_line_text (j : nat) (b : alias_t) :
  aliases !! j = Some b -> text b <> "" -> line_text (text b) = true.
Proof.
  intros Hj Hne.
  assert (Hall : aliases_line_text = true) by (vm_compute; reflexivity).
  unfold aliases_line_text in Hall. rewrite forallb_forall in Hall.
  specialize (Hall b ltac:(apply list_elem_of_In, list_elem_of_lookup; eauto)).
  apply orb_true_iff in Hall as [H%String.eqb_eq | H]; [contradiction | exact H].
Qed.

Lemma alias_of_text_alias (j : nat) (b : alias_t) (s : string) :
  aliases !! j = Some b -> text b <> "" -> strcasecmp s (text b) = 0 ->
  alias_of_text s (aset b) = Ok (Some (value b)).
Proof.
  intros Hj Hne Hcmp.
  destruct (alias_loop_first
              (λ a, (strcasecmp s (text a) =? 0) && (aset b =? aset a))
              aliases 0 j b Hj)
    as (j2 & c & Hloop & _ & Hc & Htest & _).
  { now rewrite Hcmp, !Z.eqb_refl. }
  { apply (aliases_before_end_marker j b Hj Hne). }
  apply andb_true_iff in Htest as [Hct%Z.eqb_eq Hcs%Z.eqb_eq].
  unfold alias_of_text.
  rewrite Hloop; cbn [bind fmap option_fmap option_map].
  do 2 f_equal. symmetry.
  apply (aliases_same_text_same_value j j2 b c Hj Hc Hcs).
  apply strcasecmp_folded. apply strcasecmp_folded in Hcmp, Hct. congruence.
Qed.

Lemma alias_of_float_cases (v : float) (set : Z) :
  alias_of_float v set = Ok None \/
  exists j b y, alias_of_float v set = Ok (Some (text b)) /\
                aliases !! j = Some b /\ text b <> "" /\ aset b = set /\
                float_of_int (value b) = Ok y /\ Feqb v y = true.
Proof.
  unfold alias_of_float.
  destruct (alias_loop_aliases
              (λ a, match float_of_int (value a) with
                    | Ok x => Feqb v x
                    | Fault _ => false
                    end && (set =? aset a)))
    as [[b|] Hloop]; rewrite Hloop; cbn [bind]; [right | now left].
  destruct (alias_loop_found _ _ _ _ Hloop) as (j & Hj & Htest & _).
  apply andb_true_iff in Htest as [Hv Hs%Z.eqb_eq].
  destruct (float_of_int (value b)) as [y|] eqn:Ey; [|discriminate].
  exists j, b, y. repeat split; auto.
  revert Hloop. generalize 0 at 1. clear.
  induction aliases as [|x l IH]; intros j0; simpl; [discriminate |].
  destruct (text x) eqn:Ex; [discriminate |].
  destruct (_ && _); [|apply IH].
  intros [= <-]. congruence.
Qed.

Lemma strip_percent_keeps (t : string) (c : ascii) :
  last_char t = Some c -> (code c =? 37) = false -> strip_percent t = Ok t.
Proof. intros Hl Hc. unfold strip_percent. rewrite Hl. change (ch "%") with 37. now rewrite Hc. Qed.

Lemma strip_percent_snoc (t : string) : strip_percent (t +:+ "%") = Ok t.
Proof.
  unfold strip_percent. rewrite last_char_snoc.
  change (code "%" =? ch "%") with true. cbv iota. now rewrite drop_last_snoc.
Qed.

(** ** Saving a value and loading it again *)

Lemma ParseFloatParameter_alias (j : nat) (b : alias_t) (s : string) :
  aliases !! j = Some b -> text b <> "" -> strcasecmp s (text b) = 0 ->
  ParseFloatParameter s (aset b) = float_of_int (value b).
Proof.
  intros Hj Hne Hcmp. unfold ParseFloatParameter.
  now rewrite (alias_of_text_alias j b s Hj Hne Hcmp).
Qed.

(** The text that SaveDefaultCollection writes for a value that the format
    keeps is read by the [switch] of LoadDefaultCollection as that value. *)
Lemma save_load_value (K : doomkeys) (parm0 : Z) (c : config) (i : nat)
    (d : default_t) (v : val) :
  vars c !! location d = Some v -> kept_value (type d) v ->
  exists t w,
    SaveValue K (vars c) d = Ok t /\ line_text t = true /\
    LoadValue K parm0 t i d c = Ok (write_var (location d) w c) /\
    same_val v w.
Proof.
  intros Hv Hex. unfold SaveValue, LoadValue, read_int, read_float, read_string.
  destruct (type d) eqn:Ety; destruct v as [z | x | s]; try contradiction;
    cbn [kept_value] in Hex; rewrite Hv; cbn [bind].
  - (* DEFAULT_INT *)
    destruct (alias_of_int_cases z (set d)) as [Ha | [t Ha]]; rewrite Ha; cbn [bind default].
    + exists (printf_i z), (VInt z).
      split; [reflexivity |]. split.
      { rewrite <- (append_nil_r (printf_i z)). apply printf_i_line_text; [|now left].
        unfold is_int, INT_MIN, INT_MAX in *. lia. }
      split; [|reflexivity].
      now rewrite ParseIntParameter_printf_i.
    + destruct (alias_of_int_found _ _ _ Ha) as (j & b & Hj & <- & <- & <- & Hne).
      exists (text b), (VInt (value b)).
      split; [reflexivity |]. split; [now apply (alias_line_text j) |].
      split; [|reflexivity].
      now rewrite (ParseIntParameter_alias K parm0 j b (text b) Hj Hne (strcasecmp_refl _)).
  - (* DEFAULT_INT_HEX *)
    exists ("0x" +:+ printf_x z), (VInt z).
    split; [reflexivity |]. split; [apply printf_x_line_text |].
    split; [|reflexivity].
    now rewrite ParseIntParameter_printf_x.
  - (* DEFAULT_INT_PERCENT *)
    destruct (alias_of_int_cases z (set d)) as [Ha | [t Ha]]; rewrite Ha; cbn [bind default].
    + exists (printf_i z +:+ "%"), (VInt z).
      split; [reflexivity |]. split.
      { apply printf_i_line_text; [|now right].
        unfold is_int, INT_MIN, INT_MAX in *. lia. }
      split; [|reflexivity].
      rewrite strip_percent_snoc; cbn [bind].
      now rewrite ParseIntParameter_printf_i.
    + destruct (alias_of_int_found _ _ _ Ha) as (j & b & Hj & <- & <- & <- & Hne).
      exists (text b), (VInt (value b)).
      split; [reflexivity |]. split; [now apply (alias_line_text j) |].
      split; [|reflexivity].
      destruct (alias_last_char j b Hj Hne) as (ch & Hl & Hp & _).
      rewrite (strip_percent_keeps _ _ Hl Hp); cbn [bind].
      now rewrite (ParseIntParameter_alias K parm0 j b (text b) Hj Hne (strcasecmp_refl _)).
  - (* DEFAULT_FLOAT *)
    destruct (alias_of_float_cases x (set d))
      as [Ha | (j & b & y & Ha & Hj & Hne & Hset & Hy & Hxy)]; rewrite Ha; cbn [bind];
      [destruct Hex as [[Hx Hdec] | Hnear] |].
    + destruct (striptrailingzero_exact2 x Hx Hdec)
        as (li & lf & Ht & Hli & Hi & Hf & Hlf & H39 & H2 & Hval).
      destruct (ParseFloatParameter_decimal_text x li lf "" (set d))
        as (y & Hy & Hxy); auto.
      exists (decimal_text (Fnum x <? 0) li lf ""), (VFloat y).
      split; [exact Ht |].
      split; [apply decimal_text_line_text; auto |].
      split; [|exact Hxy]. now rewrite Hy.
    + destruct (nearest_written_read2 x (set d) Hnear)
        as (li & lf & Ht & Hli & Hi & Hf & H39 & H2 & Hparse).
      exists (decimal_text (Fnum x <? 0) li lf ""), (VFloat x).
      split; [exact Ht |].
      split; [apply decimal_text_line_text; auto |].
      split; [|apply Feqb_refl]. now rewrite Hparse.
    + exists (text b), (VFloat y).
      split; [reflexivity |]. split; [now apply (alias_line_text j) |].
      split; [|exact Hxy].
      rewrite <- Hset.
      now rewrite (ParseFloatParameter_alias j b (text b) Hj Hne (strcasecmp_refl _)), Hy.
  - (* DEFAULT_FLOAT_PERCENT *)
    destruct (alias_of_float_cases x (set d))
      as [Ha | (j & b & y & Ha & Hj & Hne & Hset & Hy & Hxy)]; rewrite Ha; cbn [bind];
      [destruct Hex as [[Hx Hdec] | Hnear] |].
    + destruct (striptrailingzero_exact1 x Hx Hdec)
        as (li & lf & Ht & Hli & Hi & Hf & H39 & H1 & Hval).
      destruct (ParseFloatParameter_decimal_text x li lf "%" (set d))
        as (y & Hy & Hxy); auto.
      exists (decimal_text (Fnum x <? 0) li lf "%"), (VFloat y).
      rewrite Ht; cbn [bind]. rewrite decimal_text_percent.
      split; [reflexivity |].
      split; [apply decimal_text_line_text; auto; lia |].
      split; [|exact Hxy].
      rewrite <- decimal_text_percent at 1. rewrite strip_percent_snoc; cbn [bind].
      now rewrite Hy.
    + destruct (nearest_written_read1 x (set d) Hnear)
        as (li & lf & Ht & Hli & Hi & Hf & H39 & H1 & Hparse).
      exists (decimal_text (Fnum x <? 0) li lf "%"), (VFloat x).
      rewrite Ht; cbn [bind]. rewrite decimal_text_percent.
      split; [reflexivity |].
      split; [apply decimal_text_line_text; auto; lia |].
      split; [|apply Feqb_refl].
      rewrite <- decimal_text_percent at 1. rewrite strip_percent_snoc; cbn [bind].
      now rewrite Hparse.
    + exists (text b), (VFloat y).
      split; [reflexivity |]. split; [now apply (alias_line_text j) |].
      split; [|exact Hxy].
      destruct (alias_last_char j b Hj Hne) as (ch & Hl & Hp & _).
      rewrite (strip_percent_keeps _ _ Hl Hp); cbn [bind].
      rewrite <- Hset.
      now rewrite (ParseFloatParameter_alias j b (text b) Hj Hne (strcasecmp_refl _)), Hy.
  - (* DEFAULT_STRING *)
    destruct Hex as [Hnl Hlen].
    exists (dq +:+ s +:+ dq), (VString s).
    split; [reflexivity |]. split.
    { unfold line_text, dq. rewrite append_cons, append_nil_l.
      replace (last_char (String (ascii_of_nat 34) (s +:+ String (ascii_of_nat 34) "")))
        with (Some (ascii_of_nat 34))
        by (symmetry; rewrite <- append_cons; apply last_char_snoc).
      cbn [string_forall String.length]. rewrite string_forall_app, Hnl, length_append.
      apply andb_true_intro; split; [|reflexivity].
      apply andb_true_intro; split; [reflexivity |].
      apply Nat.leb_le. cbn [String.length]. lia. }
    split; [|reflexivity].
    unfold strip_quotes, dq. rewrite append_cons, append_nil_l.
    destruct (s +:+ String (ascii_of_nat 34) "") eqn:E; [destruct s; discriminate |].
    now rewrite <- E, drop_last_snoc.
Qed.

(** The line that the loop of SaveDefaultCollection writes for one
    setting. *)
Lemma SaveCvars_one (K : doomkeys) (m : gmap string val) (d : default_t) (t rest : string) :
  SaveValue K m d = Ok t ->
  exists line,
    SaveCvars K m [d] = Ok line /\
    line +:+ rest = name d +:+ " " +:+ t +:+ newline +:+ rest.
Proof.
  intros Ht. exists (name d +:+ " " +:+ t +:+ newline +:+ "").
  split; [cbn [SaveCvars]; rewrite Ht; reflexivity |].
  now rewrite !append_assoc, append_nil_l.
Qed.


(** The [fscanf] for a bind line reads nothing of an input that does not
    start with [b]. *)
Lemma fscanf_bind_other (a : ascii) (s : string) :
  code a <> ch "b" -> fscanf_bind (String a s) = (0, "", "", String a s).
Proof.
  intros Hb. unfold fscanf_bind. cbn [match_literal].
  change (ch "b") with (code "b") in Hb.
  destruct (Z.eqb_spec (code "b") (code a)) as [E|]; [congruence | reflexivity].
Qed.

(** One turn of the loop on the line of a setting. *)
Lemma LoadTurn_line (K : doomkeys) (C_StripQuotes : string -> string)
    (C_Bind : string -> string -> string -> config -> result config)
    (parm0 : Z) (n t rest : string) (c : config) :
  name_ok n = true -> line_text t = true ->
  LoadTurn K C_StripQuotes C_Bind parm0 (n +:+ " " +:+ t +:+ newline +:+ rest) c
  = (c' <- LoadLine K parm0 n t c ;; Ok (c', skip_space rest)).
Proof.
  unfold name_ok. intros [Hw Hb%negb_true_iff%Z.eqb_neq]%andb_true_iff Ht.
  unfold LoadTurn.
  assert (Hlit : fscanf_bind (n +:+ " " +:+ t +:+ newline +:+ rest)
                 = (0, "", "", n +:+ " " +:+ t +:+ newline +:+ rest)).
  { destruct n as [|a n]; [discriminate |].
    rewrite append_cons. apply fscanf_bind_other. exact Hb. }
  rewrite Hlit. now rewrite (fscanf_cvar_line _ _ _ Hw Ht).
Qed.

Lemma LoadRecord_line (K : doomkeys) (parm0 : Z) (n t rest : string) (c : config) :
  name_ok n = true -> line_text t = true ->
  LoadRecord K parm0 (n +:+ " " +:+ t +:+ newline +:+ rest) c
  = (c' <- LoadLine K parm0 n t c ;; Ok (c', skip_space rest)).
Proof. apply LoadTurn_line. Qed.




(** ** Saving a key and loading it again *)

Lemma find_cvar_lookup (n : string) (l : list default_t) (k i : nat) (d : default_t) :
  find_cvar n l k = Some (i, d) -> exists j, i = (k + j)%nat /\ l !! j = Some d.
Proof.
  revert k; induction l as [|x l IH]; intros k; cbn [find_cvar]; [discriminate |].
  destruct (strcmp n (name x) =? 0).
  - intros [= <- <-]. exists 0%nat. split; [lia | reflexivity].
  - intros (j & -> & Hj)%IH. exists (S j). split; [lia | exact Hj].
Qed.

Lemma quoted_eq (k : Z) :
  quoted k = String (ascii_of_nat 39) (String (chr k) (String (ascii_of_nat 39) "")).
Proof. reflexivity. Qed.

Lemma folded_quoted (k : Z) :
  isprint k = true -> folded (quoted k) = [39; tolower k; 39].
Proof.
  unfold isprint. intros [H1%Z.leb_le H2%Z.leb_le]%andb_true_iff.
  rewrite quoted_eq. cbn [folded].
  rewrite code_chr by lia.
  change (code (ascii_of_nat 39)) with 39.
  destruct (Z.eqb_spec k 0); [lia |]. reflexivity.
Qed.

Lemma alias_of_text_quoted (k set : Z) :
  isprint k = true -> ~ (k = 43 /\ set = 3) ->
  alias_of_text (quoted k) set = Ok None.
Proof.
  intros Hk Hplus.
  destruct (alias_of_text_cases (quoted k) set)
    as [H | (j & b & Hj & H & Hcmp & Hset)]; [assumption | exfalso].
  assert (Hall : aliases_quoted_plus = true) by (vm_compute; reflexivity).
  unfold aliases_quoted_plus in Hall. rewrite forallb_forall in Hall.
  specialize (Hall b ltac:(apply list_elem_of_In, list_elem_of_lookup; eauto)).
  apply strcasecmp_folded in Hcmp. rewrite <- Hcmp, (folded_quoted k Hk) in Hall.
  cbn in Hall. apply andb_true_iff in Hall as [Hx%Z.eqb_eq Hs%Z.eqb_eq].
  apply Hplus. split; [|congruence].
  unfold tolower in Hx.
  destruct ((65 <=? k) && (k <=? 90)) eqn:E; [|assumption].
  apply andb_true_iff in E as [?%Z.leb_le ?%Z.leb_le]. lia.
Qed.

Lemma ParseIntParameter_quoted (K : doomkeys) (parm0 k set raw : Z) :
  isprint k = true -> ~ (k = 43 /\ set = 3) ->
  find_scancode (scantokey K) 0 (tolower k) = Some raw ->
  ParseIntParameter K parm0 (quoted k) set = Ok raw.
Proof.
  intros Hk Hplus Hfind. unfold ParseIntParameter.
  rewrite (alias_of_text_quoted k set Hk Hplus). cbn [bind].
  rewrite quoted_eq. cbn [char_at bind].
  change (code (ascii_of_nat 39)) with 39. change (ch "'") with 39.
  rewrite Z.eqb_refl. cbn [bind].
  unfold isprint in Hk. apply andb_true_iff in Hk as [H1%Z.leb_le H2%Z.leb_le].
  rewrite code_chr by lia. now rewrite Hfind.
Qed.

Lemma quoted_line_text (k : Z) : isprint k = true -> line_text (quoted k) = true.
Proof.
  intros Hk. pose proof Hk as Hk'.
  unfold isprint in Hk. apply andb_true_iff in Hk as [H1%Z.leb_le H2%Z.leb_le].
  rewrite quoted_eq. unfold line_text. cbn [string_forall String.length last_char].
  rewrite code_chr by lia.
  change (code (ascii_of_nat 39)) with 39.
  destruct (Z.eqb_spec k 10); [lia |]. reflexivity.
Qed.

Lemma translate_spec (K : doomkeys) (raw : Z) :
  (if (0 <=? raw) && (raw <? 128) then scantokey_at K raw else Ok INVALIDKEY)
  = Ok (translate K raw).
Proof.
  unfold translate.
  destruct ((0 <=? raw) && (raw <? 128)) eqn:E; [|reflexivity].
  apply andb_true_iff in E as [?%Z.leb_le ?%Z.ltb_lt].
  destruct (scantokey_at_in_range K raw) as (k & -> & ->); [lia | reflexivity].
Qed.

Lemma SaveKey_loaded (K : doomkeys) (n l : string) (st raw : Z) :
  exists br,
    SaveKey K (loaded_key K n l st raw) (translate K raw)
    = (t <- print_scancode K raw st ;; Ok (br, t)).
Proof.
  unfold SaveKey, loaded_key; cbn [untranslated original_translated set].
  rewrite Z.eqb_refl, andb_true_r.
  destruct (Z.eqb_spec raw 0) as [-> | Hne]; cbn [negb].
  - exists ReverseSearch. reflexivity.
  - exists UseUntranslated. reflexivity.
Qed.




(** A scancode outside the table that has no alias is not saved at all:
    SaveDefaultCollection reads [scantokey] at it. *)
Lemma SaveValue_scancode_out_of_range (K : doomkeys) (m : gmap string val)
    (n l : string) (st raw : Z) :
  m !! l = Some (VInt (translate K raw)) ->
  alias_of_int raw st = Ok None -> ~ 0 <= raw < 128 ->
  SaveValue K m (loaded_key K n l st raw) = Fault (OutOfBounds "scantokey" raw).
Proof.
  intros Hv Ha Hraw. unfold SaveValue, read_int. cbn [type location loaded_key].
  rewrite Hv. cbn [bind]. fold (loaded_key K n l st raw).
  destruct (SaveKey_loaded K n l st raw) as [br ->].
  unfold print_scancode. rewrite Ha. cbn [bind].
  now rewrite scantokey_at_out_of_range.
Qed.


(** * Further properties *)

(** ** The loop of LoadDefaultCollection ends *)











(** ** The settings that SaveDefaultCollection writes, read back *)












Lemma kept_zero_val (ty : default_type_t) :
  ty <> DEFAULT_KEY -> kept_value ty (zero_val ty).
Proof.
  destruct ty; intros H; try congruence; cbn [kept_value zero_val].
  - unfold INT_MAX. lia.
  - unfold is_int, INT_MIN, INT_MAX. lia.
  - unfold INT_MAX. lia.
  - left. split; [unfold is_binary32; cbn; lia | reflexivity].
  - left. split; [unfold is_binary32; cbn; lia | reflexivity].
  - split; [reflexivity | cbn; lia].
Qed.


(** ** Lines that LoadDefaultCollection reads like the ones written *)

Lemma skip_space_app (ws s : string) :
  string_forall isspace ws = true -> skip_space (ws +:+ s) = skip_space s.
Proof.
  induction ws as [|a ws IH]; [intros _; now rewrite append_nil_l |].
  cbn [string_forall]. intros [Ha Hws]%andb_true_iff.
  rewrite append_cons. cbn [skip_space]. rewrite Ha. auto.
Qed.

Lemma strip_nonprintable_junk (junk : string) :
  string_forall (λ c, negb (isprint c)) junk = true -> strip_nonprintable junk = "".
Proof.
  induction junk as [|a junk IH]; [reflexivity |].
  cbn [string_forall]. intros [Ha%negb_true_iff Hj]%andb_true_iff.
  cbn [strip_nonprintable]. now rewrite (IH Hj), Ha.
Qed.

Lemma strip_nonprintable_app (t junk : string) :
  strip_nonprintable t = t -> t <> "" ->
  string_forall (λ c, negb (isprint c)) junk = true ->
  strip_nonprintable (t +:+ junk) = t.
Proof.
  intros Ht Hne Hj. revert Ht Hne. induction t as [|a t IH]; [congruence |].
  intros Ht _. rewrite append_cons. cbn [strip_nonprintable] in *.
  destruct t as [|b t].
  - rewrite append_nil_l, (strip_nonprintable_junk junk Hj). exact Ht.
  - destruct (strip_nonprintable (String b t)) as [|x r] eqn:E.
    + destruct (isprint (code a)); discriminate.
    + injection Ht as Ht. rewrite IH; [reflexivity | congruence | discriminate].
Qed.

(** One turn of the loop on a name, white space, a value text, characters
    that are not printable and the end of the line. *)
Lemma LoadRecord_text (K : doomkeys) (parm0 : Z) (n ws t junk rest : string)
    (c : config) :
  name_ok n = true ->
  ws <> "" -> string_forall isspace ws = true ->
  line_text t = true ->
  string_forall (λ c, negb (isprint c) && negb (c =? 10)) junk = true ->
  (String.length t + String.length junk <= 255)%nat ->
  LoadRecord K parm0 (n +:+ ws +:+ t +:+ junk +:+ newline +:+ rest) c
  = (c' <- LoadLine K parm0 n t c ;; Ok (c', skip_space rest)).
Proof.
  unfold name_ok, one_word, line_text.
  intros [[[Hn1 Hn2]%andb_true_iff Hn3%Nat.leb_le]%andb_true_iff
            Hb%negb_true_iff%Z.eqb_neq]%andb_true_iff.
  intros Hws1 Hws2 Ht Hj Hlen. pose proof Ht as Hline.
  apply andb_true_iff in Ht as [[[Ht1 Ht2]%andb_true_iff _]%andb_true_iff Ht4].
  destruct n as [|a n]; [discriminate |].
  destruct t as [|b t]; [discriminate |].
  destruct ws as [|w ws]; [congruence |].
  apply negb_true_iff in Ht1.
  assert (Ha : isspace (code a) = false).
  { cbn in Hn2. apply andb_true_iff in Hn2 as [Ha _]. now apply negb_true_iff. }
  assert (Hw : isspace (code w) = true).
  { cbn in Hws2. now apply andb_true_iff in Hws2 as [Hw _]. }
  unfold LoadRecord, LoadTurn.
  assert (Hlit : fscanf_bind (String a n +:+ String w ws +:+ String b t
                                +:+ junk +:+ newline +:+ rest)
                 = (0, "", "", String a n +:+ String w ws +:+ String b t
                                 +:+ junk +:+ newline +:+ rest)).
  { rewrite append_cons. apply fscanf_bind_other. exact Hb. }
  rewrite Hlit. clear Hlit. unfold fscanf_cvar.
  rewrite append_cons, (skip_space_nonspace a _ Ha), <- append_cons.
  rewrite (append_cons w).
  rewrite scan_while_app;
    [|assumption | assumption | now rewrite Hw].
  rewrite <- (append_cons w), (skip_space_app (String w ws) _ Hws2).
  replace (String b t +:+ junk +:+ newline +:+ rest)
    with ((String b t +:+ junk) +:+ String (chr 10) rest)
    by (now rewrite append_assoc).
  rewrite (append_cons b t junk), (append_cons b (t +:+ junk)).
  rewrite (skip_space_nonspace b _ Ht1).
  rewrite <- (append_cons b (t +:+ junk)), <- (append_cons b t junk).
  rewrite scan_while_app; [| | rewrite length_append; lia | reflexivity].
  2:{ rewrite string_forall_app, Ht2. cbn [andb].
      eapply string_forall_impl; [|exact Hj].
      intros z [_ Hz]%andb_true_iff. exact Hz. }
  rewrite append_cons at 1.
  cbn [skip_space]. change (isspace (code (chr 10))) with true. cbv iota.
  unfold LoadLine.
  rewrite (strip_nonprintable_app (String b t) junk);
    [| now apply line_text_strip | discriminate |].
  2:{ eapply string_forall_impl; [|exact Hj].
      intros z [Hz _]%andb_true_iff. exact Hz. }
  rewrite (line_text_strip _ Hline). reflexivity.
Qed.

(** X3: LoadDefaultCollection reads a line with a DOS line ending, or with
    any other characters that are not printable before the end of the
    line, as it reads the line without them (as long as the value and
    these characters are no more than the 255 that [fscanf] takes). *)
Theorem LoadRecord_strips_line_ending (K : doomkeys) (parm0 : Z)
    (n t junk rest : string) (c : config) :
  name_ok n = true -> line_text t = true ->
  string_forall (λ c, negb (isprint c) && negb (c =? 10)) junk = true ->
  (String.length t + String.length junk <= 255)%nat ->
  LoadRecord K parm0 (n +:+ " " +:+ t +:+ junk +:+ newline +:+ rest) c
  = LoadRecord K parm0 (n +:+ " " +:+ t +:+ newline +:+ rest) c.
Proof.
  intros Hn Ht Hj Hlen.
  rewrite (LoadRecord_text K parm0 n " " t junk rest c Hn ltac:(discriminate)
             eq_refl Ht Hj Hlen).
  now rewrite (LoadRecord_line K parm0 n t rest c Hn Ht).
Qed.

Lemma LoadRecord_strips_line_ending_witness :
  LoadRecord sample_keys 0
    ("runcount" +:+ " " +:+ "42" +:+ String (chr 13) "" +:+ newline +:+ "")
    (one_setting "runcount" (VInt 0))
  = LoadRecord sample_keys 0 ("runcount" +:+ " " +:+ "42" +:+ newline +:+ "")
      (one_setting "runcount" (VInt 0)).
Proof.
  apply (LoadRecord_strips_line_ending sample_keys 0 "runcount" "42"
           (String (chr 13) "") "" (one_setting "runcount" (VInt 0)));
    [reflexivity | reflexivity | reflexivity | simpl; lia].
Defined.

(** X4: any white space may stand between the name and the value of a
    setting, line breaks too: a name alone on its line takes the next line
    as its value. *)
Theorem LoadRecord_any_white_space (K : doomkeys) (parm0 : Z)
    (n ws t rest : string) (c : config) :
  name_ok n = true -> line_text t = true ->
  ws <> "" -> string_forall isspace ws = true ->
  LoadRecord K parm0 (n +:+ ws +:+ t +:+ newline +:+ rest) c
  = LoadRecord K parm0 (n +:+ " " +:+ t +:+ newline +:+ rest) c.
Proof.
  intros Hn Ht Hws1 Hws2.
  assert (Hlen : (String.length t + String.length "" <= 255)%nat).
  { unfold line_text in Ht.
    apply andb_true_iff in Ht as [[_ Hl%Nat.leb_le]%andb_true_iff _]. cbn. lia. }
  pose proof (LoadRecord_text K parm0 n ws t "" rest c Hn Hws1 Hws2 Ht eq_refl Hlen)
    as H.
  rewrite append_nil_l in H. rewrite H.
  now rewrite (LoadRecord_line K parm0 n t rest c Hn Ht).
Qed.

Lemma LoadRecord_any_white_space_witness :
  LoadRecord sample_keys 0
    ("runcount" +:+ newline +:+ "42" +:+ newline +:+ "")
    (one_setting "runcount" (VInt 0))
  = LoadRecord sample_keys 0 ("runcount" +:+ " " +:+ "42" +:+ newline +:+ "")
      (one_setting "runcount" (VInt 0)).
Proof.
  apply (LoadRecord_any_white_space sample_keys 0 "runcount" newline "42" ""
           (one_setting "runcount" (VInt 0)));
    [reflexivity | reflexivity | discriminate | reflexivity].
Defined.



(** ** The key code of a key setting, saved and loaded *)

Lemma find_scancode_first (table : list Z) (s0 k : Z) (j : nat) :
  table !! j = Some k ->
  exists j' : nat,
    find_scancode table s0 k = Some (s0 + Z.of_nat j') /\
    table !! j' = Some k /\ (j' <= j)%nat.
Proof.
  revert s0 j; induction table as [|x table IH]; intros s0 j Hj; [discriminate |].
  cbn [find_scancode]. destruct (Z.eqb_spec x k) as [-> | Hx].
  - exists 0%nat. split; [f_equal; lia |]. split; [reflexivity | lia].
  - destruct j as [|j]; [cbn in Hj; congruence |]. cbn in Hj.
    destruct (IH (s0 + 1) j Hj) as (j' & Hf & Hj' & Hle).
    exists (S j'). split; [rewrite Hf; f_equal; lia |]. split; [exact Hj' | lia].
Qed.

Lemma translate_lookup (K : doomkeys) (s : Z) :
  0 <= s < 128 -> scantokey K !! Z.to_nat s = Some (translate K s).
Proof.
  intros Hs. unfold translate.
  destruct (Z.leb_spec 0 s); [|lia]. destruct (Z.ltb_spec s 128); [|lia].
  cbn [andb]. destruct (scantokey_at_in_range K s Hs) as (k & -> & _). reflexivity.
Qed.

Lemma SaveKey_saved_scancode (K : doomkeys) (d : default_t) (v s : Z) :
  saved_scancode K d v = Some s ->
  exists br, SaveKey K d v = (t <- print_scancode K s (set d) ;; Ok (br, t)).
Proof.
  unfold saved_scancode, SaveKey.
  destruct (negb (untranslated d =? 0) && (v =? original_translated d)).
  - intros [= <-]. eauto.
  - intros ->. eauto.
Qed.

(** What SaveDefaultCollection prints for a scancode is read by
    ParseIntParameter as a scancode with the same translation. *)
Lemma print_then_parse_key_code (K : doomkeys) (parm0 s st : Z) :
  (alias_of_int s st = Ok None ->
   0 <= s < 128 /\
   (isprint (translate K s) = true ->
    tolower (translate K s) = translate K s /\ ~ (translate K s = 43 /\ st = 3))) ->
  exists t s',
    print_scancode K s st = Ok t /\ line_text t = true /\
    ParseIntParameter K parm0 t st = Ok s' /\
    translate K s' = translate K s.
Proof.
  intros Hkept. unfold print_scancode.
  destruct (alias_of_int_cases s st) as [Ha | [t Ha]]; rewrite Ha; cbn [bind].
  - destruct (Hkept Ha) as [Hs Hprint].
    pose proof (translate_spec K s) as Hk.
    destruct (Z.leb_spec 0 s); [|lia]. destruct (Z.ltb_spec s 128); [|lia].
    cbn [andb] in Hk. rewrite Hk. cbn [bind].
    destruct (isprint (translate K s)) eqn:Ep.
    + destruct (Hprint eq_refl) as [Hlow Hplus].
      destruct (find_scancode_first (scantokey K) 0 (translate K s) (Z.to_nat s)
                  (translate_lookup K s Hs)) as (j' & Hfind & Hj' & Hle).
      exists (quoted (translate K s)), (0 + Z.of_nat j').
      split; [reflexivity |]. split; [now apply quoted_line_text |].
      split; [apply ParseIntParameter_quoted; auto; now rewrite Hlow |].
      assert (Hr : 0 <= 0 + Z.of_nat j' < 128) by lia.
      pose proof (translate_lookup K _ Hr) as Ht.
      replace (Z.to_nat (0 + Z.of_nat j')) with j' in Ht by lia.
      congruence.
    + exists (printf_i s), s.
      split; [reflexivity |]. split.
      * rewrite <- (append_nil_r (printf_i s)).
        apply printf_i_line_text; [|now left]. unfold is_int, INT_MIN, INT_MAX. lia.
      * split; [|reflexivity]. apply ParseIntParameter_printf_i. unfold INT_MAX. lia.
  - destruct (alias_of_int_found _ _ _ Ha) as (j & b & Hj & <- & <- & <- & Hne).
    exists (text b), (value b).
    split; [reflexivity |]. split; [now apply (alias_line_text j) |].
    split; [|reflexivity].
    exact (ParseIntParameter_alias K parm0 j b (text b) Hj Hne (strcasecmp_refl _)).
Qed.

(** X6: the key code of a key setting survives SaveDefaultCollection and
    LoadDefaultCollection even where the raw scancode does not. Let [s] be
    the scancode that SaveDefaultCollection prints for the setting with
    key code [v], and let [scantokey] translate [s] to [v]. If [s] has an
    alias in the set of the setting, or is between 0 and 127 and [v] is
    not printable or is a printable character other than a capital letter
    and other than the plus sign in set 3, then the line written is read
    with [v] as the key code again, in the variable and in
    [original_translated], and with a scancode in [untranslated] that
    [scantokey] translates to [v]. *)
Theorem key_code_survives (K : doomkeys) (parm0 : Z) (c : config) (i : nat)
    (d : default_t) (v s : Z) (rest : string) :
  type d = DEFAULT_KEY ->
  name_ok (name d) = true ->
  find_cvar (name d) (cvars c) 0 = Some (i, d) ->
  vars c !! location d = Some (VInt v) ->
  saved_scancode K d v = Some s ->
  translate K s = v ->
  (alias_of_int s (set d) = Ok None ->
   0 <= s < 128 /\
   (isprint v = true -> tolower v = v /\ ~ (v = 43 /\ set d = 3))) ->
  exists line c' d',
    SaveCvars K (vars c) [d] = Ok line /\
    LoadRecord K parm0 (line +:+ rest) c = Ok (c', skip_space rest) /\
    vars c' !! location d = Some (VInt v) /\
    cvars c' !! i = Some d' /\
    original_translated d' = v /\ translate K (untranslated d') = v.
Proof.
  intros Hty Hname Hfind Hv Hs Htr Hkept. subst v.
  destruct (print_then_parse_key_code K parm0 s (set d) Hkept)
    as (t & s' & Hprint & Hline & Hparse & Hs').
  destruct (SaveKey_saved_scancode K d _ s Hs) as [br Hkey].
  assert (Hsave : SaveValue K (vars c) d = Ok t).
  { unfold SaveValue, read_int. rewrite Hty, Hv. cbn [bind].
    rewrite Hkey, Hprint. reflexivity. }
  destruct (SaveCvars_one K (vars c) d t rest Hsave) as (line & Hl & Heq).
  destruct (find_cvar_lookup _ _ _ _ _ Hfind) as (j & -> & Hj). cbn [Nat.add] in *.
  set (d' := {| name := name d; location := location d; type := DEFAULT_KEY;
                untranslated := s'; original_translated := translate K s';
                set := set d |}).
  exists line, (write_var (location d) (VInt (translate K s')) (write_cvar j d' c)), d'.
  split; [exact Hl |]. split.
  { rewrite Heq, (LoadRecord_line _ _ _ _ _ _ Hname Hline).
    unfold LoadLine. rewrite (line_text_strip _ Hline), Hfind.
    unfold LoadValue. rewrite Hty, Hparse. cbn [bind].
    rewrite translate_spec. reflexivity. }
  split; [cbn [write_var vars]; rewrite Hs'; apply lookup_insert_eq |].
  split.
  { cbn [write_var write_cvar cvars]. apply list_lookup_insert_eq.
    now apply lookup_lt_Some in Hj. }
  split; [exact Hs' | exact Hs'].
Qed.

Lemma key_code_survives_witness :
  exists line c' d',
    SaveCvars sample_keys (vars (key_config sample_keys 3 74))
      [loaded_key sample_keys "key_fire" "key_fire" 3 74] = Ok line /\
    LoadRecord sample_keys 0 (line +:+ "") (key_config sample_keys 3 74)
    = Ok (c', skip_space "") /\
    vars c' !! location (loaded_key sample_keys "key_fire" "key_fire" 3 74)
    = Some (VInt 45) /\
    cvars c' !! 0%nat = Some d' /\
    original_translated d' = 45 /\ translate sample_keys (untranslated d') = 45.
Proof.
  apply (key_code_survives sample_keys 0 (key_config sample_keys 3 74) 0
           (loaded_key sample_keys "key_fire" "key_fire" 3 74) 45 74 "").
  - reflexivity.
  - reflexivity.
  - reflexivity.
  - reflexivity.
  - reflexivity.
  - reflexivity.
  - intros _. split; [lia |]. intros _.
    split; [reflexivity |]. intros [H _]. discriminate.
Defined.

(** ** The pixel size in M_CheckDefaults *)

Lemma shrink_to_divisor_greatest (size : Z) (fuel : nat) (p : Z) :
  0 < size -> is_int size -> 0 < p <= INT_MAX -> (Z.to_nat p <= fuel)%nat ->
  exists q,
    shrink_to_divisor fuel size p = Ok (Some q) /\
    0 < q <= p /\ (q | size) /\
    (forall q', q < q' <= p -> ~ (q' | size)).
Proof.
  intros Hsize Hint. revert p; induction fuel as [|fuel IH]; intros p Hp Hfuel; [lia |].
  cbn [shrink_to_divisor]. unfold int_rem.
  destruct (Z.eqb_spec p 0); [lia |].
  destruct (Z.eqb_spec p (-1)); [lia |]. rewrite andb_false_r. cbn [bind].
  rewrite Z.rem_mod_nonneg by lia.
  destruct (Z.eqb_spec (size mod p) 0) as [E | E].
  - exists p. split; [reflexivity |]. split; [lia |].
    split; [apply Z.mod_divide; [lia | exact E] | intros q' Hq'; lia].
  - assert (Hp1 : p <> 1) by (intros ->; rewrite Z.mod_1_r in E; congruence).
    unfold int_op. unfold INT_MIN, INT_MAX in *.
    destruct (Z.leb_spec (- 2 ^ 31) (p - 1)); [|lia].
    destruct (Z.leb_spec (p - 1) (2 ^ 31 - 1)); [|lia]. cbn [andb bind].
    destruct (IH (p - 1) ltac:(lia) ltac:(lia)) as (q & Hq & Hrange & Hdiv & Hmax).
    exists q. split; [exact Hq |]. split; [lia |]. split; [exact Hdiv |].
    intros q' Hq'. destruct (Z.eq_dec q' p) as [-> | Hne].
    + intros Hd. apply E. apply Z.mod_divide; [lia | exact Hd].
    + apply Hmax. lia.
Qed.

(** X7: for a positive screen size and a lower bound of at least 1, the
    loop that fits the pixel size to the screen ends after at most
    [PIXEL_MAX] turns, without a division by zero, with the greatest
    divisor of the screen size that is not above the clamped setting. *)
Theorem M_CheckDefaults_pixel_greatest_divisor (SCREEN PIXEL_MIN PIXEL_MAX : Z)
    (fuel : nat) (pixel : Z) :
  0 < SCREEN -> is_int SCREEN ->
  1 <= PIXEL_MIN <= PIXEL_MAX -> PIXEL_MAX <= INT_MAX ->
  (Z.to_nat PIXEL_MAX <= fuel)%nat ->
  exists q,
    M_CheckDefaults_pixel SCREEN PIXEL_MIN PIXEL_MAX fuel pixel = Ok (Some q) /\
    1 <= q <= BETWEEN PIXEL_MIN pixel PIXEL_MAX /\
    PIXEL_MIN <= BETWEEN PIXEL_MIN pixel PIXEL_MAX <= PIXEL_MAX /\
    (q | SCREEN) /\
    (forall q', q < q' <= BETWEEN PIXEL_MIN pixel PIXEL_MAX -> ~ (q' | SCREEN)).
Proof.
  intros Hs Hint Hmin Hmax Hfuel. unfold M_CheckDefaults_pixel.
  assert (Hb : PIXEL_MIN <= BETWEEN PIXEL_MIN pixel PIXEL_MAX <= PIXEL_MAX).
  { unfold BETWEEN. destruct (Z.ltb_spec pixel PIXEL_MIN); [lia |].
    destruct (Z.ltb_spec PIXEL_MAX pixel); lia. }
  destruct (shrink_to_divisor_greatest SCREEN fuel (BETWEEN PIXEL_MIN pixel PIXEL_MAX))
    as (q & Hq & Hrange & Hdiv & Hgreat); [assumption | assumption | lia | lia |].
  exists q. split; [exact Hq |]. split; [lia |]. split; [exact Hb |].
  split; assumption.
Qed.

Lemma M_CheckDefaults_pixel_greatest_divisor_witness :
  exists q,
    M_CheckDefaults_pixel 640 2 8 8 7 = Ok (Some q) /\
    1 <= q <= BETWEEN 2 7 8 /\
    2 <= BETWEEN 2 7 8 <= 8 /\
    (q | 640) /\
    (forall q', q < q' <= BETWEEN 2 7 8 -> ~ (q' | 640)).
Proof.
  apply (M_CheckDefaults_pixel_greatest_divisor 640 2 8 8 7);
    unfold is_int, INT_MIN, INT_MAX; simpl; lia.
Defined.

(** ** [widescreen] in M_CheckDefaults and M_SaveDefaults *)

(** X8: whatever [widescreen] and [screensize] hold, and whatever
    WIDESCREEN_DEFAULT is, the statements of M_CheckDefaults on them leave
    [widescreen] false, and [returntowidescreen] or [hud] true. *)
Theorem M_CheckDefaults_widescreen_off (WIDESCREEN_DEFAULT SCREENSIZE_MAX : Z)
    (m : gmap string val) (w s : Z) :
  m !! "widescreen" = Some (VInt w) -> m !! "screensize" = Some (VInt s) ->
  exists m',
    M_CheckDefaults_widescreen WIDESCREEN_DEFAULT SCREENSIZE_MAX m = Ok m' /\
    m' !! "widescreen" = Some (VInt false_) /\
    (m' !! "returntowidescreen" = Some (VInt true_) \/
     m' !! "hud" = Some (VInt true_)).
Proof.
  intros Hw Hs. unfold M_CheckDefaults_widescreen, read_int. rewrite Hw. cbn [bind].
  set (m1 := if negb (w =? false_) && negb (w =? true_)
             then <["widescreen" := VInt WIDESCREEN_DEFAULT]> m else m).
  assert (H1 : exists w1, m1 !! "widescreen" = Some (VInt w1)).
  { subst m1. destruct (negb (w =? false_) && negb (w =? true_)).
    - exists WIDESCREEN_DEFAULT. apply lookup_insert_eq.
    - eauto. }
  assert (H2 : m1 !! "screensize" = Some (VInt s)).
  { subst m1. destruct (negb (w =? false_) && negb (w =? true_)); [|exact Hs].
    rewrite lookup_insert_ne by discriminate. exact Hs. }
  destruct H1 as [w1 H1]. rewrite H1, H2. cbn [bind].
  destruct (negb (w1 =? 0) || (s =? SCREENSIZE_MAX)) eqn:E.
  - eexists. split; [reflexivity |]. split; [apply lookup_insert_eq |].
    left. rewrite lookup_insert_ne by discriminate. apply lookup_insert_eq.
  - eexists. split; [reflexivity |].
    apply orb_false_iff in E as [E%negb_false_iff%Z.eqb_eq _]. subst w1.
    split; [rewrite lookup_insert_ne by discriminate; exact H1 |].
    right. apply lookup_insert_eq.
Qed.

Lemma M_CheckDefaults_widescreen_off_witness :
  exists m',
    M_CheckDefaults_widescreen 1 8
      (<["widescreen" := VInt 7]> (<["screensize" := VInt 3]> ∅)) = Ok m' /\
    m' !! "widescreen" = Some (VInt false_) /\
    (m' !! "returntowidescreen" = Some (VInt true_) \/
     m' !! "hud" = Some (VInt true_)).
Proof.
  apply (M_CheckDefaults_widescreen_off 1 8 _ 7 3); reflexivity.
Defined.

Lemma SaveCvars_app (K : doomkeys) (m : gmap string val) (l1 l2 : list default_t) :
  SaveCvars K m (l1 ++ l2)
  = (r1 <- SaveCvars K m l1 ;; r2 <- SaveCvars K m l2 ;; Ok (r1 +:+ r2)).
Proof.
  induction l1 as [|d l1 IH]; cbn [app SaveCvars bind].
  - destruct (SaveCvars K m l2); cbn [bind]; [now rewrite append_nil_l | reflexivity].
  - destruct (SaveValue K m d) as [t|]; cbn [bind]; [|reflexivity].
    rewrite IH. destruct (SaveCvars K m l1) as [r1|]; cbn [bind]; [|reflexivity].
    destruct (SaveCvars K m l2) as [r2|]; cbn [bind]; [|reflexivity].
    now rewrite !append_assoc.
Qed.

Lemma SaveCvars_kept (K : doomkeys) (c : config) (l : list default_t) :
  Forall (λ d, exists v, vars c !! location d = Some v /\ kept_value (type d) v) l ->
  exists t, SaveCvars K (vars c) l = Ok t.
Proof.
  induction l as [|d l IH]; intros H; [cbn; eauto|].
  apply Forall_cons in H as [(v & Hv & Hk) Hl].
  destruct (save_load_value K 0 c O d v Hv Hk) as (t & _ & Hsave & _).
  destruct (IH Hl) as [r Hr].
  cbn [SaveCvars]. rewrite Hsave, Hr. cbn [bind]. eauto.
Qed.

Lemma widescreen_is_int :
  forallb (λ d, if String.eqb (location d) "widescreen"
                then match type d with DEFAULT_INT => true | _ => false end
                else true) cvars_init = true.
Proof. vm_compute. reflexivity. Qed.

(** X9: M_SaveDefaults with [returntowidescreen] set, values that the
    format keeps in the settings, a file that can be written and bindings
    that SaveDefaultCollection can write: the file written has the line
    [vid_widescreen on] behind the lines of the settings before it,
    whatever [widescreen] held; afterwards [widescreen] is false and
    nothing else has changed. *)
Theorem M_SaveDefaults_records_widescreen (K : doomkeys) (controls : list control_t)
    (actions : list action_t) (c : config) (fs : filesystem) (r : Z) (binds : string) :
  cvars c = cvars_init -> can_write fs = true ->
  vars c !! "returntowidescreen" = Some (VInt r) -> r <> 0 ->
  Forall (λ d, exists v, vars c !! location d = Some v /\ kept_value (type d) v)
    cvars_init ->
  SaveActions controls (vars (write_var "widescreen" (VInt true_) c)) actions 0
  = Ok binds ->
  exists c' fs' pre post,
    M_SaveDefaults K controls actions c fs = Ok (c', fs') /\
    SaveCvars K (vars (write_var "widescreen" (VInt true_) c))
      (take vid_widescreen_index cvars_init) = Ok pre /\
    config_file fs' = Some (pre +:+ ("vid_widescreen on" +:+ newline) +:+ post) /\
    vars c' !! "widescreen" = Some (VInt false_) /\
    cvars c' = cvars c /\
    (forall x, x <> "widescreen" -> vars c' !! x = vars c !! x).
Proof.
  intros Hcv Hw Hr Hr0 Hkept Hact.
  set (c1 := write_var "widescreen" (VInt true_) c) in *.
  assert (Hkept1 : Forall (λ d, exists v, vars c1 !! location d = Some v /\
                                         kept_value (type d) v) cvars_init).
  { pose proof widescreen_is_int as Hi. rewrite forallb_forall in Hi.
    rewrite Forall_forall in Hkept. apply Forall_forall. intros d Hd.
    specialize (Hi d ltac:(now apply list_elem_of_In)).
    subst c1. cbn [write_var vars].
    destruct (String.eqb_spec (location d) "widescreen") as [E|E].
    - exists (VInt true_). rewrite E, lookup_insert_eq. split; [reflexivity|].
      destruct (type d); try discriminate. cbn. unfold true_, INT_MAX. lia.
    - destruct (Hkept d Hd) as (v & Hv & Hk). exists v.
      rewrite lookup_insert_ne by congruence. split; assumption. }
  destruct (SaveCvars_kept K c1 cvars_init Hkept1) as [t Ht].
  pose proof Ht as Hsplit.
  replace cvars_init
    with (take vid_widescreen_index cvars_init ++
          [vid_widescreen] ++ drop (S vid_widescreen_index) cvars_init)
    in Hsplit at 1 by reflexivity.
  rewrite !SaveCvars_app in Hsplit.
  apply bind_inv in Hsplit as (pre & Hpre & Hsplit).
  apply bind_inv in Hsplit as (mid & Hmid & [= <-]).
  apply bind_inv in Hmid as (line & Hline & Hmid).
  apply bind_inv in Hmid as (post & Hpost & [= <-]).
  assert (line = "vid_widescreen on" +:+ newline) as ->.
  { cbn [SaveCvars] in Hline. unfold SaveValue, read_int in Hline.
    cbn [type location vid_widescreen CONFIG_VARIABLE_INT CONFIG_VARIABLE_GENERIC]
      in Hline.
    subst c1. cbn [write_var vars] in Hline.
    rewrite lookup_insert_eq in Hline. cbn [bind] in Hline.
    vm_compute in Hline. injection Hline as <-. reflexivity. }
  exists (write_var "widescreen" (VInt false_) c1),
    {| config_file :=
         Some ((pre +:+ ("vid_widescreen on" +:+ newline) +:+ post)
               +:+ newline +:+ binds);
       can_write := true |},
    pre, (post +:+ newline +:+ binds).
  split.
  { unfold M_SaveDefaults, read_int. rewrite Hr. cbn [bind].
    destruct (Z.eqb_spec r 0); [contradiction |]. fold c1.
    unfold SaveDefaultCollection. rewrite Hw.
    change (cvars c1) with (cvars c). rewrite Hcv, Ht, Hact. reflexivity. }
  split; [exact Hpre |].
  split; [cbn [config_file]; f_equal; now rewrite !append_assoc |].
  subst c1. cbn [write_var vars cvars].
  split; [apply lookup_insert_eq |]. split; [reflexivity |].
  intros x Hx. now rewrite !lookup_insert_ne by congruence.
Qed.

Lemma M_SaveDefaults_records_widescreen_witness :
  exists c' fs' pre post,
    M_SaveDefaults sample_keys [] no_actions
      (write_var "returntowidescreen" (VInt 1) zero_registry) writable
    = Ok (c', fs') /\
    SaveCvars sample_keys
      (vars (write_var "widescreen" (VInt true_)
               (write_var "returntowidescreen" (VInt 1) zero_registry)))
      (take vid_widescreen_index cvars_init) = Ok pre /\
    config_file fs' = Some (pre +:+ ("vid_widescreen on" +:+ newline) +:+ post) /\
    vars c' !! "widescreen" = Some (VInt false_) /\
    cvars c' = cvars (write_var "returntowidescreen" (VInt 1) zero_registry) /\
    (forall x, x <> "widescreen" ->
               vars c' !! x
               = vars (write_var "returntowidescreen" (VInt 1) zero_registry) !! x).
Proof.
  apply (M_SaveDefaults_records_widescreen sample_keys [] no_actions
           (write_var "returntowidescreen" (VInt 1) zero_registry) writable 1 "").
  - reflexivity.
  - reflexivity.
  - reflexivity.
  - discriminate.
  - unfold cvars_init.
    repeat (apply Forall_cons; split;
            [eexists; split; [vm_compute; reflexivity | apply kept_zero_val; discriminate]
            |]).
    apply Forall_nil_2.
  - reflexivity.
Defined.

(** C9: M_SaveDefaults is written for the states in which
    [returntowidescreen] is set only while [widescreen] is clear, as the
    one assignment to [returntowidescreen] in this file leaves them
    (M_CheckDefaults clears [widescreen] in the same block). In such a
    state, if the file cannot be opened for writing, SaveDefaultCollection
    and M_SaveDefaults return normally, and the file system, every
    variable and every descriptor are as before. In no case is a failure
    reported: whenever M_SaveDefaults returns, written file or not, the
    caller has the state from before the call; and with the registry of
    this file, values that the format keeps and bindings that can be
    written it returns also when the file can be opened. *)
Theorem M_SaveDefaults_when_fopen_fails (K : doomkeys) (controls : list control_t)
    (actions : list action_t) (c : config) (r : Z) :
  vars c !! "returntowidescreen" = Some (VInt r) ->
  (r <> 0 -> vars c !! "widescreen" = Some (VInt false_)) ->
  (forall fs, can_write fs = false ->
     SaveDefaultCollection K controls actions c fs = Ok (c, fs) /\
     M_SaveDefaults K controls actions c fs = Ok (c, fs)) /\
  (forall fs c' fs',
     M_SaveDefaults K controls actions c fs = Ok (c', fs') -> c' = c) /\
  (forall fs binds,
     can_write fs = true -> cvars c = cvars_init ->
     Forall (λ d, exists v, vars c !! location d = Some v /\ kept_value (type d) v)
       cvars_init ->
     SaveActions controls
       (vars (if r =? 0 then c else write_var "widescreen" (VInt true_) c)) actions 0
     = Ok binds ->
     exists text,
       M_SaveDefaults K controls actions c fs
       = Ok (c, {| config_file := Some text; can_write := true |})).
Proof.
  intros Hr Hinv.
  set (c1 := if r =? 0 then c else write_var "widescreen" (VInt true_) c).
  assert (Hback : (if r =? 0 then c1 else write_var "widescreen" (VInt false_) c1) = c).
  { subst c1. destruct (Z.eqb_spec r 0) as [|Hr0]; [reflexivity |].
    specialize (Hinv Hr0).
    destruct c as [cv m]; unfold write_var; cbn [cvars vars] in *. f_equal.
    rewrite insert_insert_eq. now apply insert_id. }
  assert (Hrun : forall fs,
            M_SaveDefaults K controls actions c fs
            = (p <- SaveDefaultCollection K controls actions c1 fs ;;
               let '(c2, fs2) := p in
               Ok (if r =? 0 then c2 else write_var "widescreen" (VInt false_) c2, fs2))).
  { intros fs. unfold M_SaveDefaults, read_int. rewrite Hr. reflexivity. }
  assert (Hsame : forall c0 fs c2 fs2,
            SaveDefaultCollection K controls actions c0 fs = Ok (c2, fs2) -> c2 = c0).
  { intros c0 fs c2 fs2. unfold SaveDefaultCollection.
    destruct (can_write fs); [|now intros [= <- _]].
    intros H. apply bind_inv in H as (t & _ & H).
    apply bind_inv in H as (b & _ & [= <- _]). reflexivity. }
  split; [|split].
  - intros fs Hw.
    assert (Hsave : forall c0, SaveDefaultCollection K controls actions c0 fs = Ok (c0, fs)).
    { intros c0. unfold SaveDefaultCollection. now rewrite Hw. }
    split; [apply Hsave |]. rewrite Hrun, Hsave. cbn [bind]. now rewrite Hback.
  - intros fs c' fs' H. rewrite Hrun in H.
    apply bind_inv in H as ([c2 fs2] & Hs & [= <- _]).
    rewrite (Hsame _ _ _ _ Hs). exact Hback.
  - intros fs binds Hw Hcv Hkept Hact. fold c1 in Hact.
    assert (Hkept1 : Forall (λ d, exists v, vars c1 !! location d = Some v /\
                                           kept_value (type d) v) cvars_init).
    { subst c1. destruct (r =? 0); [exact Hkept |].
      pose proof widescreen_is_int as Hi. rewrite forallb_forall in Hi.
      rewrite Forall_forall in Hkept. apply Forall_forall. intros d Hd.
      specialize (Hi d ltac:(now apply list_elem_of_In)).
      cbn [write_var vars].
      destruct (String.eqb_spec (location d) "widescreen") as [E|E].
      - exists (VInt true_). rewrite E, lookup_insert_eq. split; [reflexivity|].
        destruct (type d); try discriminate. cbn. unfold true_, INT_MAX. lia.
      - destruct (Hkept d Hd) as (v & Hv & Hk). exists v.
        rewrite lookup_insert_ne by congruence. split; assumption. }
    destruct (SaveCvars_kept K c1 cvars_init Hkept1) as [t Ht].
    exists (t +:+ newline +:+ binds).
    rewrite Hrun. unfold SaveDefaultCollection. rewrite Hw.
    replace (cvars c1) with cvars_init
      by (subst c1; destruct (r =? 0); cbn [write_var cvars]; congruence).
    rewrite Ht, Hact. cbn [bind]. now rewrite Hback.
Qed.

(** The registry with [returntowidescreen] set and [widescreen] clear: a
    file that cannot be opened and a file that can. *)
Lemma M_SaveDefaults_when_fopen_fails_witness :
  M_SaveDefaults sample_keys [] no_actions
    (write_var "returntowidescreen" (VInt 1) zero_registry) read_only
  = Ok (write_var "returntowidescreen" (VInt 1) zero_registry, read_only) /\
  exists text,
    M_SaveDefaults sample_keys [] no_actions
      (write_var "returntowidescreen" (VInt 1) zero_registry) writable
    = Ok (write_var "returntowidescreen" (VInt 1) zero_registry,
          {| config_file := Some text; can_write := true |}).
Proof.
  destruct (M_SaveDefaults_when_fopen_fails sample_keys [] no_actions
              (write_var "returntowidescreen" (VInt 1) zero_registry) 1
              eq_refl (λ _, eq_refl)) as (H1 & _ & H3).
  split; [apply (H1 read_only eq_refl) |].
  apply (H3 writable ""); [reflexivity | reflexivity | | reflexivity].
  unfold cvars_init.
  repeat (apply Forall_cons; split;
          [eexists; split; [vm_compute; reflexivity | apply kept_zero_val; discriminate]
          |]).
  apply Forall_nil_2.
Defined.

(** ** The range of the volumes *)

Lemma rescale_range (min percent max : Z) :
  0 <= min <= max -> max <= 100 ->
  exists v, rescale min percent max = Ok v /\ 0 <= v <= 15 /\
            v = (BETWEEN min percent max * 15 + 50) / 100.
Proof.
  intros Hmin Hmax. unfold rescale, int_op.
  assert (Hb : min <= BETWEEN min percent max <= max).
  { unfold BETWEEN. destruct (Z.ltb_spec percent min); [lia |].
    destruct (Z.ltb_spec max percent); lia. }
  set (b := BETWEEN min percent max) in *.
  unfold INT_MIN, INT_MAX.
  destruct (Z.leb_spec (- 2 ^ 31) (b * 15)); [|lia].
  destruct (Z.leb_spec (b * 15) (2 ^ 31 - 1)); [|lia]. cbn [andb bind].
  destruct (Z.leb_spec (- 2 ^ 31) (b * 15 + 50)); [|lia].
  destruct (Z.leb_spec (b * 15 + 50) (2 ^ 31 - 1)); [|lia]. cbn [andb bind].
  rewrite Z.quot_div_nonneg by lia.
  assert (0 <= (b * 15 + 50) / 100 <= 15).
  { split; [apply Z.div_pos; lia |].
    apply Z.lt_succ_r. apply Z.div_lt_upper_bound; lia. }
  destruct (Z.leb_spec (- 2 ^ 31) ((b * 15 + 50) / 100)); [|lia].
  destruct (Z.leb_spec ((b * 15 + 50) / 100) (2 ^ 31 - 1)); [|lia]. cbn [andb].
  eexists. split; [reflexivity |]. split; [lia | reflexivity].
Qed.

(** X10: with bounds of the percentages between 0 and 100, M_CheckDefaults
    derives a music volume and a sound effects volume between 0 and 15
    from every pair of percentages, also from ones outside the bounds,
    and no step of the computation overflows. *)
Theorem M_CheckDefaults_volumes_range
    (MUSICVOLUME_MIN MUSICVOLUME_MAX SFXVOLUME_MIN SFXVOLUME_MAX : Z)
    (m : gmap string val) (p q : Z) :
  0 <= MUSICVOLUME_MIN <= MUSICVOLUME_MAX -> MUSICVOLUME_MAX <= 100 ->
  0 <= SFXVOLUME_MIN <= SFXVOLUME_MAX -> SFXVOLUME_MAX <= 100 ->
  m !! "musicvolume_percent" = Some (VInt p) ->
  m !! "sfxvolume_percent" = Some (VInt q) ->
  exists m' mv sv,
    M_CheckDefaults_volumes MUSICVOLUME_MIN MUSICVOLUME_MAX
      SFXVOLUME_MIN SFXVOLUME_MAX m = Ok m' /\
    m' !! "musicVolume" = Some (VInt mv) /\ 0 <= mv <= 15 /\
    m' !! "sfxVolume" = Some (VInt sv) /\ 0 <= sv <= 15 /\
    (forall x, x <> "musicVolume" -> x <> "sfxVolume" -> m' !! x = m !! x).
Proof.
  intros Hm1 Hm2 Hs1 Hs2 Hp Hq.
  destruct (rescale_range MUSICVOLUME_MIN p MUSICVOLUME_MAX Hm1 Hm2)
    as (mv & Hmv & Hmr & _).
  destruct (rescale_range SFXVOLUME_MIN q SFXVOLUME_MAX Hs1 Hs2)
    as (sv & Hsv & Hsr & _).
  unfold M_CheckDefaults_volumes, read_int. rewrite Hp. cbn [bind].
  rewrite Hmv. cbn [bind].
  rewrite lookup_insert_ne by discriminate. rewrite Hq. cbn [bind].
  rewrite Hsv. cbn [bind].
  exists (<["sfxVolume" := VInt sv]> (<["musicVolume" := VInt mv]> m)), mv, sv.
  split; [reflexivity |].
  split; [rewrite lookup_insert_ne by discriminate; apply lookup_insert_eq |].
  split; [exact Hmr |].
  split; [apply lookup_insert_eq |]. split; [exact Hsr |].
  intros x Hx1 Hx2. now rewrite !lookup_insert_ne by congruence.
Qed.

Lemma M_CheckDefaults_volumes_range_witness :
  exists m' mv sv,
    M_CheckDefaults_volumes 0 100 0 100
      (<["musicvolume_percent" := VInt 250]> (<["sfxvolume_percent" := VInt (-3)]> ∅))
    = Ok m' /\
    m' !! "musicVolume" = Some (VInt mv) /\ 0 <= mv <= 15 /\
    m' !! "sfxVolume" = Some (VInt sv) /\ 0 <= sv <= 15 /\
    (forall x, x <> "musicVolume" -> x <> "sfxVolume" ->
       m' !! x
       = (<["musicvolume_percent" := VInt 250]>
            (<["sfxvolume_percent" := VInt (-3)]> ∅ : gmap string val)) !! x).
Proof.
  apply (M_CheckDefaults_volumes_range 0 100 0 100 _ 250 (-3));
    try lia; reflexivity.
Defined.

(** ** Numbers with a leading zero *)

(** A text of digits and minus signs in which ["%10i"] finds a number is
    read as that number, also where an alias has the same text. *)
Lemma ParseIntParameter_numeric_text (K : doomkeys) (parm0 : Z) (s : string)
    (set v : Z) :
  s <> "" -> string_forall numeric s = true ->
  sscanf_10i s = Ok (Matched v) ->
  ParseIntParameter K parm0 s set = Ok v.
Proof.
  intros Hne Hnum Hscan.
  destruct (alias_of_text_cases s set) as [H | (j & b & Hj & H & Hcmp & Hset)].
  - rewrite (ParseIntParameter_numeric K parm0 s set Hne Hnum H), Hscan. reflexivity.
  - unfold ParseIntParameter. rewrite H. cbn [bind]. f_equal.
    assert (Hall : aliases_numerals_agree = true) by (vm_compute; reflexivity).
    unfold aliases_numerals_agree in Hall. rewrite forallb_forall in Hall.
    specialize (Hall b ltac:(apply list_elem_of_In, list_elem_of_lookup; eauto)).
    assert (Hfold : forallb numeric (folded (text b)) = true).
    { apply strcasecmp_folded in Hcmp. rewrite <- Hcmp. now apply folded_numeric. }
    rewrite Hfold in Hall. cbn [implb] in Hall.
    apply andb_true_iff in Hall as [Hb Hsc].
    apply strcasecmp_exact in Hcmp; auto.
    + rewrite <- Hcmp, Hscan in Hsc. now apply Z.eqb_eq in Hsc.
    + eapply string_forall_impl; [apply numeric_not_upper | exact Hnum].
Qed.

(** Scanning stops at the first character that is no digit of the base. *)
Lemma scan_digits_stop (base : Z) (l : list Z) (c : ascii) (r : string) :
  1 < base <= 16 -> Forall (λ d, 0 <= d < base) l ->
  (digit_val (code c) <? base) = false ->
  forall (width : nat) (acc : option Z),
    (length l < width)%nat -> l <> [] ->
    scan_digits base width (string_of_chars (map digit_char l) +:+ String c r) acc
    = Some (fold_left (λ a d, a * base + d) l (default 0 acc)).
Proof.
  intros Hb Hl Hc. induction Hl as [|d l Hd Hl IH]; intros width acc Hw Hne;
    [congruence |].
  destruct width as [|width]; [cbn in Hw; lia |].
  cbn [map string_of_chars]. rewrite append_cons. cbn [scan_digits].
  rewrite digit_val_digit_char by lia.
  destruct (Z.ltb_spec d base); [|lia].
  destruct l as [|d' l].
  - cbn [map string_of_chars fold_left]. rewrite append_nil_l.
    destruct width as [|width]; [cbn in Hw; lia |].
    cbn [scan_digits]. rewrite Hc. reflexivity.
  - rewrite IH; [reflexivity | cbn in *; lia | discriminate].
Qed.

Lemma octal_numeric (l : list Z) :
  Forall (λ d, 0 <= d < 8) l ->
  string_forall numeric (string_of_chars (map digit_char l)) = true.
Proof.
  induction 1 as [|d l Hd _ IH]; [reflexivity |].
  cbn [map string_of_chars string_forall]. rewrite IH, andb_true_r.
  rewrite code_digit_char by lia. unfold numeric, isdigit.
  destruct (Z.ltb_spec d 10); [|lia].
  destruct (Z.leb_spec 48 (48 + d)); [|lia].
  destruct (Z.leb_spec (48 + d) 57); [reflexivity | lia].
Qed.

Lemma fold_octal_bound (l : list Z) (acc : Z) :
  Forall (λ d, 0 <= d < 8) l -> 0 <= acc ->
  0 <= fold_left (λ a d, a * 8 + d) l acc < (acc + 1) * 8 ^ Z.of_nat (length l).
Proof.
  intros Hl. revert acc; induction Hl as [|d l Hd _ IH]; intros acc Hacc.
  - cbn. lia.
  - cbn [fold_left length]. rewrite Nat2Z.inj_succ, Z.pow_succ_r by lia.
    specialize (IH (acc * 8 + d) ltac:(lia)).
    assert (0 < 8 ^ Z.of_nat (length l)) by (apply Z.pow_pos_nonneg; lia). nia.
Qed.

(** X11: ParseIntParameter reads a number that starts with [0] as an octal
    number, up to its first digit that is no octal one: [010] is 8, [08]
    is 0 and [0192] is 1. *)
Theorem ParseIntParameter_octal (K : doomkeys) (parm0 : Z) (l : list Z)
    (tail : string) (set : Z) :
  Forall (λ d, 0 <= d < 8) l -> (length l <= 8)%nat ->
  string_forall numeric tail = true ->
  match tail with
  | String c _ => (code c =? 56) || (code c =? 57) = true
  | EmptyString => True
  end ->
  ParseIntParameter K parm0
    ("0" +:+ string_of_chars (map digit_char l) +:+ tail) set
  = Ok (fold_left (λ a d, a * 8 + d) l 0).
Proof.
  intros Hl Hlen Htail Hstop.
  set (s := "0" +:+ string_of_chars (map digit_char l) +:+ tail).
  assert (Es : s = string_of_chars (map digit_char (0 :: l)) +:+ tail) by reflexivity.
  assert (Hl0 : Forall (λ d, 0 <= d < 8) (0 :: l)) by (constructor; [lia | exact Hl]).
  apply ParseIntParameter_numeric_text.
  - discriminate.
  - rewrite Es, string_forall_app, (octal_numeric _ Hl0). exact Htail.
  - unfold sscanf_10i, scan_integer.
    assert (Hdigits : scan_digits 8 10 s None
                      = Some (fold_left (λ a d, a * 8 + d) l 0)).
    { rewrite Es. destruct tail as [|c r].
      - rewrite append_nil_r.
        rewrite (scan_digits_chars 8 (0 :: l)); [reflexivity | lia | exact Hl0 | | discriminate].
        cbn [length]. lia.
      - rewrite (scan_digits_stop 8 (0 :: l) c r);
          [reflexivity | lia | exact Hl0 | | cbn [length]; lia | discriminate].
        apply orb_true_iff in Hstop as [E%Z.eqb_eq | E%Z.eqb_eq]; rewrite E; reflexivity. }
    assert (Hx : has_0x s 10 = false).
    { subst s. rewrite append_cons, append_nil_l.
      destruct l as [|d l].
      - cbn [map string_of_chars]. rewrite append_nil_l.
        destruct tail as [|c r]; [reflexivity |].
        cbn [has_0x]. unfold is_x.
        apply orb_true_iff in Hstop as [E%Z.eqb_eq | E%Z.eqb_eq]; rewrite E; reflexivity.
      - cbn [map string_of_chars]. rewrite append_cons. cbn [has_0x].
        apply Forall_cons in Hl as [Hd _]. unfold is_x.
        rewrite code_digit_char by lia.
        destruct (Z.ltb_spec d 10); [|lia].
        destruct (Z.eqb_spec (48 + d) 120); [lia |].
        destruct (Z.eqb_spec (48 + d) 88); [lia |]. now rewrite andb_false_r. }
    assert (Hhead : exists r, s = String "0" r) by (subst s; rewrite append_cons; eauto).
    destruct Hhead as [r Hr].
    assert (Hsign : scan_sign (skip_space s) 10 = (false, s, 10%nat)).
    { rewrite Hr. reflexivity. }
    rewrite Hsign. unfold scan_magnitude. rewrite Hx. cbn [andb].
    change (0 =? 0) with true. cbv iota.
    assert (H0 : starts_with_0 s = true) by (rewrite Hr; reflexivity).
    rewrite H0, Hdigits. cbn [bind].
    pose proof (fold_octal_bound l 0 Hl ltac:(lia)) as Hb.
    assert (8 ^ Z.of_nat (length l) <= 8 ^ 8) by (apply Z.pow_le_mono_r; lia).
    unfold INT_MIN, INT_MAX.
    set (v := fold_left (λ a d, a * 8 + d) l 0) in *.
    destruct (Z.leb_spec (- 2 ^ 31) v); [|lia].
    destruct (Z.leb_spec v (2 ^ 31 - 1)); [reflexivity | lia].
Qed.

Lemma ParseIntParameter_octal_witness :
  ParseIntParameter sample_keys 0
    ("0" +:+ string_of_chars (map digit_char [1]) +:+ "92") 0
  = Ok (fold_left (λ a d, a * 8 + d) [1] 0).
Proof.
  apply (ParseIntParameter_octal sample_keys 0 [1] "92" 0).
  - repeat constructor; lia.
  - simpl. lia.
  - reflexivity.
  - reflexivity.
Defined.

(** ** How far the text of a [float] is from the [float] *)

(** X12: for every [float], striptrailingzero at precision class 2
    returns a sign, digits and one or two decimals that denote a number
    less than or equal to half a hundredth away from the [float]; at the
    precision class of the percentages, digits and at most one decimal
    that are no more than half a tenth away. *)
Theorem striptrailingzero_accuracy (x : float) :
  is_binary32 x ->
  (exists li lf,
     striptrailingzero x 2 = Ok (decimal_text (Fnum x <? 0) li lf "") /\
     li <> [] /\ Forall decimal_digit li /\ Forall decimal_digit lf /\
     (1 <= length lf <= 2)%nat /\
     2 * Z.abs (Z.abs (fst (Ffrac x)) * 100
                - fold_left (λ a d, a * 10 + d) (li ++ lf) 0
                  * 10 ^ (2 - Z.of_nat (length lf)) * snd (Ffrac x))
     <= snd (Ffrac x)) /\
  (exists li lf,
     striptrailingzero x 1 = Ok (decimal_text (Fnum x <? 0) li lf "") /\
     li <> [] /\ Forall decimal_digit li /\ Forall decimal_digit lf /\
     (length lf <= 1)%nat /\
     2 * Z.abs (Z.abs (fst (Ffrac x)) * 10
                - fold_left (λ a d, a * 10 + d) (li ++ lf) 0
                  * 10 ^ (1 - Z.of_nat (length lf)) * snd (Ffrac x))
     <= snd (Ffrac x)).
Proof.
  intros Hx. pose proof (Ffrac_den_pos x) as Hd. split.
  - destruct (striptrailingzero_digits2 x (rounded_decimal_39 2 x Hx))
      as (li & lf & Ht & Hne & Hi & Hf & Hnf & H39 & H2 & Hval).
    exists li, lf. do 4 (split; [assumption |]).
    split; [destruct lf; [congruence | cbn [length] in *; lia] |].
    rewrite Hval. unfold rounded_decimal.
    change (10 ^ Z.of_nat 2) with 100.
    apply round_half_even_bound. exact Hd.
  - destruct (striptrailingzero_digits1 x (rounded_decimal_39 _ x Hx))
      as (li & lf & Ht & Hne & Hi & Hf & H39 & Hlen & Hval).
    exists li, lf. do 4 (split; [assumption |]).
    split; [rewrite Hlen; destruct (Fintegral x); lia |].
    rewrite Hval, Hlen. unfold rounded_decimal.
    destruct (Fintegral x) eqn:Hint.
    + change (10 ^ Z.of_nat 0) with 1. change (10 ^ (1 - Z.of_nat 0)) with 10.
      rewrite Z.mul_1_r.
      unfold Fintegral in Hint. destruct (Ffrac x) as [n d]. cbn [fst snd] in *.
      apply Z.eqb_eq in Hint.
      assert (Hmod : Z.abs n mod d = 0).
      { destruct (Z.abs_spec n) as [[_ ->] | [_ ->]]; [exact Hint |].
        now apply Z.mod_opp_l_z; [lia |]. }
      rewrite round_half_even_exact by assumption.
      pose proof (Z.div_mod (Z.abs n) d ltac:(lia)) as Hdm. rewrite Hmod in Hdm.
      replace (Z.abs n * 10 - Z.abs n / d * 10 * d) with 0 by lia.
      cbn. lia.
    + change (10 ^ Z.of_nat 1) with 10. change (10 ^ (1 - Z.of_nat 1)) with 1.
      rewrite Z.mul_1_r. apply round_half_even_bound. exact Hd.
Qed.

Lemma striptrailingzero_accuracy_witness :
  (exists li lf,
     striptrailingzero (Float 11173626 (-25)) 2
     = Ok (decimal_text (Fnum (Float 11173626 (-25)) <? 0) li lf "") /\
     li <> [] /\ Forall decimal_digit li /\ Forall decimal_digit lf /\
     (1 <= length lf <= 2)%nat /\
     2 * Z.abs (Z.abs (fst (Ffrac (Float 11173626 (-25)))) * 100
                - fold_left (λ a d, a * 10 + d) (li ++ lf) 0
                  * 10 ^ (2 - Z.of_nat (length lf))
                  * snd (Ffrac (Float 11173626 (-25))))
     <= snd (Ffrac (Float 11173626 (-25)))) /\
  (exists li lf,
     striptrailingzero (Float 11173626 (-25)) 1
     = Ok (decimal_text (Fnum (Float 11173626 (-25)) <? 0) li lf "") /\
     li <> [] /\ Forall decimal_digit li /\ Forall decimal_digit lf /\
     (length lf <= 1)%nat /\
     2 * Z.abs (Z.abs (fst (Ffrac (Float 11173626 (-25)))) * 10
                - fold_left (λ a d, a * 10 + d) (li ++ lf) 0
                  * 10 ^ (1 - Z.of_nat (length lf))
                  * snd (Ffrac (Float 11173626 (-25))))
     <= snd (Ffrac (Float 11173626 (-25)))).
Proof.
  apply (striptrailingzero_accuracy (Float 11173626 (-25))).
  unfold is_binary32. cbn. lia.
Defined.

(** ** SaveBind and the end of [controls] *)

(** X13: SaveBind returns (with a line, or with nothing written) exactly
    when [controls] has an entry with the type and value asked for or the
    entry that ends the table; on a table that has neither it reads past
    the last entry. What it writes is nothing or one line that starts with
    [bind] and ends with the action and a newline. *)
Theorem SaveBind_defined (controls : list control_t) (i : Z) (action : string)
    (value : Z) (type : controltype_t) :
  ((exists t, SaveBind controls i action value type = Ok t) <->
   Exists (λ c, c_type c = None \/ (c_type c = Some type /\ c_value c = value))
     controls) /\
  (forall t, SaveBind controls i action value type = Ok t ->
     t = "" \/
     exists control, t = "bind " +:+ control +:+ " " +:+ action +:+ newline) /\
  (forall f, SaveBind controls i action value type = Fault f ->
     f = OutOfBounds "controls" (i + Z.of_nat (length controls))).
Proof.
  revert i; induction controls as [|c controls IH]; intros i.
  - cbn [SaveBind]. split; [split |split].
    + intros [t H]. discriminate.
    + intros H. inversion H.
    + intros t H. discriminate.
    + intros f [= <-]. f_equal. cbn. lia.
  - cbn [SaveBind]. destruct (c_type c) as [ty|] eqn:Ety.
    + destruct (controltype_eqb ty type && (c_value c =? value)) eqn:E.
      * assert (Hm : c_type c = Some type /\ c_value c = value).
        { apply andb_true_iff in E as [E1 E2%Z.eqb_eq].
          split; [|exact E2]. rewrite Ety. f_equal.
          destruct ty, type; try discriminate; reflexivity. }
        split; [split |split].
        -- intros _. apply Exists_cons_hd. now right.
        -- intros _. destruct (strlen (c_control c) =? 1); eauto.
        -- intros t Ht. right.
           destruct (strlen (c_control c) =? 1); injection Ht as <-.
           ++ exists ("'" +:+ (if ch (c_control c) =? ch "=" then "+" else c_control c)
                      +:+ "'").
              now rewrite !append_assoc.
           ++ exists (c_control c). reflexivity.
        -- intros f Hf. destruct (strlen (c_control c) =? 1); discriminate.
      * destruct (IH (i + 1)) as (Hiff & Hshape & Hfault).
        split; [split |split].
        -- intros H. apply Exists_cons_tl. now apply Hiff.
        -- intros H. apply Hiff. apply Exists_cons in H as [[H | [H1 H2]] | H].
           ++ congruence.
           ++ exfalso. rewrite Ety in H1. injection H1 as ->.
              rewrite H2, Z.eqb_refl, andb_true_r in E.
              destruct type; discriminate.
           ++ exact H.
        -- exact Hshape.
        -- intros f Hf. rewrite (Hfault f Hf). f_equal. cbn [length]. lia.
    + split; [split |split].
      * intros _. apply Exists_cons_hd. now left.
      * intros _. eauto.
      * intros t [= <-]. now left.
      * intros f Hf. discriminate.
Qed.

(** ** M_CheckDefaults: the gamma level and the size of the window *)

Lemma gammalevels_at_middle (pre rest : list float) (v : float) :
  gammalevels_at (pre ++ v :: rest) (Z.of_nat (length pre)) = Ok v.
Proof.
  unfold gammalevels_at.
  destruct (Z.of_nat (length pre) <? 0) eqn:E; [apply Z.ltb_lt in E; lia|].
  rewrite Nat2Z.id, list_lookup_middle by reflexivity. reflexivity.
Qed.

Lemma gammalevels_at_end (l : list float) :
  gammalevels_at l (Z.of_nat (length l)) =
    Fault (OutOfBounds "gammalevels" (Z.of_nat (length l))).
Proof.
  unfold gammalevels_at.
  destruct (Z.of_nat (length l) <? 0) eqn:E; [reflexivity|].
  rewrite Nat2Z.id, lookup_ge_None_2 by lia. reflexivity.
Qed.

Lemma find_gammalevel_first (gammalevels rest pre : list float) (g : float) :
  gammalevels = pre ++ rest ->
  find_gammalevel gammalevels (length rest) (Z.of_nat (length pre)) g =
    Ok (match first_level rest g with
        | Some i => Z.of_nat (length pre + i + 1)
        | None => Z.of_nat (length pre + length rest)
        end).
Proof.
  revert pre; induction rest as [|v rest IH]; intros pre ->.
  - cbn. do 2 f_equal. lia.
  - cbn [length find_gammalevel first_level].
    rewrite gammalevels_at_middle. cbn [bind].
    destruct (Feqb v g).
    + do 2 f_equal. lia.
    + replace (Z.of_nat (length pre) + 1) with (Z.of_nat (length (pre ++ [v])))
        by (rewrite length_app; cbn; lia).
      rewrite (IH (pre ++ [v])) by now rewrite <- app_assoc.
      rewrite length_app. cbn [length].
      destruct (first_level rest g); cbn; do 2 f_equal; lia.
Qed.

Lemma find_default_gammalevel_first (gammalevels rest pre : list float)
    (d : float) (n : nat) :
  gammalevels = pre ++ rest ->
  (length rest < n)%nat ->
  find_default_gammalevel gammalevels d n (Z.of_nat (length pre)) =
    match first_level rest d with
    | Some i => Ok (Z.of_nat (length pre + i + 1))
    | None => Fault (OutOfBounds "gammalevels" (Z.of_nat (length gammalevels)))
    end.
Proof.
  revert pre n; induction rest as [|v rest IH]; intros pre n -> Hn.
  - destruct n as [|n]; [cbn in Hn; lia|].
    cbn [find_default_gammalevel first_level]. rewrite app_nil_r.
    now rewrite gammalevels_at_end.
  - destruct n as [|n]; [cbn in Hn; lia|].
    cbn [find_default_gammalevel first_level].
    rewrite gammalevels_at_middle. cbn [bind].
    destruct (Feqb v d); cbn [negb].
    + do 2 f_equal. lia.
    + replace (Z.of_nat (length pre) + 1) with (Z.of_nat (length (pre ++ [v])))
        by (rewrite length_app; cbn; lia).
      rewrite (IH (pre ++ [v]) n) by (cbn in Hn; first [now rewrite <- app_assoc | lia]).
      rewrite length_app. cbn [length].
      destruct (first_level rest d); cbn; [do 2 f_equal; lia | reflexivity].
Qed.

(** X21: with GAMMALEVELS the size of the table, M_CheckDefaults leaves in
    [gammaindex] the place of the first level equal to the clamped
    [gammalevel] when there is one before the last place. When no level is
    equal, and also when the first level that is equal is the last of the
    table, [gammaindex] is the place of the first level equal to
    GAMMALEVEL_DEFAULT, while [gammalevel] keeps its clamped value; a table
    without the default is then read past its end. *)
Theorem M_CheckDefaults_gamma_index (gammalevels : list float)
    (GAMMALEVEL_MIN GAMMALEVEL_MAX GAMMALEVEL_DEFAULT gammalevel : float) :
  let g := BETWEENF GAMMALEVEL_MIN gammalevel GAMMALEVEL_MAX in
  let at_default :=
    k <- default_level gammalevels GAMMALEVEL_DEFAULT ;; Ok (g, k) in
  M_CheckDefaults_gamma gammalevels (Z.of_nat (length gammalevels))
    GAMMALEVEL_MIN GAMMALEVEL_MAX GAMMALEVEL_DEFAULT gammalevel =
    match first_level gammalevels g with
    | Some i =>
        if (S i <? length gammalevels)%nat then Ok (g, Z.of_nat i) else at_default
    | None => at_default
    end.
Proof.
  cbn zeta. unfold M_CheckDefaults_gamma, default_level.
  set (g := BETWEENF GAMMALEVEL_MIN gammalevel GAMMALEVEL_MAX).
  rewrite Nat2Z.id.
  pose proof (find_gammalevel_first gammalevels gammalevels [] g eq_refl) as H1.
  pose proof (find_default_gammalevel_first gammalevels gammalevels []
                GAMMALEVEL_DEFAULT (S (length gammalevels)) eq_refl ltac:(lia)) as H2.
  cbn [length Nat.add] in H1, H2. change (Z.of_nat 0) with 0 in H1, H2.
  rewrite H1. cbn [bind].
  assert (Hlen : forall l i, first_level l g = Some i -> (i < length l)%nat).
  { induction l as [|v l IH]; cbn [first_level length]; [discriminate|].
    intros i. destruct (Feqb v g); [intros [= <-]; lia|].
    destruct (first_level l g) as [j|]; [|discriminate].
    intros [= <-]. specialize (IH j eq_refl). lia. }
  destruct (first_level gammalevels g) as [i|] eqn:E.
  - specialize (Hlen _ _ E).
    destruct (S i <? length gammalevels)%nat eqn:El.
    + apply Nat.ltb_lt in El.
      destruct (Z.of_nat (i + 1) =? Z.of_nat (length gammalevels)) eqn:Ez;
        [apply Z.eqb_eq in Ez; lia|].
      cbn [bind]. do 2 f_equal. lia.
    + apply Nat.ltb_ge in El.
      replace (Z.of_nat (i + 1)) with (Z.of_nat (length gammalevels)) by lia.
      rewrite Z.eqb_refl, H2.
      destruct (first_level gammalevels GAMMALEVEL_DEFAULT); cbn [bind];
        [do 2 f_equal; lia | reflexivity].
  - rewrite Z.eqb_refl, H2.
    destruct (first_level gammalevels GAMMALEVEL_DEFAULT); cbn [bind];
      [do 2 f_equal; lia | reflexivity].
Qed.

Lemma int_op_in_range (op : Z -> Z -> Z) (a b : Z) :
  INT_MIN <= op a b <= INT_MAX -> int_op op a b = Ok (op a b).
Proof.
  intros [H1 H2]. unfold int_op.
  destruct (Z.leb_spec INT_MIN (op a b)); [|lia].
  destruct (Z.leb_spec (op a b) INT_MAX); [reflexivity|lia].
Qed.

Lemma int_op_above (op : Z -> Z -> Z) (a b : Z) :
  INT_MAX < op a b -> int_op op a b = Fault (Undefined "signed integer overflow").
Proof.
  intros H. unfold int_op.
  destruct (Z.leb_spec (op a b) INT_MAX); [lia|]. now rewrite andb_false_r.
Qed.

(** X20: M_CheckDefaults keeps a window height only if the width read is at
    least ORIGINALWIDTH and the height at least three quarters of it, and
    takes WINDOWHEIGHT_DEFAULT if not; the width is then computed from the
    height, four thirds of it rounded down, whatever width was read. With a
    default of at least three quarters of ORIGINALWIDTH the window is never
    smaller than that, and at least ORIGINALWIDTH wide if ORIGINALWIDTH is
    a multiple of 4. A height above a quarter of INT_MAX that is kept
    overflows in the computation of the width. *)
Theorem M_CheckDefaults_window_size (ORIGINALWIDTH WINDOWHEIGHT_DEFAULT w h : Z)
    (m : gmap string val)
    (Hw : m !! "windowwidth" = Some (VInt w))
    (Hh : m !! "windowheight" = Some (VInt h))
    (Horiginal : 0 <= ORIGINALWIDTH * 3 <= INT_MAX)
    (Hdefault : ORIGINALWIDTH * 3 ÷ 4 <= WINDOWHEIGHT_DEFAULT <= INT_MAX ÷ 4) :
  let kept := negb ((w <? ORIGINALWIDTH) || (h <? ORIGINALWIDTH * 3 ÷ 4)) in
  let h' := if kept then h else WINDOWHEIGHT_DEFAULT in
  (h' <= INT_MAX ÷ 4 ->
   M_CheckDefaults_window ORIGINALWIDTH WINDOWHEIGHT_DEFAULT m =
     Ok (<["windowwidth" := VInt (h' * 4 ÷ 3)]> (<["windowheight" := VInt h']> m)) /\
   ORIGINALWIDTH * 3 ÷ 4 <= h' /\
   (ORIGINALWIDTH mod 4 = 0 -> ORIGINALWIDTH <= h' * 4 ÷ 3)) /\
  (INT_MAX ÷ 4 < h' ->
   kept = true /\
   M_CheckDefaults_window ORIGINALWIDTH WINDOWHEIGHT_DEFAULT m =
     Fault (Undefined "signed integer overflow")).
Proof.
  cbn zeta.
  assert (Hq : INT_MAX ÷ 4 = 536870911) by reflexivity.
  assert (Hmax : INT_MAX = 2147483647) by reflexivity.
  assert (Hmin : INT_MIN = -2147483648) by reflexivity.
  rewrite Hq in *.
  set (lim := ORIGINALWIDTH * 3 ÷ 4) in *.
  assert (Hlim : 0 <= lim <= ORIGINALWIDTH * 3).
  { unfold lim. rewrite Z.quot_div_nonneg by lia. split.
    - apply Z.div_pos; lia.
    - apply Z.div_le_upper_bound; lia. }
  assert (Hsmall : (if w <? ORIGINALWIDTH then Ok true
                    else t <- int_op Z.mul ORIGINALWIDTH 3 ;;
                         t <- int_op Z.quot t 4 ;; Ok (h <? t))
                   = Ok ((w <? ORIGINALWIDTH) || (h <? lim))).
  { destruct (w <? ORIGINALWIDTH); [reflexivity|].
    rewrite int_op_in_range by lia. cbn [bind].
    rewrite int_op_in_range by (fold lim; lia). reflexivity. }
  set (h' := if negb ((w <? ORIGINALWIDTH) || (h <? lim)) then h
             else WINDOWHEIGHT_DEFAULT).
  assert (Hrun : M_CheckDefaults_window ORIGINALWIDTH WINDOWHEIGHT_DEFAULT m =
                 (t <- int_op Z.mul h' 4 ;;
                  t <- int_op Z.quot t 3 ;;
                  Ok (<["windowwidth" := VInt t]> (<["windowheight" := VInt h']> m)))).
  { unfold M_CheckDefaults_window. unfold read_int at 1 2. rewrite Hw, Hh. cbn [bind].
    rewrite Hsmall. cbn [bind]. unfold h'.
    destruct ((w <? ORIGINALWIDTH) || (h <? lim)); cbn [negb]; unfold read_int.
    - rewrite lookup_insert_eq. reflexivity.
    - rewrite Hh. cbn [bind]. now rewrite (insert_id m "windowheight" (VInt h) Hh). }
  assert (Hh' : lim <= h').
  { unfold h'. destruct (w <? ORIGINALWIDTH); cbn [orb negb]; [lia|].
    destruct (Z.ltb_spec h lim); cbn [negb]; lia. }
  rewrite Hrun. split.
  - intros Hle. rewrite int_op_in_range by lia. cbn [bind].
    assert (Hw' : 0 <= h' * 4 ÷ 3 <= h' * 4).
    { rewrite Z.quot_div_nonneg by lia. split.
      - apply Z.div_pos; lia.
      - apply Z.div_le_upper_bound; lia. }
    rewrite int_op_in_range by lia.
    split; [reflexivity|]. split; [lia|].
    intros Hmod. rewrite Z.quot_div_nonneg by lia.
    apply Z.div_le_lower_bound; [lia|].
    unfold lim in Hh'. rewrite Z.quot_div_nonneg in Hh' by lia.
    pose proof (Z.div_mod (ORIGINALWIDTH * 3) 4 ltac:(lia)) as Hdm.
    assert ((ORIGINALWIDTH * 3) mod 4 = 0).
    { rewrite <- Z.mul_mod_idemp_l by lia. now rewrite Hmod. }
    lia.
  - intros Hgt. split.
    + unfold h' in Hgt.
      destruct (negb ((w <? ORIGINALWIDTH) || (h <? lim))); [reflexivity|lia].
    + rewrite int_op_above by lia. reflexivity.
Qed.

Lemma M_CheckDefaults_window_size_witness :
  (M_CheckDefaults_window 320 480
     (<["windowwidth" := VInt 200]> (<["windowheight" := VInt 600]> ∅)) =
     Ok (<["windowwidth" := VInt 640]>
           (<["windowheight" := VInt 480]>
              (<["windowwidth" := VInt 200]> (<["windowheight" := VInt 600]> ∅)))) /\
   320 * 3 ÷ 4 <= 480 /\
   (320 mod 4 = 0 -> 320 <= 480 * 4 ÷ 3)).
Proof.
  refine (proj1 (M_CheckDefaults_window_size 320 480 200 600
                   (<["windowwidth" := VInt 200]> (<["windowheight" := VInt 600]> ∅))
                   _ _ _ _) _);
    first [reflexivity | vm_compute; split; discriminate | vm_compute; discriminate].
Defined.

(** ** i_music.c: the wrapper configuration *)

Lemma last_offset_absent (s : string) (c : Z) :
  string_forall (λ x, negb (x =? c)) s = true -> last_offset s c = None.
Proof.
  induction s as [|a s IH]; cbn [string_forall last_offset]; [reflexivity|].
  intros [Ha Hs]%andb_true_iff. rewrite (IH Hs).
  apply negb_true_iff in Ha. now rewrite Ha.
Qed.

Lemma last_offset_split (dir base : string) (c : Z) :
  0 <= c < 256 ->
  string_forall (λ x, negb (x =? c)) base = true ->
  last_offset (dir +:+ String (chr c) base) c = Some (String.length dir).
Proof.
  intros Hc Hb. induction dir as [|a dir IH].
  - rewrite append_nil_l. cbn [last_offset String.length].
    rewrite (last_offset_absent _ _ Hb), (code_chr _ Hc), Z.eqb_refl. reflexivity.
  - rewrite append_cons. cbn [last_offset String.length]. now rewrite IH.
Qed.

Lemma substring_prefix (s t : string) : substring 0 (String.length s) (s +:+ t) = s.
Proof.
  induction s as [|a s IH].
  - rewrite append_nil_l. destruct t; reflexivity.
  - rewrite append_cons. cbn [String.length substring]. now rewrite IH.
Qed.

(** X14: with a separator that is a character, WriteWrapperTimidityConfig
    writes a [dir] line with everything before the last separator of the
    path, then a [source] line with the whole path; a path without a
    separator gets the [source] line only; nothing is written for an empty
    path or when the wrapper cannot be opened. *)
Theorem WriteWrapperTimidityConfig_directory (DIR_SEPARATOR : Z)
    (Hsep : 0 < DIR_SEPARATOR < 256) :
  (forall dir base,
     string_forall (λ x, negb (x =? DIR_SEPARATOR)) base = true ->
     WriteWrapperTimidityConfig DIR_SEPARATOR
       (dir +:+ String (chr DIR_SEPARATOR) base) true =
       Some ("dir " +:+ dir +:+ newline +:+
             "source " +:+ (dir +:+ String (chr DIR_SEPARATOR) base) +:+ newline)) /\
  (forall a path,
     string_forall (λ x, negb (x =? DIR_SEPARATOR)) (String a path) = true ->
     WriteWrapperTimidityConfig DIR_SEPARATOR (String a path) true =
       Some ("source " +:+ String a path +:+ newline)) /\
  (forall can_open, WriteWrapperTimidityConfig DIR_SEPARATOR "" can_open = None) /\
  (forall path, WriteWrapperTimidityConfig DIR_SEPARATOR path false = None).
Proof.
  assert (Hmod : (DIR_SEPARATOR mod 256 =? 0) = false).
  { rewrite Z.mod_small by lia. apply Z.eqb_neq. lia. }
  split; [|split; [|split]].
  - intros dir base Hb. unfold WriteWrapperTimidityConfig, strrchr.
    rewrite Hmod, Z.mod_small by lia.
    rewrite (last_offset_split dir base DIR_SEPARATOR) by first [lia | exact Hb].
    rewrite substring_prefix.
    destruct (dir +:+ String (chr DIR_SEPARATOR) base) eqn:E.
    + destruct dir; discriminate.
    + cbn [negb]. now rewrite !append_assoc.
  - intros a path Hp. unfold WriteWrapperTimidityConfig, strrchr.
    rewrite Hmod, Z.mod_small by lia.
    rewrite (last_offset_absent _ _ Hp). cbn [negb]. now rewrite append_nil_l.
  - reflexivity.
  - intros [|a path]; reflexivity.
Qed.

Lemma WriteWrapperTimidityConfig_directory_witness :
  WriteWrapperTimidityConfig 47
    ("/usr/share/timidity" +:+ String (chr 47) "timidity.cfg") true =
    Some ("dir " +:+ "/usr/share/timidity" +:+ newline +:+
          "source " +:+ ("/usr/share/timidity" +:+ String (chr 47) "timidity.cfg")
          +:+ newline).
Proof.
  destruct (WriteWrapperTimidityConfig_directory 47 ltac:(lia)) as [H _].
  exact (H "/usr/share/timidity" "timidity.cfg" eq_refl).
Defined.

(** ** i_music.c: start, end and the calls between *)

Lemma I_InitMusic_ready_true (a : sdl_answers) (s s1 : music_t) (t t1 : list call)
    (b : bool) :
  I_InitMusic_ready a s t = Ok (b, s1, t1) ->
  b = true /\ music_initialized s1 = true /\ sdl_was_initialized s1 = true /\
  (temp_timidity_cfg s = null_ptr /\ temp_timidity_cfg s1 = null_ptr /\
     t1 = t ++ [SDL_PauseAudio 0; I_MidiRPCInitServer] \/
   exists path, temp_timidity_cfg s = live_ptr path /\
     temp_timidity_cfg s1 = freed_ptr /\
     t1 = t ++ [SDL_PauseAudio 0; I_MidiRPCInitServer; remove path]).
Proof.
  unfold I_InitMusic_ready, RemoveTimidityConfig. cbn [temp_timidity_cfg].
  destruct (temp_timidity_cfg s) as [|path|] eqn:E; cbn [bind]; intros H;
    [| |discriminate]; injection H as <- <- <-; cbn; repeat split; eauto.
Qed.

Lemma I_InitMusic_true (a : sdl_answers) (s s1 : music_t) (t1 : list call) :
  I_InitMusic a s = Ok (true, s1, t1) ->
  exists t, I_InitMusic_ready a s t = Ok (true, s1, t1) /\
    (t = [Mix_QuerySpec] /\ Mix_QuerySpec_ret a <> 0 \/
     t = [Mix_QuerySpec; SDL_InitSubSystem; Mix_OpenAudio] /\ Mix_QuerySpec_ret a = 0).
Proof.
  unfold I_InitMusic, SDLIsInitialized.
  destruct (Mix_QuerySpec_ret a =? 0) eqn:Eq; cbn [negb].
  - destruct (SDL_InitSubSystem_ret a <? 0); [discriminate|].
    destruct (Mix_OpenAudio_ret a <? 0); [discriminate|].
    intros H. eexists; split; [exact H|]. right. split; [reflexivity|].
    now apply Z.eqb_eq.
  - intros H. eexists; split; [exact H|]. left. split; [reflexivity|].
    now apply Z.eqb_neq.
Qed.

(** X15: after an I_InitMusic that returned true, I_ShutdownMusic halts the
    music, closes the mixer, quits the audio subsystem of SDL and shuts the
    RPC client down, in this order, and a second I_ShutdownMusic does
    nothing. The audio subsystem is quit whether or not I_InitMusic had
    started it: I_InitMusic calls SDL_InitSubSystem exactly when
    Mix_QuerySpec returned 0. *)
Theorem I_InitMusic_then_I_ShutdownMusic (a : sdl_answers) (s s1 : music_t)
    (t1 : list call) (Hinit : I_InitMusic a s = Ok (true, s1, t1)) :
  snd (I_ShutdownMusic s1) =
    [Mix_HaltMusic; Mix_CloseAudio; SDL_QuitSubSystem; I_MidiRPCClientShutDown] /\
  I_ShutdownMusic (fst (I_ShutdownMusic s1)) = (fst (I_ShutdownMusic s1), []) /\
  (In SDL_InitSubSystem t1 <-> Mix_QuerySpec_ret a = 0).
Proof.
  destruct (I_InitMusic_true _ _ _ _ Hinit) as (t & Hr & Ht).
  destruct (I_InitMusic_ready_true _ _ _ _ _ _ Hr) as (_ & Hm & Hs & Htemp).
  unfold I_ShutdownMusic. rewrite Hm, Hs. cbn [fst snd music_initialized app].
  split; [reflexivity|]. split; [reflexivity|].
  destruct Ht as [[-> Hq] | [-> Hq]];
    destruct Htemp as [(_ & _ & ->) | (p & _ & _ & ->)]; cbn; split; intros H;
    try tauto; try (exfalso; intuition discriminate).
Qed.

Lemma I_InitMusic_then_I_ShutdownMusic_witness :
  exists s1 t1,
    I_InitMusic sdl_ready with_wrapper = Ok (true, s1, t1) /\
    snd (I_ShutdownMusic s1) =
      [Mix_HaltMusic; Mix_CloseAudio; SDL_QuitSubSystem; I_MidiRPCClientShutDown] /\
    I_ShutdownMusic (fst (I_ShutdownMusic s1)) = (fst (I_ShutdownMusic s1), []) /\
    (In SDL_InitSubSystem t1 <-> Mix_QuerySpec_ret sdl_ready = 0).
Proof.
  do 2 eexists. split; [reflexivity|].
  exact (I_InitMusic_then_I_ShutdownMusic sdl_ready with_wrapper _ _ eq_refl).
Defined.

(** X16: once I_ShutdownMusic has run, playing, pausing, resuming,
    stopping or unregistering a song and a further shutdown call nothing
    and change nothing, in whatever state the module was before, and
    registering a song returns a null handle without a call; a change of
    volume still stores the volume and makes its one call, to the RPC
    server if it was playing and to the mixer if not. *)
Theorem after_I_ShutdownMusic (s0 : music_t) (handle : option Z) (looping : bool)
    (volume : Z) (a : register_answers) (data : list Z) (size : Z) :
  let s := fst (I_ShutdownMusic s0) in
  I_RegisterSong a data size s = Ok (None, s, []) /\
  I_PlaySong handle looping s = (s, []) /\
  I_PauseSong volume s = (s, []) /\
  I_ResumeSong s = (s, []) /\
  I_StopSong s = (s, []) /\
  I_UnRegisterSong handle s = (s, []) /\
  I_ShutdownMusic s = (s, []) /\
  current_music_volume (fst (I_SetMusicVolume volume s)) = volume /\
  snd (I_SetMusicVolume volume s) =
    [if serverMidiPlaying s0 then I_MidiRPCSetVolume volume
     else Mix_VolumeMusic volume].
Proof.
  cbn zeta.
  assert (H : music_initialized (fst (I_ShutdownMusic s0)) = false).
  { unfold I_ShutdownMusic. destruct (music_initialized s0) eqn:E; [reflexivity|exact E]. }
  assert (Hp : serverMidiPlaying (fst (I_ShutdownMusic s0)) = serverMidiPlaying s0).
  { unfold I_ShutdownMusic. destruct (music_initialized s0); reflexivity. }
  unfold I_RegisterSong, I_PlaySong, I_PauseSong, I_ResumeSong, I_StopSong,
    I_UnRegisterSong.
  rewrite H. cbn [negb]. repeat (split; [reflexivity|]).
  split; [unfold I_ShutdownMusic at 1; now rewrite H|].
  split; [reflexivity|].
  unfold I_SetMusicVolume, UpdateMusicVolume.
  cbn [snd serverMidiPlaying current_music_volume]. rewrite Hp.
  destruct (serverMidiPlaying s0); reflexivity.
Qed.

Lemma last_cons_default {A : Type} (l : list A) (x d d' : A) :
  List.last (x :: l) d = List.last (x :: l) d'.
Proof.
  revert x; induction l as [|y l IH]; intros x; [reflexivity|].
  change (List.last (y :: l) d = List.last (y :: l) d'). apply IH.
Qed.

Lemma set_volumes_spec (vs : list Z) (s : music_t) (t : list call) :
  serverMidiPlaying s = false ->
  let r := fold_left
             (λ st v, let '(s', t') := I_SetMusicVolume v (fst st) in (s', snd st ++ t'))
             vs (s, t) in
  snd r = t ++ map Mix_VolumeMusic vs /\
  current_music_volume (fst r) = List.last vs (current_music_volume s) /\
  paused_midi_volume (fst r) = paused_midi_volume s /\
  music_initialized (fst r) = music_initialized s /\
  musictype (fst r) = musictype s /\
  serverMidiPlaying (fst r) = false.
Proof.
  revert s t. induction vs as [|v vs IH]; intros s t Hs; cbn zeta.
  - cbn [fold_left fst snd map List.last]. rewrite app_nil_r. repeat split; auto.
  - cbn [fold_left fst snd].
    destruct (I_SetMusicVolume v s) as [s1 t1] eqn:E.
    unfold I_SetMusicVolume, UpdateMusicVolume in E.
    cbn [serverMidiPlaying current_music_volume] in E. rewrite Hs in E.
    injection E as <- <-.
    match goal with
    | |- context [fold_left _ vs (?s1, _)] =>
        destruct (IH s1 (t ++ [Mix_VolumeMusic v])) as (H1 & H2 & H3 & H4 & H5 & H6);
          [first [reflexivity | exact Hs]|]
    end.
    cbn zeta in H1, H2, H3, H4, H5, H6.
    rewrite H1, H2, H3, H4, H5, H6. cbn [map].
    rewrite <- app_assoc. cbn [app].
    repeat split; try reflexivity.
    cbn [current_music_volume]. destruct vs as [|z vs]; [reflexivity|].
    exact (last_cons_default vs z v (current_music_volume s)).
Qed.

(** X17: while a MIDI song plays through the mixer, I_PauseSong asks the
    mixer for its volume and sets it to 0; each change of volume made
    during the pause sets the volume of the mixer again, so the song is
    heard; I_ResumeSong then sets the volume that the mixer had at the
    pause, not the one set last, which stays in [current_music_volume]. *)
Theorem pause_volume_resume (s : music_t) (volume_at_pause : Z) (vs : list Z)
    (Hinit : music_initialized s = true)
    (Hserver : serverMidiPlaying s = false)
    (Hmidi : musictype s = MUSTYPE_MIDI) :
  let paused := I_PauseSong volume_at_pause s in
  let changed := set_volumes vs (fst paused) in
  let resumed := I_ResumeSong (fst changed) in
  snd paused ++ snd changed ++ snd resumed =
    [Mix_VolumeMusic (-1); Mix_VolumeMusic 0] ++ map Mix_VolumeMusic vs ++
    [Mix_VolumeMusic volume_at_pause] /\
  current_music_volume (fst resumed) = List.last vs (current_music_volume s).
Proof.
  cbn zeta. unfold I_PauseSong. rewrite Hinit, Hserver, Hmidi.
  cbn [negb musictype_eqb fst snd].
  match goal with
  | |- context [set_volumes vs ?s1] =>
      destruct (set_volumes_spec vs s1 []) as (H1 & H2 & H3 & H4 & H5 & H6);
        [first [reflexivity | exact Hserver]|]
  end.
  cbn zeta in H1, H2, H3, H4, H5, H6. unfold set_volumes.
  cbn [music_initialized musictype paused_midi_volume current_music_volume app]
    in H1, H2, H3, H4, H5.
  unfold I_ResumeSong. rewrite H4, H5, H6, H3, H1.
  try rewrite Hinit. try rewrite Hmidi.
  cbn [negb musictype_eqb fst snd]. rewrite H2. split; reflexivity.
Qed.

Lemma pause_volume_resume_witness :
  snd (I_PauseSong 100 playing_midi)
  ++ snd (set_volumes [40; 20] (fst (I_PauseSong 100 playing_midi)))
  ++ snd (I_ResumeSong (fst (set_volumes [40; 20] (fst (I_PauseSong 100 playing_midi))))) =
    [Mix_VolumeMusic (-1); Mix_VolumeMusic 0; Mix_VolumeMusic 40; Mix_VolumeMusic 20;
     Mix_VolumeMusic 100] /\
  current_music_volume
    (fst (I_ResumeSong (fst (set_volumes [40; 20] (fst (I_PauseSong 100 playing_midi))))))
  = 20.
Proof.
  exact (pause_volume_resume playing_midi 100 [40; 20] eq_refl eq_refl eq_refl).
Defined.

(** X18: RemoveTimidityConfig frees [temp_timidity_cfg] and leaves it
    pointing to the freed memory. After an I_InitMusic that returned true
    with a wrapper written, whose last call removes the wrapper, a later
    I_InitMusic, also one after I_ShutdownMusic, either fails to start SDL
    and returns false or passes the freed pointer to [remove]. *)
Theorem I_InitMusic_again (a a' : sdl_answers) (s s1 : music_t) (t1 : list call)
    (path : string)
    (Htemp : temp_timidity_cfg s = live_ptr path)
    (Hinit : I_InitMusic a s = Ok (true, s1, t1)) :
  List.last t1 Mix_QuerySpec = remove path /\
  forall s2, s2 = s1 \/ s2 = fst (I_ShutdownMusic s1) ->
    (exists t2, I_InitMusic a' s2 = Ok (false, s2, t2) /\ Mix_QuerySpec_ret a' = 0 /\
       (SDL_InitSubSystem_ret a' < 0 \/ Mix_OpenAudio_ret a' < 0)) \/
    I_InitMusic a' s2 = Fault (Undefined "use of a pointer that was freed").
Proof.
  destruct (I_InitMusic_true _ _ _ _ Hinit) as (t & Hr & Ht).
  destruct (I_InitMusic_ready_true _ _ _ _ _ _ Hr)
    as (_ & Hm & Hs & [(Hn & _) | (p & Hp & Hf & ->)]); [congruence|].
  rewrite Htemp in Hp. injection Hp as <-. split.
  { destruct Ht as [[-> _] | [-> _]]; reflexivity. }
  intros s2 Hs2.
  assert (Hf2 : temp_timidity_cfg s2 = freed_ptr).
  { destruct Hs2 as [-> | ->]; [exact Hf|].
    unfold I_ShutdownMusic. rewrite Hm. exact Hf. }
  assert (Hready : forall t, I_InitMusic_ready a' s2 t =
                     Fault (Undefined "use of a pointer that was freed")).
  { intros t'. unfold I_InitMusic_ready, RemoveTimidityConfig.
    cbn [temp_timidity_cfg]. now rewrite Hf2. }
  unfold I_InitMusic, SDLIsInitialized.
  destruct (Mix_QuerySpec_ret a' =? 0) eqn:Eq; cbn [negb]; [|right; apply Hready].
  apply Z.eqb_eq in Eq.
  destruct (SDL_InitSubSystem_ret a' <? 0) eqn:E1.
  { left. eexists. split; [reflexivity|]. split; [exact Eq|]. left. now apply Z.ltb_lt. }
  destruct (Mix_OpenAudio_ret a' <? 0) eqn:E2.
  { left. eexists. split; [reflexivity|]. split; [exact Eq|]. right. now apply Z.ltb_lt. }
  right. apply Hready.
Qed.

Lemma I_InitMusic_again_witness :
  exists s1 t1,
    I_InitMusic sdl_ready with_wrapper = Ok (true, s1, t1) /\
    List.last t1 Mix_QuerySpec = remove "wrapper.cfg" /\
    forall s2, s2 = s1 \/ s2 = fst (I_ShutdownMusic s1) ->
      (exists t2, I_InitMusic sdl_ready s2 = Ok (false, s2, t2) /\
         Mix_QuerySpec_ret sdl_ready = 0 /\
         (SDL_InitSubSystem_ret sdl_ready < 0 \/ Mix_OpenAudio_ret sdl_ready < 0)) \/
      I_InitMusic sdl_ready s2 = Fault (Undefined "use of a pointer that was freed").
Proof.
  do 2 eexists. split; [reflexivity|].
  exact (I_InitMusic_again sdl_ready sdl_ready with_wrapper _ _ "wrapper.cfg"
           eq_refl eq_refl).
Defined.

(** X19: an I_InitMusic that follows I_InitTimidityConfig never meets a
    freed pointer. If the configured path is not empty and the wrapper can
    be opened, I_InitTimidityConfig writes the wrapper and puts its name in
    TIMIDITY_CFG, and an I_InitMusic that returns true ends by removing
    that file; otherwise I_InitTimidityConfig calls nothing and I_InitMusic
    removes nothing. *)
Theorem I_InitTimidityConfig_then_I_InitMusic (DIR_SEPARATOR : Z) (tempfile : string)
    (can_open : bool) (a : sdl_answers) (s : music_t) :
  let written :=
    WriteWrapperTimidityConfig DIR_SEPARATOR (s_timiditycfgpath s) can_open in
  let configured := I_InitTimidityConfig DIR_SEPARATOR tempfile can_open s in
  snd configured =
    match written with
    | Some contents =>
        [fwrite_file tempfile contents; putenv ("TIMIDITY_CFG=" +:+ tempfile)]
    | None => []
    end /\
  (written = None <-> s_timiditycfgpath s = "" \/ can_open = false) /\
  exists b s1 t1,
    I_InitMusic a (fst configured) = Ok (b, s1, t1) /\
    (b = true ->
     match written with
     | Some _ => List.last t1 Mix_QuerySpec = remove tempfile
     | None => Forall (λ c, forall path, c <> remove path) t1
     end).
Proof.
  cbn zeta. unfold I_InitTimidityConfig.
  assert (Hw : WriteWrapperTimidityConfig DIR_SEPARATOR (s_timiditycfgpath s) can_open
               = None <-> s_timiditycfgpath s = "" \/ can_open = false).
  { unfold WriteWrapperTimidityConfig.
    destruct (s_timiditycfgpath s) as [|c p]; [tauto|].
    destruct can_open; cbn [negb]; split; intros H; try discriminate; auto.
    destruct H; discriminate. }
  destruct (WriteWrapperTimidityConfig DIR_SEPARATOR (s_timiditycfgpath s) can_open)
    as [contents|] eqn:E; cbn [fst snd]; (split; [reflexivity|]); (split; [exact Hw|]).
  - unfold I_InitMusic, SDLIsInitialized, I_InitMusic_ready, RemoveTimidityConfig.
    cbn [temp_timidity_cfg set_temp_timidity_cfg bind].
    destruct (Mix_QuerySpec_ret a =? 0); cbn [negb];
      [destruct (SDL_InitSubSystem_ret a <? 0);
        [|destruct (Mix_OpenAudio_ret a <? 0)]|];
      do 3 eexists; (split; [reflexivity|]); intros Hb; try discriminate; reflexivity.
  - unfold I_InitMusic, SDLIsInitialized, I_InitMusic_ready, RemoveTimidityConfig.
    cbn [temp_timidity_cfg set_temp_timidity_cfg bind].
    destruct (Mix_QuerySpec_ret a =? 0); cbn [negb];
      [destruct (SDL_InitSubSystem_ret a <? 0);
        [|destruct (Mix_OpenAudio_ret a <? 0)]|];
      do 3 eexists; (split; [reflexivity|]); intros Hb; try discriminate;
      cbn [app]; repeat (apply Forall_cons; split; [intros path; discriminate|]);
      apply Forall_nil_2.
Qed.

(** ** i_music.c: registering a song *)

Lemma load_music_first (a : register_answers) (formats : list Mix_MusicType)
    (s : music_t) :
  let '(music, s', t) := load_music a formats s in
  match music with
  | Some h =>
      exists pre f post,
        formats = pre ++ f :: post /\
        Forall (λ g, Mix_LoadMUSType_RW_ret a g = None) pre /\
        Mix_LoadMUSType_RW_ret a f = Some h /\
        s' = set_musictype (musictype_of f) s /\
        t = map Mix_LoadMUSType_RW (pre ++ [f])
  | None =>
      Forall (λ g, Mix_LoadMUSType_RW_ret a g = None) formats /\ s' = s /\
      t = map Mix_LoadMUSType_RW formats
  end.
Proof.
  induction formats as [|f formats IH]; cbn [load_music].
  - repeat split. constructor.
  - destruct (Mix_LoadMUSType_RW_ret a f) as [h|] eqn:E.
    + exists [], f, formats. repeat split; auto.
    + destruct (load_music a formats s) as [[music s'] t].
      destruct music as [h|].
      * destruct IH as (pre & g & post & -> & Hpre & Hg & -> & ->).
        exists (f :: pre), g, post. repeat split; auto.
      * destruct IH as (Hall & -> & ->). repeat split; auto.
Qed.

Lemma register_with_server_takes (a : register_answers) (data : list Z) (size : Z)
    (s : music_t) :
  haveMidiClient s = true \/ I_MidiRPCInitClient_ret a = true ->
  I_MidiRPCRegisterSong_ret a = true ->
  exists s1 t,
    register_with_server a data size s =
      (true, s1, t ++ [I_MidiRPCRegisterSong data size]) /\
    serverMidiPlaying s1 = true /\ musictype s1 = musictype s /\
    music_initialized s1 = music_initialized s.
Proof.
  intros Hclient Htakes. unfold register_with_server.
  destruct (haveMidiClient s) eqn:Ec; cbn [negb].
  - rewrite Ec, Htakes. do 2 eexists. split; [reflexivity|]. repeat split.
  - destruct Hclient as [Hc | Hc]; [discriminate|]. rewrite Hc.
    cbn [haveMidiClient set_haveMidiClient]. rewrite Htakes.
    do 2 eexists. split; [reflexivity|]. repeat split.
Qed.

(** X22: a MIDI song (14 bytes or more that start with [MThd]) that is
    registered while the RPC server is there, with a client that is there
    or can be started and takes the song, gives a null handle and sets
    [serverMidiPlaying]. With this null handle I_PlaySong and I_PauseSong
    call the server; I_StopSong stops the server and clears the flag, and
    from then on I_PlaySong with the null handle does nothing. *)
Theorem I_RegisterSong_server (a : register_answers) (data : list Z) (size : Z)
    (s : music_t) (looping : bool) (volume : Z)
    (Hinit : music_initialized s = true)
    (Hserver : haveMidiServer s = true)
    (Hsize : 14 <= size)
    (Hmidi : is_MThd data = Ok true)
    (Hclient : haveMidiClient s = true \/ I_MidiRPCInitClient_ret a = true)
    (Htakes : I_MidiRPCRegisterSong_ret a = true) :
  exists s1 t1,
    I_RegisterSong a data size s = Ok (None, s1, t1) /\
    serverMidiPlaying s1 = true /\ musictype s1 = MUSTYPE_MIDI /\
    List.last t1 MIDIToMidi = I_MidiRPCRegisterSong data size /\
    I_PlaySong None looping s1 = (s1, [I_MidiRPCPlaySong looping]) /\
    I_PauseSong volume s1 = (s1, [I_MidiRPCPauseSong]) /\
    snd (I_StopSong s1) = [I_MidiRPCStopSong] /\
    serverMidiPlaying (fst (I_StopSong s1)) = false /\
    I_PlaySong None looping (fst (I_StopSong s1)) = (fst (I_StopSong s1), []).
Proof.
  unfold I_RegisterSong. rewrite Hinit. cbn [negb].
  destruct (Z.leb_spec 14 size) as [_|]; [|lia].
  rewrite Hmidi. cbn [bind andb haveMidiServer set_musictype].
  rewrite Hserver. cbn [andb].
  match goal with
  | |- context [register_with_server a data size ?s0] =>
      destruct (register_with_server_takes a data size s0 Hclient Htakes)
        as (s1 & t & -> & Hp & Hty & Hi)
  end.
  cbn [musictype music_initialized set_musictype] in Hty, Hi.
  exists s1. eexists. split; [reflexivity|].
  split; [exact Hp|]. split; [exact Hty|].
  split; [cbn [app]; now rewrite last_last|].
  unfold I_PlaySong, I_PauseSong, I_StopSong. rewrite Hi, Hinit, Hp.
  cbn [negb fst snd stop_server serverMidiPlaying music_initialized].
  rewrite Hi, Hinit. repeat split; reflexivity.
Qed.

Lemma I_RegisterSong_server_witness :
  exists s1 t1,
    I_RegisterSong server_takes midi_header 14 with_server = Ok (None, s1, t1) /\
    serverMidiPlaying s1 = true /\ musictype s1 = MUSTYPE_MIDI /\
    List.last t1 MIDIToMidi = I_MidiRPCRegisterSong midi_header 14 /\
    I_PlaySong None true s1 = (s1, [I_MidiRPCPlaySong true]) /\
    I_PauseSong 100 s1 = (s1, [I_MidiRPCPauseSong]) /\
    snd (I_StopSong s1) = [I_MidiRPCStopSong] /\
    serverMidiPlaying (fst (I_StopSong s1)) = false /\
    I_PlaySong None true (fst (I_StopSong s1)) = (fst (I_StopSong s1), []).
Proof.
  apply (I_RegisterSong_server server_takes midi_header 14 with_server true 100);
    first [reflexivity | lia | right; reflexivity].
Defined.

(** X23: without the RPC server, and for a song that is not a MUS that
    fails to convert, I_RegisterSong returns the handle of the first format,
    in the order MIDI, Ogg, MP3, WAV, FLAC, MOD, in which SDL_mixer loads
    the song, and [musictype] is the type of that format, whatever the
    first bytes of the song say. If SDL_mixer loads it in no format, or
    cannot read the memory, the handle is null and [musictype] keeps the
    type that the first bytes gave: MIDI, MUS or none. *)
Theorem I_RegisterSong_mixer (a : register_answers) (data : list Z) (size : Z)
    (s : music_t) (mthd : bool)
    (Hinit : music_initialized s = true)
    (Hserver : haveMidiServer s = false)
    (Hdata : is_MThd data = Ok mthd)
    (Hconv : header_type size mthd (mmuscheckformat_ret a) = MUSTYPE_MUS ->
             mmus2mid_ret a = 0) :
  exists music s1 t1,
    I_RegisterSong a data size s = Ok (music, s1, t1) /\
    match music with
    | Some h =>
        SDL_RWFromMem_ret a = true /\
        exists pre f post,
          formats_tried = pre ++ f :: post /\
          Forall (λ g, Mix_LoadMUSType_RW_ret a g = None) pre /\
          Mix_LoadMUSType_RW_ret a f = Some h /\
          musictype s1 = musictype_of f
    | None =>
        (SDL_RWFromMem_ret a = false \/
         Forall (λ g, Mix_LoadMUSType_RW_ret a g = None) formats_tried) /\
        musictype s1 = header_type size mthd (mmuscheckformat_ret a)
    end.
Proof.
  unfold I_RegisterSong. rewrite Hinit. cbn [negb].
  assert (Hmix : forall data' size' s0,
            let '(music, s1, t) := register_with_mixer a data' size' s0 in
            match music with
            | Some h =>
                SDL_RWFromMem_ret a = true /\
                exists pre f post,
                  formats_tried = pre ++ f :: post /\
                  Forall (λ g, Mix_LoadMUSType_RW_ret a g = None) pre /\
                  Mix_LoadMUSType_RW_ret a f = Some h /\
                  musictype s1 = musictype_of f
            | None =>
                (SDL_RWFromMem_ret a = false \/
                 Forall (λ g, Mix_LoadMUSType_RW_ret a g = None) formats_tried) /\
                musictype s1 = musictype s0
            end).
  { intros data' size' s0. unfold register_with_mixer.
    destruct (SDL_RWFromMem_ret a) eqn:Erw; [|split; [now left | reflexivity]].
    pose proof (load_music_first a formats_tried s0) as Hl.
    fold formats_tried.
    destruct (load_music a formats_tried s0) as [[music s1] t].
    destruct music as [h|].
    - destruct Hl as (pre & f & post & Hf & Hpre & Hh & -> & _).
      split; [reflexivity|]. exists pre, f, post. repeat split; auto.
    - destruct Hl as (Hall & -> & _). split; [now right | reflexivity]. }
  unfold header_type in *.
  assert (Hend : forall data' size' s0 t0 ty,
            musictype s0 = ty ->
            exists music s1 t1,
              (let '(music0, s', t3) := register_with_mixer a data' size' s0 in
               Ok (music0, s', t0 ++ t3)) = Ok (music, s1, t1) /\
              match music with
              | Some h =>
                  SDL_RWFromMem_ret a = true /\
                  exists pre f post,
                    formats_tried = pre ++ f :: post /\
                    Forall (λ g, Mix_LoadMUSType_RW_ret a g = None) pre /\
                    Mix_LoadMUSType_RW_ret a f = Some h /\
                    musictype s1 = musictype_of f
              | None =>
                  (SDL_RWFromMem_ret a = false \/
                   Forall (λ g, Mix_LoadMUSType_RW_ret a g = None) formats_tried) /\
                  musictype s1 = ty
              end).
  { intros data' size' s0 t0 ty <-. pose proof (Hmix data' size' s0) as H.
    destruct (register_with_mixer a data' size' s0) as [[music s1] t].
    exists music, s1. eexists. split; [reflexivity|]. destruct music; exact H. }
  destruct (14 <=? size).
  - rewrite Hdata. cbn [bind]. destruct mthd.
    + cbn [bind andb haveMidiServer set_musictype]. rewrite Hserver. cbn [andb].
      apply (Hend _ _ _ []). reflexivity.
    + destruct (mmuscheckformat_ret a).
      * cbn [bind]. rewrite (Hconv eq_refl).
        cbn [andb negb Z.eqb haveMidiServer set_musictype].
        rewrite Hserver. cbn [andb].
        apply (Hend _ _ _ [mmuscheckformat data size; mmus2mid data size; MIDIToMidi]).
        reflexivity.
      * cbn [bind andb]. apply (Hend _ _ _ [mmuscheckformat data size]). reflexivity.
  - cbn [bind andb]. apply (Hend _ _ _ []). reflexivity.
Qed.

Lemma I_RegisterSong_mixer_witness :
  exists music s1 t1,
    I_RegisterSong ogg_only midi_header 14 playing_midi = Ok (music, s1, t1) /\
    match music with
    | Some h =>
        SDL_RWFromMem_ret ogg_only = true /\
        exists pre f post,
          formats_tried = pre ++ f :: post /\
          Forall (λ g, Mix_LoadMUSType_RW_ret ogg_only g = None) pre /\
          Mix_LoadMUSType_RW_ret ogg_only f = Some h /\
          musictype s1 = musictype_of f
    | None =>
        (SDL_RWFromMem_ret ogg_only = false \/
         Forall (λ g, Mix_LoadMUSType_RW_ret ogg_only g = None) formats_tried) /\
        musictype s1 = header_type 14 true (mmuscheckformat_ret ogg_only)
    end.
Proof.
  apply (I_RegisterSong_mixer ogg_only midi_header 14 playing_midi true);
    first [reflexivity | discriminate].
Defined.
